(** * The conversational assistant pipeline of the timesheet tracker

    A shallow embedding of [src/routes/chatbot.js] (the [/chat] route,
    [executeTool] and the data tools that only compute), of the script
    of the chat page and of the browser-side action executor, with the
    properties of the pipeline proved over it.

    JavaScript strings are sequences of UTF-16 code units, modelled as
    [list N].  Effects (the two caches, the completion backend, the data
    queries) are threaded through an explicit state; exceptions are an
    outcome of every computation. *)

From Stdlib Require Import NArith List Ascii String Bool Lia.
From stdpp Require Import base option list gmap.

Local Open Scope N_scope.

(** ** JavaScript text *)

Abbreviation jsstring := (list N).

(** Code units of a Rocq string literal, taken as they are. *)
Fixpoint str (s : string) : jsstring :=
  match s with
  | EmptyString => []
  | String a r => N_of_ascii a :: str r
  end.

(** The quotation mark U+0022 and a literal helper that writes it as an
    apostrophe, for JSON text. *)
Definition QUOTE : N := 34.

Definition jq (s : string) : jsstring :=
  map (fun c => if c =? 39 then QUOTE else c) (str s).

Definition LBRACE : N := 123.
Definition RBRACE : N := 125.
Definition LBRACKET : N := 91.
Definition RBRACKET : N := 93.
Definition BACKSLASH : N := 92.
Definition COLON : N := 58.
Definition COMMA : N := 44.
Definition NEWLINE : N := 10.

(** The class [\s] of a regular expression, which is also the set that
    [String.prototype.trim] removes: WhiteSpace and LineTerminator. *)
Definition is_space (c : N) : bool :=
  (c =? 9) || (c =? 10) || (c =? 11) || (c =? 12) || (c =? 13) || (c =? 32)
  || (c =? 160) || (c =? 5760) || ((8192 <=? c) && (c <=? 8202))
  || (c =? 8232) || (c =? 8233) || (c =? 8239) || (c =? 8287)
  || (c =? 12288) || (c =? 65279).

(** [strip_prefix p s] is the rest of [s] after its prefix [p]. *)
Fixpoint strip_prefix (p s : jsstring) : option jsstring :=
  match p, s with
  | [], _ => Some s
  | a :: p', b :: s' => if a =? b then strip_prefix p' s' else None
  | _ :: _, [] => None
  end.

(** [String.prototype.includes]. *)
Fixpoint includes (p s : jsstring) : bool :=
  match strip_prefix p s with
  | Some _ => true
  | None => match s with
            | [] => false
            | _ :: s' => includes p s'
            end
  end.

Fixpoint skip_space (s : jsstring) : jsstring :=
  match s with
  | c :: s' => if is_space c then skip_space s' else s
  | [] => []
  end.

(** [String.prototype.trim]. *)
Definition trim (s : jsstring) : jsstring :=
  rev (skip_space (rev (skip_space s))).

(** The longest run of code units other than the closing brace, and what
    follows it: the greedy [[^}]+] of the two directive patterns. *)
Fixpoint span_not_rbrace (s : jsstring) : jsstring * jsstring :=
  match s with
  | [] => ([], [])
  | c :: s' =>
      if c =? RBRACE then ([], s)
      else let '(a, b) := span_not_rbrace s' in (c :: a, b)
  end.

(** A match of [/MARKER\s*(\{[^}]+\})/] anchored at the head of [s]:
    the captured group and the text after the closing brace. *)
Definition directive_at (marker s : jsstring) : option (jsstring * jsstring) :=
  match strip_prefix marker s with
  | None => None
  | Some r1 =>
      match skip_space r1 with
      | c :: r2 =>
          if c =? LBRACE then
            match span_not_rbrace r2 with
            | (b :: body, d :: r3) =>
                if d =? RBRACE then Some (LBRACE :: (b :: body) ++ [RBRACE], r3)
                else None
            | _ => None
            end
          else None
      | [] => None
      end
  end.

(** [s.match(/MARKER\s*(\{[^}]+\})/)]: the leftmost match, as the index
    where it starts and its captured group. *)
Fixpoint first_directive (marker s : jsstring) : option (nat * jsstring) :=
  match directive_at marker s with
  | Some (p, _) => Some (O, p)
  | None =>
      match s with
      | [] => None
      | _ :: s' =>
          match first_directive marker s' with
          | Some (i, p) => Some (S i, p)
          | None => None
          end
      end
  end.

(** Length of a match of [/MARKER\s*\{[^}]+\}\s*/] at the head of [s]. *)
Definition directive_span (marker s : jsstring) : option nat :=
  match directive_at marker s with
  | Some (_, rest) => Some (length s - length (skip_space rest))%nat
  | None => None
  end.

(** [s.replace(/MARKER\s*\{[^}]+\}\s*/g, '')]: every match, found left
    to right, each search resuming where the previous match ended.
    [skip] counts the code units of the current match still to drop. *)
Fixpoint remove_directives_from (marker : jsstring) (skip : nat) (s : jsstring)
  : jsstring :=
  match s with
  | [] => []
  | c :: s' =>
      match skip with
      | S k => remove_directives_from marker k s'
      | O =>
          match directive_span marker s with
          | Some n => remove_directives_from marker (n - 1) s'
          | None => c :: remove_directives_from marker O s'
          end
      end
  end.

Definition remove_directives (marker s : jsstring) : jsstring :=
  remove_directives_from marker O s.

Definition TOOL_CALL : jsstring := str "TOOL_CALL:".
Definition ACTION_COMMAND : jsstring := str "ACTION_COMMAND:".


(** ** JSON values

    What [JSON.parse] returns and [JSON.stringify] prints.  A number is
    kept as its literal: the pipeline never computes with one, it only
    tests it for zero and prints it back, which is exact for a literal in
    canonical form. *)

#[local] Unset Elimination Schemes.

Inductive json : Type :=
| JNull
| JBool (b : bool)
| JNumber (literal : jsstring)
| JString (s : jsstring)
| JArray (items : list json)
| JObject (fields : list (jsstring * json)).

#[local] Set Elimination Schemes.

(** A JavaScript value read from a property: [None] is [undefined]. *)
Abbreviation jsval := (option json).

Definition is_digit (c : N) : bool := (48 <=? c) && (c <=? 57).

Definition is_json_space (c : N) : bool :=
  (c =? 9) || (c =? 10) || (c =? 13) || (c =? 32).

Fixpoint skip_jws (s : jsstring) : jsstring :=
  match s with
  | c :: s' => if is_json_space c then skip_jws s' else s
  | [] => []
  end.

Fixpoint span_digits (s : jsstring) : jsstring * jsstring :=
  match s with
  | [] => ([], [])
  | c :: s' =>
      if is_digit c then let '(a, b) := span_digits s' in (c :: a, b)
      else ([], s)
  end.

Definition hex_value (c : N) : option N :=
  if is_digit c then Some (c - 48)
  else if (97 <=? c) && (c <=? 102) then Some (c - 87)
  else if (65 <=? c) && (c <=? 70) then Some (c - 55)
  else None.

Definition hex4 (a b c d : N) : option N :=
  match hex_value a, hex_value b, hex_value c, hex_value d with
  | Some x, Some y, Some z, Some w => Some (4096 * x + 256 * y + 16 * z + w)
  | _, _, _, _ => None
  end.

(** The single-character escapes of a JSON string. *)
Definition simple_escape (e : N) : option N :=
  if (e =? QUOTE) || (e =? BACKSLASH) || (e =? 47) then Some e
  else if e =? 98 then Some 8
  else if e =? 102 then Some 12
  else if e =? 110 then Some 10
  else if e =? 114 then Some 13
  else if e =? 116 then Some 9
  else None.

Definition cons_fst {A B} (a : A) (r : option (list A * B)) : option (list A * B) :=
  match r with
  | Some (l, b) => Some (a :: l, b)
  | None => None
  end.

(** The characters of a JSON string after its opening quote, up to the
    closing one. *)
Fixpoint parse_string (s : jsstring) : option (jsstring * jsstring) :=
  match s with
  | [] => None
  | c :: r =>
      if c =? QUOTE then Some ([], r)
      else if c =? BACKSLASH then
        match r with
        | [] => None
        | e :: r1 =>
            match simple_escape e with
            | Some c' => cons_fst c' (parse_string r1)
            | None =>
                if e =? 117 then
                  match r1 with
                  | h1 :: h2 :: h3 :: h4 :: r2 =>
                      match hex4 h1 h2 h3 h4 with
                      | Some u => cons_fst u (parse_string r2)
                      | None => None
                      end
                  | _ => None
                  end
                else None
            end
        end
      else if c <? 32 then None
      else cons_fst c (parse_string r)
  end.

(** A JSON number: an optional minus sign, an integer part without a
    leading zero, an optional fraction and an optional exponent. *)
Definition parse_number (s : jsstring) : option (jsstring * jsstring) :=
  let '(sign, s1) :=
    match s with
    | c :: r => if c =? 45 then ([45], r) else ([], s)
    | [] => ([], s)
    end in
  match s1 with
  | [] => None
  | c :: r =>
      if is_digit c then
        let '(int, s2) := if c =? 48 then ([48], r) else span_digits s1 in
        let frac :=
          match s2 with
          | d :: r2 =>
              if d =? 46 then
                match span_digits r2 with
                | ([], _) => None
                | (ds, r3) => Some (46 :: ds, r3)
                end
              else Some ([], s2)
          | [] => Some ([], s2)
          end in
        match frac with
        | None => None
        | Some (fr, s3) =>
            let expo :=
              match s3 with
              | e :: r3 =>
                  if (e =? 101) || (e =? 69) then
                    let '(sg, r4) :=
                      match r3 with
                      | g :: r3' =>
                          if (g =? 43) || (g =? 45) then ([g], r3') else ([], r3)
                      | [] => ([], r3)
                      end in
                    match span_digits r4 with
                    | ([], _) => None
                    | (ds, r5) => Some (e :: sg ++ ds, r5)
                    end
                  else Some ([], s3)
              | [] => Some ([], s3)
              end in
            match expo with
            | None => None
            | Some (ex, s4) => Some (sign ++ int ++ fr ++ ex, s4)
            end
        end
      else None
  end.

(** A property name that is an array index: a canonical decimal below
    2^32 - 1.  Such keys come first, in ascending order, when the
    properties of an object are listed. *)
Fixpoint digits_value (acc : N) (s : jsstring) : N :=
  match s with
  | [] => acc
  | c :: r => digits_value (10 * acc + (c - 48)) r
  end.

Definition array_index (k : jsstring) : option N :=
  match k with
  | [] => None
  | c :: r =>
      if forallb is_digit k && ((negb (c =? 48)) || (length r =? 0)%nat)
         && (length k <=? 10)%nat && (digits_value 0 k <? 4294967295)
      then Some (digits_value 0 k) else None
  end.

Fixpoint has_key {A} (k : jsstring) (fs : list (jsstring * A)) : bool :=
  match fs with
  | [] => false
  | (k', _) :: r => if decide (k = k') then true else has_key k r
  end.

Fixpoint assoc {A} (k : jsstring) (fs : list (jsstring * A)) : option A :=
  match fs with
  | [] => None
  | (k', v) :: r => if decide (k = k') then Some v else assoc k r
  end.

Fixpoint replace_value {A} (k : jsstring) (v : A) (fs : list (jsstring * A))
  : list (jsstring * A) :=
  match fs with
  | [] => []
  | (k', v') :: r =>
      if decide (k = k') then (k', v) :: r else (k', v') :: replace_value k v r
  end.

(** Where a new property lands in the listing order. *)
Fixpoint insert_new {A} (k : jsstring) (v : A) (fs : list (jsstring * A))
  : list (jsstring * A) :=
  match fs with
  | [] => [(k, v)]
  | (k', v') :: r =>
      match array_index k, array_index k' with
      | Some i, Some j =>
          if i <? j then (k, v) :: fs else (k', v') :: insert_new k v r
      | Some _, None => (k, v) :: fs
      | None, _ => (k', v') :: insert_new k v r
      end
  end.

(** [CreateDataProperty]: a repeated key keeps its place and takes the
    last value. *)
Definition set_prop {A} (fs : list (jsstring * A)) (kv : jsstring * A)
  : list (jsstring * A) :=
  if has_key (fst kv) fs then replace_value (fst kv) (snd kv) fs
  else insert_new (fst kv) (snd kv) fs.

Definition make_object {A} (members : list (jsstring * A)) : list (jsstring * A) :=
  fold_left set_prop members [].

Definition LIT_TRUE : jsstring := str "true".
Definition LIT_FALSE : jsstring := str "false".
Definition LIT_NULL : jsstring := str "null".

(** The JSON grammar.  [fuel] bounds the number of nested calls: twice
    the length of the text, plus one, is enough for any text. *)
Fixpoint parse_value (fuel : nat) (s : jsstring) : option (json * jsstring) :=
  match fuel with
  | O => None
  | S f =>
      match s with
      | [] => None
      | c :: r =>
          if c =? LBRACE then
            match skip_jws r with
            | [] => None
            | d :: r' =>
                if d =? RBRACE then Some (JObject [], r')
                else
                  match parse_members f (d :: r') with
                  | Some (fs, rest) => Some (JObject (make_object fs), rest)
                  | None => None
                  end
            end
          else if c =? LBRACKET then
            match skip_jws r with
            | [] => None
            | d :: r' =>
                if d =? RBRACKET then Some (JArray [], r')
                else
                  match parse_elements f (d :: r') with
                  | Some (l, rest) => Some (JArray l, rest)
                  | None => None
                  end
            end
          else if c =? QUOTE then
            match parse_string r with
            | Some (t, rest) => Some (JString t, rest)
            | None => None
            end
          else
            match strip_prefix LIT_TRUE s, strip_prefix LIT_FALSE s,
                  strip_prefix LIT_NULL s with
            | Some rest, _, _ => Some (JBool true, rest)
            | _, Some rest, _ => Some (JBool false, rest)
            | _, _, Some rest => Some (JNull, rest)
            | None, None, None =>
                match parse_number s with
                | Some (n, rest) => Some (JNumber n, rest)
                | None => None
                end
            end
      end
  end
with parse_members (fuel : nat) (s : jsstring)
  : option (list (jsstring * json) * jsstring) :=
  match fuel with
  | O => None
  | S f =>
      match s with
      | [] => None
      | c :: r =>
          if c =? QUOTE then
            match parse_string r with
            | None => None
            | Some (k, r1) =>
                match skip_jws r1 with
                | [] => None
                | d :: r2 =>
                    if d =? COLON then
                      match parse_value f (skip_jws r2) with
                      | None => None
                      | Some (v, r3) =>
                          match skip_jws r3 with
                          | [] => None
                          | e :: r4 =>
                              if e =? COMMA then
                                match parse_members f (skip_jws r4) with
                                | Some (fs, r5) => Some ((k, v) :: fs, r5)
                                | None => None
                                end
                              else if e =? RBRACE then Some ([(k, v)], r4)
                              else None
                          end
                      end
                    else None
                end
            end
          else None
      end
  end
with parse_elements (fuel : nat) (s : jsstring)
  : option (list json * jsstring) :=
  match fuel with
  | O => None
  | S f =>
      match parse_value f s with
      | None => None
      | Some (v, r1) =>
          match skip_jws r1 with
          | [] => None
          | e :: r2 =>
              if e =? COMMA then
                match parse_elements f (skip_jws r2) with
                | Some (l, r3) => Some (v :: l, r3)
                | None => None
                end
              else if e =? RBRACKET then Some ([v], r2)
              else None
          end
      end
  end.

(** [JSON.parse]: [None] stands for the SyntaxError it throws. *)
Definition JSON_parse (s : jsstring) : option json :=
  match parse_value (S (2 * length s)) (skip_jws s) with
  | Some (v, rest) =>
      match skip_jws rest with
      | [] => Some v
      | _ :: _ => None
      end
  | None => None
  end.

(** [ToBoolean]: a number is falsy when it is zero, that is when no digit
    of its mantissa differs from 0. *)
Fixpoint nonzero_mantissa (s : jsstring) : bool :=
  match s with
  | [] => false
  | c :: r =>
      if (c =? 101) || (c =? 69) then false
      else ((49 <=? c) && (c <=? 57)) || nonzero_mantissa r
  end.

Definition truthy (v : json) : bool :=
  match v with
  | JNull => false
  | JBool b => b
  | JNumber n => nonzero_mantissa n
  | JString s => negb (length s =? 0)%nat
  | JArray _ | JObject _ => true
  end.

Definition truthy_val (v : jsval) : bool :=
  match v with
  | Some j => truthy j
  | None => false
  end.

(** [a || b] on values. *)
Definition js_or (a : jsval) (b : json) : json :=
  match a with
  | Some j => if truthy j then j else b
  | None => b
  end.

Fixpoint uint_digits (d : Decimal.uint) : jsstring :=
  match d with
  | Decimal.Nil => []
  | Decimal.D0 r => 48 :: uint_digits r
  | Decimal.D1 r => 49 :: uint_digits r
  | Decimal.D2 r => 50 :: uint_digits r
  | Decimal.D3 r => 51 :: uint_digits r
  | Decimal.D4 r => 52 :: uint_digits r
  | Decimal.D5 r => 53 :: uint_digits r
  | Decimal.D6 r => 54 :: uint_digits r
  | Decimal.D7 r => 55 :: uint_digits r
  | Decimal.D8 r => 56 :: uint_digits r
  | Decimal.D9 r => 57 :: uint_digits r
  end.

Definition decimal (n : N) : jsstring := uint_digits (N.to_uint n).

Definition LENGTH : jsstring := str "length".

(** The own properties of a value.  The names the route reads ([tool],
    [params], [period], [projectName], [topic], [error]) are not
    inherited from any prototype, so own properties are all it sees. *)
Definition own_property (v : json) (k : jsstring) : jsval :=
  match v with
  | JObject fs => assoc k fs
  | JArray l =>
      if decide (k = LENGTH) then Some (JNumber (decimal (N.of_nat (length l))))
      else match array_index k with
           | Some i => nth_error l (N.to_nat i)
           | None => None
           end
  | JString s =>
      if decide (k = LENGTH) then Some (JNumber (decimal (N.of_nat (length s))))
      else match array_index k with
           | Some i => match nth_error s (N.to_nat i) with
                       | Some c => Some (JString [c])
                       | None => None
                       end
           | None => None
           end
  | JNull | JBool _ | JNumber _ => None
  end.

(** ** [JSON.stringify] *)

Definition hex_digit (n : N) : N := if n <? 10 then 48 + n else 87 + n.

Definition unicode_escape (c : N) : jsstring :=
  [BACKSLASH; 117; hex_digit (c / 4096); hex_digit ((c / 256) mod 16);
   hex_digit ((c / 16) mod 16); hex_digit (c mod 16)].

Definition is_high_surrogate (c : N) : bool := (55296 <=? c) && (c <=? 56319).
Definition is_low_surrogate (c : N) : bool := (56320 <=? c) && (c <=? 57343).

Fixpoint quote_body (s : jsstring) : jsstring :=
  match s with
  | [] => []
  | c :: r =>
      if c =? QUOTE then BACKSLASH :: QUOTE :: quote_body r
      else if c =? BACKSLASH then BACKSLASH :: BACKSLASH :: quote_body r
      else if c =? 8 then BACKSLASH :: 98 :: quote_body r
      else if c =? 12 then BACKSLASH :: 102 :: quote_body r
      else if c =? 10 then BACKSLASH :: 110 :: quote_body r
      else if c =? 13 then BACKSLASH :: 114 :: quote_body r
      else if c =? 9 then BACKSLASH :: 116 :: quote_body r
      else if c <? 32 then unicode_escape c ++ quote_body r
      else if is_high_surrogate c then
        match r with
        | d :: r' =>
            if is_low_surrogate d then c :: d :: quote_body r'
            else unicode_escape c ++ quote_body r
        | [] => unicode_escape c
        end
      else if is_low_surrogate c then unicode_escape c ++ quote_body r
      else c :: quote_body r
  end.

Definition quote (s : jsstring) : jsstring := QUOTE :: quote_body s ++ [QUOTE].

Fixpoint join (sep : jsstring) (l : list jsstring) : jsstring :=
  match l with
  | [] => []
  | [x] => x
  | x :: r => x ++ sep ++ join sep r
  end.

Fixpoint JSON_stringify (v : json) : jsstring :=
  match v with
  | JNull => LIT_NULL
  | JBool true => LIT_TRUE
  | JBool false => LIT_FALSE
  | JNumber n => n
  | JString s => quote s
  | JArray l => LBRACKET :: join [COMMA] (map JSON_stringify l) ++ [RBRACKET]
  | JObject fs =>
      LBRACE
      :: join [COMMA]
           (map (fun kv => quote (fst kv) ++ COLON :: JSON_stringify (snd kv)) fs)
      ++ [RBRACE]
  end.

(** ** Outcomes and the state of the server *)

Inductive Exn : Type :=
| Error (message : jsstring)
| SyntaxError
| TypeError
| BackendFailure.

Inductive Outcome (A : Type) : Type :=
| Returns (a : A)
| Throws (e : Exn).

Arguments Returns {A} a.
Arguments Throws {A} e.

(** Property access, which throws on [null] and [undefined]. *)
Definition get_prop (v : json) (k : jsstring) : Outcome jsval :=
  match v with
  | JNull => Throws TypeError
  | _ => Returns (own_property v k)
  end.

(** What the route stores in the response cache and hands to the callers
    waiting on one request ([responseData]). *)
Record ResponseData : Type := {
  response : jsstring;
  model : jsstring;
  userId : jsstring;
  action : json
}.

Local Close Scope N_scope.

(** ** The cache manager

    [src/utils/cache-manager.js], which the route requires, is not among
    the source files: the definitions of this section follow the
    specification (sections 3, 4.1, 4.2 and 4.3). *)

(** Modelled from the spec: the CacheEntry of the missing cache manager,
    a payload with its absolute expiry; the key is the one it is stored
    under. *)
Record CacheEntry (V : Type) : Type := {
  value : V;
  expiresAt : nat
}.

Arguments value {V} _.
Arguments expiresAt {V} _.

(** Modelled from the spec: the CacheKey of the missing cache manager,
    derived from the tuple (subject, operation, parameter-set). *)
Abbreviation CacheKey := (jsstring * jsstring * jsstring)%type.

(** Modelled from the spec: the TTL of each tier of the missing cache
    manager, in ticks of the clock. *)
Record Config : Type := {
  TOOL_TTL : nat;
  RESPONSE_TTL : nat
}.

(** Modelled from the spec: [get] of the missing Cache Store.  A read
    after [expiresAt] is a miss and evicts the stale entry. *)
Definition store_get {V} (now : nat) (k : CacheKey) (m : gmap CacheKey (CacheEntry V))
  : option V * gmap CacheKey (CacheEntry V) :=
  match m !! k with
  | Some e => if now <=? expiresAt e then (Some (value e), m) else (None, delete k m)
  | None => (None, m)
  end.

(** Modelled from the spec: [put] of the missing Cache Store, which
    stores a value with an absolute expiry. *)
Definition store_put {V} (now ttl : nat) (k : CacheKey) (v : V)
  (m : gmap CacheKey (CacheEntry V)) : gmap CacheKey (CacheEntry V) :=
  <[k := {| value := v; expiresAt := now + ttl |}]> m.

Definition to_lower (c : N) : N :=
  if ((65 <=? c) && (c <=? 90))%N then (c + 32)%N else c.

Fixpoint lex_leb (a b : jsstring) : bool :=
  match a, b with
  | [], _ => true
  | _ :: _, [] => false
  | x :: a', y :: b' =>
      if (x <? y)%N then true else if (y <? x)%N then false else lex_leb a' b'
  end.

Fixpoint insert_sorted {A} (kv : jsstring * A) (l : list (jsstring * A))
  : list (jsstring * A) :=
  match l with
  | [] => [kv]
  | kv' :: r =>
      if lex_leb (fst kv) (fst kv') then kv :: l else kv' :: insert_sorted kv r
  end.

Definition sort_fields {A} (l : list (jsstring * A)) : list (jsstring * A) :=
  foldr insert_sorted [] l.

(** Modelled from the spec: the stable serialization of a parameter
    object, with sorted keys, that the missing [generateCacheKey] uses. *)
Fixpoint sorted_keys (v : json) : json :=
  match v with
  | JArray l => JArray (map sorted_keys l)
  | JObject fs => JObject (sort_fields (map (fun kv => (fst kv, sorted_keys (snd kv))) fs))
  | _ => v
  end.

Definition stable_stringify (v : json) : jsstring :=
  JSON_stringify (sorted_keys v).

(** Modelled from the spec: [generateCacheKey] of the missing cache
    manager, a pure function of the user, the message with its case
    normalized, and the context object. *)
Definition generateCacheKey (userId message : jsstring) (context : json) : CacheKey :=
  (userId, map to_lower message, stable_stringify context).

(** Modelled from the spec: the key of the missing Tool Result Cache,
    from (user, tool name, normalized parameters). *)
Definition toolCacheKey (toolName : jsval) (userId : jsstring) (params : json) : CacheKey :=
  (userId,
   match toolName with
   | Some n => JSON_stringify n
   | None => str "undefined"
   end,
   stable_stringify params).

(** ** The data queries

    The twenty data-query functions of [chatbot.js] read the database:
    each call is named by the function and the arguments [executeTool]
    passes to it. *)

Inductive DataQuery : Type :=
| getLoggedHours (userId : jsstring) (period : jsval)
| getPendingTasks (userId : jsstring)
| getAssignedProjects (userId : jsstring)
| checkTodayTimesheet (userId : jsstring)
| getAttendanceStatus (userId : jsstring)
| getLeaveBalance (userId : jsstring)
| getPendingApprovals (userId role : jsstring)
| getProjectTimeSpent (userId : jsstring) (projectName : jsval)
| suggestTaskNames (userId : jsstring)
| getRepeatedEntries (userId : jsstring)
| checkMissingHours (userId : jsstring) (period : jsval)
| getUpcomingDeadlines (userId : jsstring)
| detectIncompleteEntries (userId : jsstring) (period : jsval)
| detectOverlappingHours (userId : jsstring) (period : jsval)
| checkOvertimeLimits (userId : jsstring) (period : jsval)
| suggestCorrections (userId : jsstring)
| getTodayTasks (userId : jsstring)
| getManagerMissingTimesheets (userId userRole : jsstring) (period : jsval)
| getTopLoggers (userId userRole : jsstring) (period : jsval)
| getOnboardingHelp (topic : jsval).

(** What a call of the completion backend gives the route.
    [Unreachable]: [fetch] rejects, or the body is not the JSON the route
    reads ([response.json()] or [data.choices[0]] throws).
    [NotOk]: a response whose [ok] is false.
    [Completion content model]: an [ok] response, with
    [data.choices[0]?.message?.content] and [data.model] when present. *)
Inductive BackendReply : Type :=
| Unreachable
| NotOk
| Completion (content : option jsstring) (model : option jsstring).

(** The world around the route: the prompt constant, the cache tiers,
    and what the backend and the database answer to the n-th call made
    to them. *)
Record Env : Type := {
  SYSTEM_PROMPT : jsstring;
  config : Config;
  backend : nat -> list json -> BackendReply;
  database : nat -> DataQuery -> json
}.

(** The state of the server: the two caches and the clock, with the
    record of the calls made to the collaborators, oldest first. *)
Record State : Type := {
  toolResults : gmap CacheKey (CacheEntry json);
  responses : gmap CacheKey (CacheEntry ResponseData);
  clock : nat;
  backendLog : list (list json);
  toolLog : list (jsval * json);
  queryLog : list DataQuery
}.

Definition M (A : Type) : Type := State -> Outcome A * State.

Definition ret {A} (a : A) : M A := fun st => (Returns a, st).

Definition throw {A} (e : Exn) : M A := fun st => (Throws e, st).

Definition bind {A B} (c : M A) (k : A -> M B) : M B :=
  fun st =>
    match c st with
    | (Returns a, st') => k a st'
    | (Throws e, st') => (Throws e, st')
    end.

(** [try { body } catch (e) { handler }]: what [body] changed before it
    threw stays changed. *)
Definition try_catch {A} (body : M A) (handler : Exn -> M A) : M A :=
  fun st =>
    match body st with
    | (Returns a, st') => (Returns a, st')
    | (Throws e, st') => handler e st'
    end.

Definition lift {A} (o : Outcome A) : M A := fun st => (o, st).

Notation "x <- c ;; k" := (bind c (fun x => k))
  (at level 100, c at next level, right associativity).
Notation "c ;;; k" := (bind c (fun _ => k))
  (at level 100, right associativity).

(** Modelled from the spec: [getCachedToolResult] of the missing cache
    manager. *)
Definition getCachedToolResult (toolName : jsval) (userId : jsstring) (params : json)
  : M jsval :=
  fun st =>
    let '(r, m) := store_get (clock st) (toolCacheKey toolName userId params)
                     (toolResults st) in
    (Returns r,
     {| toolResults := m; responses := responses st; clock := clock st;
        backendLog := backendLog st; toolLog := toolLog st;
        queryLog := queryLog st |}).

(** Modelled from the spec: [setCachedToolResult] of the missing cache
    manager. *)
Definition setCachedToolResult (cfg : Config) (toolName : jsval) (userId : jsstring)
  (result params : json) : M unit :=
  fun st =>
    (Returns tt,
     {| toolResults := store_put (clock st) (TOOL_TTL cfg)
                         (toolCacheKey toolName userId params) result (toolResults st);
        responses := responses st; clock := clock st;
        backendLog := backendLog st; toolLog := toolLog st;
        queryLog := queryLog st |}).

(** Modelled from the spec: [getCachedResponse] of the missing cache
    manager. *)
Definition getCachedResponse (userId message : jsstring) (context : json)
  : M (option ResponseData) :=
  fun st =>
    let '(r, m) := store_get (clock st) (generateCacheKey userId message context)
                     (responses st) in
    (Returns r,
     {| toolResults := toolResults st; responses := m; clock := clock st;
        backendLog := backendLog st; toolLog := toolLog st;
        queryLog := queryLog st |}).

(** Modelled from the spec: [setCachedResponse] of the missing cache
    manager. *)
Definition setCachedResponse (cfg : Config) (userId message : jsstring)
  (data : ResponseData) (context : json) : M unit :=
  fun st =>
    (Returns tt,
     {| toolResults := toolResults st;
        responses := store_put (clock st) (RESPONSE_TTL cfg)
                       (generateCacheKey userId message context) data (responses st);
        clock := clock st;
        backendLog := backendLog st; toolLog := toolLog st;
        queryLog := queryLog st |}).

(** [fetch(GROQ_API_URL, ...)] with the given [messages], and the reading
    of its body. *)
Definition fetch (env : Env) (messages : list json) : M BackendReply :=
  fun st =>
    (Returns (backend env (length (backendLog st)) messages),
     {| toolResults := toolResults st; responses := responses st; clock := clock st;
        backendLog := backendLog st ++ [messages]; toolLog := toolLog st;
        queryLog := queryLog st |}).

(** A call of one of the data-query functions.  Nineteen of them catch
    whatever they throw and return an error-shaped object;
    [getOnboardingHelp] calls [topic?.toLowerCase()] outside any [try],
    which throws for a topic that is neither absent nor a string. *)
Definition runQuery (env : Env) (q : DataQuery) : M json :=
  fun st =>
    let st' :=
      {| toolResults := toolResults st; responses := responses st; clock := clock st;
         backendLog := backendLog st; toolLog := toolLog st;
         queryLog := queryLog st ++ [q] |} in
    match q with
    | getOnboardingHelp (Some (JBool _ | JNumber _ | JArray _ | JObject _)) =>
        (Throws TypeError, st')
    | _ => (Returns (database env (length (queryLog st)) q), st')
    end.

Definition logToolCall (toolName : jsval) (params : json) : M unit :=
  fun st =>
    (Returns tt,
     {| toolResults := toolResults st; responses := responses st; clock := clock st;
        backendLog := backendLog st; toolLog := toolLog st ++ [(toolName, params)];
        queryLog := queryLog st |}).

(** ** The tool dispatcher: [executeTool] *)

Definition UNKNOWN_TOOL : json :=
  JObject [(str "error", JString (str "Unknown tool"))].

Definition ERROR : jsstring := str "error".
Definition PERIOD : jsstring := str "period".
Definition PROJECT_NAME : jsstring := str "projectName".
Definition TOPIC : jsstring := str "topic".

(** The [switch (toolName)] of [executeTool]: the data query of each
    case, with the arguments it is called with; [None] is the [default]
    case. *)
Definition toolQuery (toolName : jsval) (userId userRole : jsstring) (params : json)
  : option DataQuery :=
  match toolName with
  | Some (JString n) =>
      if decide (n = str "getLoggedHours") then
        Some (getLoggedHours userId (own_property params PERIOD))
      else if decide (n = str "getPendingTasks") then Some (getPendingTasks userId)
      else if decide (n = str "getAssignedProjects") then Some (getAssignedProjects userId)
      else if decide (n = str "checkTodayTimesheet") then Some (checkTodayTimesheet userId)
      else if decide (n = str "getAttendanceStatus") then Some (getAttendanceStatus userId)
      else if decide (n = str "getLeaveBalance") then Some (getLeaveBalance userId)
      else if decide (n = str "getPendingApprovals") then
        Some (getPendingApprovals userId userRole)
      else if decide (n = str "getProjectTimeSpent") then
        Some (getProjectTimeSpent userId (own_property params PROJECT_NAME))
      else if decide (n = str "suggestTaskNames") then Some (suggestTaskNames userId)
      else if decide (n = str "getRepeatedEntries") then Some (getRepeatedEntries userId)
      else if decide (n = str "checkMissingHours") then
        Some (checkMissingHours userId (own_property params PERIOD))
      else if decide (n = str "getUpcomingDeadlines") then Some (getUpcomingDeadlines userId)
      else if decide (n = str "detectIncompleteEntries") then
        Some (detectIncompleteEntries userId (own_property params PERIOD))
      else if decide (n = str "detectOverlappingHours") then
        Some (detectOverlappingHours userId (own_property params PERIOD))
      else if decide (n = str "checkOvertimeLimits") then
        Some (checkOvertimeLimits userId (own_property params PERIOD))
      else if decide (n = str "suggestCorrections") then Some (suggestCorrections userId)
      else if decide (n = str "getTodayTasks") then Some (getTodayTasks userId)
      else if decide (n = str "getManagerMissingTimesheets") then
        Some (getManagerMissingTimesheets userId userRole (own_property params PERIOD))
      else if decide (n = str "getTopLoggers") then
        Some (getTopLoggers userId userRole (own_property params PERIOD))
      else if decide (n = str "getOnboardingHelp") then
        Some (getOnboardingHelp (own_property params TOPIC))
      else None
  | _ => None
  end.

(** [result && !result.error] *)
Definition cacheable (result : json) : bool :=
  truthy result && negb (truthy_val (own_property result ERROR)).

(** The part of [executeTool] after a cache miss. *)
Definition runTool (env : Env) (toolName : jsval) (userId userRole : jsstring)
  (params : json) : M json :=
  result <- match toolQuery toolName userId userRole params with
            | Some q => runQuery env q
            | None => ret UNKNOWN_TOOL
            end ;;
  (if cacheable result
   then setCachedToolResult (config env) toolName userId result params
   else ret tt) ;;;
  ret result.

Definition executeTool (env : Env) (toolName : jsval) (userId userRole : jsstring)
  (params : json) : M json :=
  logToolCall toolName params ;;;
  cachedResult <- getCachedToolResult toolName userId params ;;
  match cachedResult with
  | Some r => if truthy r then ret r else runTool env toolName userId userRole params
  | None => runTool env toolName userId userRole params
  end.

(** ** The [/chat] route *)

Record User : Type := {
  user_id : jsstring;
  user_role : jsstring;
  user_name : jsstring
}.

(** An authenticated request: [req.body.message], [req.body.history]
    (an array when present) and [req.user]. *)
Record Request : Type := {
  message : jsval;
  history : option (list json);
  user : User
}.

Inductive HttpResponse : Type :=
| Status200 (body : list (jsstring * json))
| Status400 (body : list (jsstring * json))
| Status500 (cause : Exn).

Definition APOLOGY : jsstring :=
  str "I tried to look up your data but encountered an error. Please try again.".

Definition NO_SUMMARY : jsstring :=
  str "I retrieved the data but couldn't summarize it.".

Definition DEFAULT_MODEL : jsstring := str "llama-3.1-8b-instant".

Definition ROLE : jsstring := str "role".

Definition chatMessage (role content : jsstring) : json :=
  JObject [(ROLE, JString role); (str "content", JString content)].

(** [{ role: userRole }] *)
Definition roleContext (u : User) : json := JObject [(ROLE, JString (user_role u))].

(** [a.slice(-n)] *)
Definition last_n {A} (n : nat) (l : list A) : list A := drop (length l - n) l.

Definition contextPrompt (env : Env) (u : User) : jsstring :=
  SYSTEM_PROMPT env
  ++ [NEWLINE; NEWLINE] ++ str "## CURRENT USER CONTEXT" ++ [NEWLINE]
  ++ str "Name: " ++ user_name u ++ str " " ++ [NEWLINE]
  ++ str "Role: " ++ user_role u ++ str " " ++ [NEWLINE]
  ++ str "User ID: " ++ user_id u ++ str " ".

Definition chatMessages (env : Env) (u : User) (text : jsstring) (hist : list json)
  : list json :=
  chatMessage (str "system") (contextPrompt env u)
  :: last_n 10 hist ++ [chatMessage (str "user") text].

Definition SUMMARIZE : jsstring :=
  str " " ++ [NEWLINE; NEWLINE]
  ++ str "Please summarize this data for the user in a friendly, helpful way.Use bullet points and emojis.".

Definition followUpMessages (env : Env) (u : User) (text : jsstring) (hist : list json)
  (toolCall toolResult : json) : list json :=
  chatMessage (str "system") (contextPrompt env u)
  :: last_n 6 hist
  ++ [chatMessage (str "user") text;
      chatMessage (str "assistant")
        (str "TOOL_CALL: " ++ JSON_stringify toolCall ++ str " ");
      chatMessage (str "user")
        (str "TOOL_RESULT: " ++ JSON_stringify toolResult ++ SUMMARIZE)].

Definition or_text (content : option jsstring) (default : jsstring) : jsstring :=
  match content with
  | Some (c :: t) => c :: t
  | _ => default
  end.

(** The body of the [try] at lines 1419-1449: parse the directive, run
    the tool, ask the backend for a summary. *)
Definition toolTurn (env : Env) (u : User) (text : jsstring) (hist : list json)
  (aiResponse payload : jsstring) : M jsstring :=
  toolCall <- lift (match JSON_parse payload with
                    | Some v => Returns v
                    | None => Throws SyntaxError
                    end) ;;
  tool <- lift (get_prop toolCall (str "tool")) ;;
  params <- lift (get_prop toolCall (str "params")) ;;
  toolResult <- executeTool env tool (user_id u) (user_role u) (js_or params (JObject [])) ;;
  followUpResponse <- fetch env (followUpMessages env u text hist toolCall toolResult) ;;
  match followUpResponse with
  | Unreachable => throw BackendFailure
  | NotOk => ret aiResponse
  | Completion content _ => ret (or_text content NO_SUMMARY)
  end.

(** "Check if AI wants to use a tool", lines 1416-1455. *)
Definition toolStep (env : Env) (u : User) (text : jsstring) (hist : list json)
  (aiResponse : jsstring) : M jsstring :=
  if includes TOOL_CALL aiResponse then
    match first_directive TOOL_CALL aiResponse with
    | Some (_, payload) =>
        try_catch (toolTurn env u text hist aiResponse payload)
          (fun _ => ret APOLOGY)
    | None => ret aiResponse
    end
  else ret aiResponse.

(** "Parse action commands from AI response", lines 1458-1470: the
    action command and the text left. *)
Definition actionStep (aiResponse : jsstring) : json * jsstring :=
  if includes ACTION_COMMAND aiResponse then
    match first_directive ACTION_COMMAND aiResponse with
    | Some (_, payload) =>
        match JSON_parse payload with
        | Some actionCommand =>
            (actionCommand, trim (remove_directives ACTION_COMMAND aiResponse))
        | None => (JNull, aiResponse)
        end
    | None => (JNull, aiResponse)
    end
  else (JNull, aiResponse).

(** The producer handed to [deduplicateRequest], lines 1381-1482. *)
Definition processRequest (env : Env) (u : User) (text : jsstring) (hist : list json)
  : M ResponseData :=
  reply <- fetch env (chatMessages env u text hist) ;;
  match reply with
  | Unreachable => throw BackendFailure
  | NotOk => throw (Error (str "Failed to get response from AI"))
  | Completion content dataModel =>
      aiResponse <- toolStep env u text hist (or_text content []) ;;
      let '(actionCommand, aiResponse) := actionStep aiResponse in
      let responseData :=
        {| response := aiResponse;
           model := or_text dataModel DEFAULT_MODEL;
           userId := user_id u;
           action := actionCommand |} in
      setCachedResponse (config env) (user_id u) text responseData (roleContext u) ;;;
      ret responseData
  end.

(** What the route does before it reaches [deduplicateRequest]: it
    answers at once (a rejected message, a cached response) or goes on
    with the key of the request and its message. *)
Inductive Admission : Type :=
| Answered (r : HttpResponse)
| Pending (key : CacheKey) (text : jsstring).

Definition admitRequest (req : Request) (st : State) : Admission * State :=
  match message req with
  | Some (JString (c :: t)) =>
      let text := c :: t in
      match getCachedResponse (user_id (user req)) text (roleContext (user req)) st with
      | (Returns (Some cachedResponse), st') =>
          (Answered
             (Status200
                [(str "response", JString (response cachedResponse));
                 (str "model", JString (model cachedResponse));
                 (str "cached", JBool true)]),
           st')
      | (_, st') =>
          (Pending (generateCacheKey (user_id (user req)) text (roleContext (user req)))
             text,
           st')
      end
  | _ =>
      (Answered (Status400 [(ERROR, JString (str "Message is required"))]), st)
  end.

(** The response sent once [deduplicateRequest] settles, lines 1487-1500. *)
Definition respond (o : Outcome ResponseData) : HttpResponse :=
  match o with
  | Returns result =>
      Status200
        [(str "response", JString (response result));
         (str "model", JString (model result));
         (str "cached", JBool false);
         (str "action", js_or (Some (action result)) JNull)]
  | Throws e => Status500 e
  end.

Definition historyOf (req : Request) : list json :=
  match history req with
  | Some h => h
  | None => []
  end.

(** Modelled from the spec: [deduplicateRequest] of the missing cache
    manager, for a caller that finds no computation in flight for its
    key and meets no concurrent caller: its own call of the producer is
    the computation, and the outcome of that call is what it receives. *)
Definition deduplicateRequest {A} (key : CacheKey) (producer : M A) : M A := producer.

(** One turn of the route, run from the request to the response with no
    other request in between. *)
Definition chat (env : Env) (req : Request) (st : State) : HttpResponse * State :=
  match admitRequest req st with
  | (Answered r, st') => (r, st')
  | (Pending key text, st') =>
      let '(result, st'') :=
        deduplicateRequest key
          (processRequest env (user req) text (historyOf req)) st' in
      (respond result, st'')
  end.

(** ** The event loop: concurrent requests

    Node runs one handler at a time and switches between them only where
    one awaits.  A request runs up to its call of [deduplicateRequest]
    in one piece ([Arrive]); when the computation in flight for a key
    settles, the write to the response cache, the removal of the entry
    and the responses to everyone who awaits it happen in one piece too
    ([Settle]).  The steps of the producer are run at its settling: the
    requests that arrive while it is in flight read the response cache
    and the table only, neither of which the producer touches before it
    ends.  What this leaves out is how the producers of different keys
    interleave on the tool cache. *)

(** Modelled from the spec: the table of InFlightRequests of the missing
    cache manager.  An entry holds the computation in flight for a key,
    named by the request whose producer it runs, and the callers that
    await it, in the order they attached. *)
Abbreviation InFlightTable := (gmap CacheKey (Request * list nat)).

(** The server between two events: its state, the table of computations
    in flight, the keys the producer was invoked for and the responses
    sent to the callers, both oldest first. *)
Record Server : Type := {
  store : State;
  inFlight : InFlightTable;
  producerLog : list CacheKey;
  delivered : list (nat * HttpResponse)
}.

Inductive Event : Type :=
| Arrive (caller : nat) (req : Request)
| Settle (key : CacheKey)
| Tick (d : nat).

(** Modelled from the spec: [deduplicateRequest] of the missing cache
    manager, as it acts on the table.  A caller that finds a computation
    in flight for its key attaches to it and the producer is not invoked;
    otherwise its own invocation becomes the computation in flight. *)
Definition attachOrStart (key : CacheKey) (caller : nat) (req : Request)
  (srv : Server) (st : State) : Server :=
  match inFlight srv !! key with
  | Some (owner, waiters) =>
      {| store := st;
         inFlight := <[key := (owner, waiters ++ [caller])]> (inFlight srv);
         producerLog := producerLog srv;
         delivered := delivered srv |}
  | None =>
      {| store := st;
         inFlight := <[key := (req, [caller])]> (inFlight srv);
         producerLog := producerLog srv ++ [key];
         delivered := delivered srv |}
  end.

Definition advance (d : nat) (st : State) : State :=
  {| toolResults := toolResults st; responses := responses st;
     clock := clock st + d;
     backendLog := backendLog st; toolLog := toolLog st; queryLog := queryLog st |}.

(** The text of a request that was admitted. *)
Definition textOf (req : Request) : jsstring :=
  match message req with
  | Some (JString t) => t
  | _ => []
  end.

Definition step (env : Env) (srv : Server) (ev : Event) : Server :=
  match ev with
  | Arrive caller req =>
      match admitRequest req (store srv) with
      | (Answered r, st) =>
          {| store := st; inFlight := inFlight srv; producerLog := producerLog srv;
             delivered := delivered srv ++ [(caller, r)] |}
      | (Pending key _, st) => attachOrStart key caller req srv st
      end
  | Settle key =>
      match inFlight srv !! key with
      | Some (owner, waiters) =>
          let '(result, st) :=
            processRequest env (user owner) (textOf owner) (historyOf owner) (store srv) in
          {| store := st;
             inFlight := delete key (inFlight srv);
             producerLog := producerLog srv;
             delivered := delivered srv ++ map (fun c => (c, respond result)) waiters |}
      | None => srv
      end
  | Tick d =>
      {| store := advance d (store srv); inFlight := inFlight srv;
         producerLog := producerLog srv; delivered := delivered srv |}
  end.

Definition run (env : Env) (srv : Server) (events : list Event) : Server :=
  fold_left (step env) events srv.

(** ** The browser-side action executor ([executeChatbotAction]) *)

Definition ACTION_REGISTRY_navigate : list (jsstring * jsstring) :=
  [(str "employee-dashboard", str "/employee.html");
   (str "manager-dashboard", str "/manager.html");
   (str "admin-dashboard", str "/admin.html");
   (str "timesheets-page", str "/employee.html#timesheets");
   (str "tasks-page", str "/employee.html#tasks");
   (str "attendance-page", str "/employee.html#attendance");
   (str "profile-page", str "/employee.html#profile");
   (str "home", str "/home.html")].

Definition ACTION_REGISTRY_click : list (jsstring * bool) :=
  [(str "#addTimesheetBtn", true);
   (str "#checkInBtn", true);
   (str "#checkOutBtn", true);
   (str "#submitTimesheetBtn", true);
   (str "#addTaskBtn", true);
   (str "#viewReportsBtn", true)].

Definition ACTION_REGISTRY_scroll : list (jsstring * jsstring) :=
  [(str "timesheets-section", str "#timesheetsSection");
   (str "tasks-section", str "#tasksSection");
   (str "attendance-section", str "#attendanceSection");
   (str "reports-section", str "#reportsSection");
   (str "profile-section", str "#profileSection")].

(** Each modal function clicks one button: the table gives its selector. *)
Definition ACTION_REGISTRY_open_modal : list (jsstring * jsstring) :=
  [(str "add-timesheet", str "#addTimesheetBtn");
   (str "edit-timesheet", str ".edit-timesheet-btn");
   (str "add-task", str "#addTaskBtn")].

(** The registry tables are object literals: a lookup that finds no own
    key goes on to [Object.prototype], whose property names these are. *)
Definition OBJECT_PROTOTYPE : list jsstring :=
  [str "constructor"; str "__defineGetter__"; str "__defineSetter__";
   str "hasOwnProperty"; str "__lookupGetter__"; str "__lookupSetter__";
   str "isPrototypeOf"; str "propertyIsEnumerable"; str "toString";
   str "valueOf"; str "__proto__"; str "toLocaleString"].

Inductive Lookup (A : Type) : Type :=
| Own (v : A)
| Inherited
| Absent.

Arguments Own {A} v.
Arguments Inherited {A}.
Arguments Absent {A}.

Definition lookupRegistry {A} (table : list (jsstring * A)) (k : jsstring) : Lookup A :=
  match assoc k table with
  | Some v => Own v
  | None => if bool_decide (k ∈ OBJECT_PROTOTYPE) then Inherited else Absent
  end.

(** [ToString], which turns a value into a property key. *)
Fixpoint to_text (v : json) : jsstring :=
  match v with
  | JNull => LIT_NULL
  | JBool true => LIT_TRUE
  | JBool false => LIT_FALSE
  | JNumber n => n
  | JString s => s
  | JArray l =>
      join [COMMA]
        (map (fun x => match x with
                       | JNull => []
                       | _ => to_text x
                       end) l)
  | JObject _ => str "[object Object]"
  end.

(** What [Object.prototype] holds under each of its names is a built-in
    function, except under [__proto__], whose getter gives
    [Object.prototype] itself: every one of them is truthy.  Called as
    [modalAction()], with no receiver and no argument, [Object()],
    [toString] and [isPrototypeOf] return; the other functions start
    with [ToObject(this)] and throw a TypeError. *)
Definition RETURNS_WHEN_CALLED : list jsstring :=
  [str "constructor"; str "toString"; str "isPrototypeOf"].

(** What the executor starts.  [NavigateBuiltin name]: [location.href]
    is set to the built-in found under [name], that is to its text;
    [CallBuiltin name]: the built-in found under [name] is called. *)
Inductive UiEffect : Type :=
| Navigate (url : jsstring)
| Click (selector : jsstring)
| ScrollTo (selector : jsstring)
| OpenModal (button : jsstring)
| NavigateBuiltin (name : jsstring)
| CallBuiltin (name : jsstring).

(** What a call of the executor comes to: it returns [true] having
    started an effect, or it returns [false] having started none. *)
Inductive Execution : Type :=
| Executed (e : UiEffect)
| Refused.

(** [ACTION_REGISTRY.navigate[target]] is truthy for an inherited name
    as it is for a key of the table: the feedback is shown and the
    timer set that assigns the value found to [location.href]. *)
Definition executeNavigate (target : jsval) : Execution :=
  match target with
  | Some t =>
      if truthy t then
        match lookupRegistry ACTION_REGISTRY_navigate (to_text t) with
        | Own url => Executed (Navigate url)
        | Inherited => Executed (NavigateBuiltin (to_text t))
        | Absent => Refused
        end
      else Refused
  | None => Refused
  end.

(** [dom selector] tells whether [document.querySelector(selector)]
    finds an element.  The allow-list test of [executeClick] reads
    [ACTION_REGISTRY.click[elementSelector]], which an inherited name
    passes as a key does; the element looked for is the one the given
    string selects. *)
Definition executeClick (dom : jsstring -> bool) (elementSelector : jsval) : Execution :=
  match elementSelector with
  | Some t =>
      if truthy t then
        match lookupRegistry ACTION_REGISTRY_click (to_text t) with
        | Own _ | Inherited =>
            if dom (to_text t) then Executed (Click (to_text t)) else Refused
        | Absent => Refused
        end
      else Refused
  | None => Refused
  end.

(** For an inherited name the selector is a built-in, whose text
    ([function toString() { [native code] }], [[object Object]]) is no
    CSS selector: [document.querySelector] throws, and the [catch] of
    [executeChatbotAction] returns [false]. *)
Definition executeScroll (dom : jsstring -> bool) (target : jsval) : Execution :=
  match target with
  | Some t =>
      if truthy t then
        match lookupRegistry ACTION_REGISTRY_scroll (to_text t) with
        | Own selector => if dom selector then Executed (ScrollTo selector) else Refused
        | Inherited => Refused
        | Absent => Refused
        end
      else Refused
  | None => Refused
  end.

(** For an inherited name [modalAction] is a built-in: a function is
    called, and [true] returned unless the call throws (the [catch] of
    [executeChatbotAction] then returns [false]); [__proto__] gives an
    object, which is not called. *)
Definition executeOpenModal (modalName : jsval) : Execution :=
  match modalName with
  | Some t =>
      if truthy t then
        match lookupRegistry ACTION_REGISTRY_open_modal (to_text t) with
        | Own button => Executed (OpenModal button)
        | Inherited =>
            if bool_decide (to_text t ∈ RETURNS_WHEN_CALLED)
            then Executed (CallBuiltin (to_text t))
            else Refused
        | Absent => Refused
        end
      else Refused
  | None => Refused
  end.

Definition executeChatbotAction (dom : jsstring -> bool) (actionData : json) : Execution :=
  if truthy actionData && truthy_val (own_property actionData (str "action")) then
    match own_property actionData (str "action") with
    | Some (JString a) =>
        if decide (a = str "navigate") then
          executeNavigate (own_property actionData (str "target"))
        else if decide (a = str "click") then
          executeClick dom (own_property actionData (str "element"))
        else if decide (a = str "scroll") then
          executeScroll dom (own_property actionData (str "target"))
        else if decide (a = str "open_modal") then
          executeOpenModal (own_property actionData (str "modal"))
        else Refused
    | _ => Refused
    end
  else Refused.

(** The page's handling of a successful response: "Execute action if
    present" runs the executor on a truthy [data.action]. *)
Definition clientAction (dom : jsstring -> bool) (body : list (jsstring * json))
  : Execution :=
  match assoc (str "action") body with
  | Some a => if truthy a then executeChatbotAction dom a else Refused
  | None => Refused
  end.

(** ** Worlds to run the route in *)

Definition emptyState : State :=
  {| toolResults := ∅; responses := ∅; clock := 0;
     backendLog := []; toolLog := []; queryLog := [] |}.

Definition emptyServer : Server :=
  {| store := emptyState; inFlight := ∅; producerLog := []; delivered := [] |}.

Definition alice : User :=
  {| user_id := str "u1"; user_role := str "employee"; user_name := str "Alice" |}.

Definition ask (text : string) : Request :=
  {| message := Some (JString (str text)); history := Some []; user := alice |}.

Definition testConfig : Config := {| TOOL_TTL := 300; RESPONSE_TTL := 120 |}.

Definition LOGGED : json :=
  JObject [(PERIOD, JString (str "week")); (str "entryCount", JNumber (str "3"))].

(** A world given by the replies of the backend, in the order of the
    calls (an outage once they run out) and by what every data query
    returns. *)
Definition world (replies : list BackendReply) (data : json) : Env :=
  {| SYSTEM_PROMPT := str "You are an intelligent AI assistant.";
     config := testConfig;
     backend := fun n _ => nth n replies Unreachable;
     database := fun _ _ => data |}.

Definition says (text : string) : BackendReply :=
  Completion (Some (jq text)) (Some (str "llama")).

(** ** Vocabulary of the properties *)

(** The logs only grow, and by what each operation records. *)
Record Grows (st st' : State) (calls : list (list json))
  (tools : list (jsval * json)) (queries : list DataQuery) : Prop := {
  grows_backend : backendLog st' = backendLog st ++ calls;
  grows_tools : toolLog st' = toolLog st ++ tools;
  grows_queries : queryLog st' = queryLog st ++ queries;
  grows_clock : clock st' = clock st
}.

(** The tool call [(toolName, params)] is the one written in the first
    tool-call directive of [aiResponse]: no directive starts before it. *)
Definition honors (aiResponse : jsstring) (toolName : jsval) (params : json) : Prop :=
  exists i payload toolCall,
    first_directive TOOL_CALL aiResponse = Some (i, payload)
    /\ (forall j, j < i -> directive_at TOOL_CALL (drop j aiResponse) = None)
    /\ JSON_parse payload = Some toolCall
    /\ toolName = own_property toolCall (str "tool")
    /\ params = js_or (own_property toolCall (str "params")) (JObject []).

(** The text of the completion the backend gives to the first call of a
    turn that starts in [st], if it gives one. *)
Definition firstCompletion (env : Env) (req : Request) (st : State) : option jsstring :=
  match backend env (length (backendLog st))
          (chatMessages env (user req) (textOf req) (historyOf req)) with
  | Completion content _ => Some (or_text content [])
  | _ => None
  end.

(** The shape of what the data-query functions return: an object, whose
    [error] field, when it has one, is a non-empty text (each [catch]
    branch returns such an object literal, and no other object they
    build has an [error] field). *)
Definition wellShaped (result : json) : bool :=
  match result with
  | JObject fs =>
      match assoc ERROR fs with
      | None => true
      | Some (JString (_ :: _)) => true
      | Some _ => false
      end
  | _ => false
  end.

(** A live entry for [key], holding [result] until [expiry]. *)
Definition cachedUntil (st : State) (key : CacheKey) (result : json) (expiry : nat)
  : Prop :=
  toolResults st !! key = Some {| value := result; expiresAt := expiry |}.

(** The tool cache has nothing to give for [key] at the time of [st]. *)
Definition toolCacheMiss (st : State) (key : CacheKey) : Prop :=
  fst (store_get (clock st) key (toolResults st)) = None.

(** What [executeTool], the only writer of the tool cache, keeps true of
    it: every entry is a result of a data query, without [error] field. *)
Definition cacheClean (st : State) : Prop :=
  forall k e,
    toolResults st !! k = Some e ->
    wellShaped (value e) = true /\ own_property (value e) ERROR = None.



(** The effects the registry provides. *)
Definition allowedEffect (e : UiEffect) : Prop :=
  match e with
  | Navigate url => url ∈ map snd ACTION_REGISTRY_navigate
  | Click selector => selector ∈ map fst ACTION_REGISTRY_click
  | ScrollTo selector => selector ∈ map snd ACTION_REGISTRY_scroll
  | OpenModal button => button ∈ map snd ACTION_REGISTRY_open_modal
  | NavigateBuiltin _ | CallBuiltin _ => False
  end.

(** The effects that come of a lookup answered by [Object.prototype]:
    none of them is in the registry. *)
Definition inheritedEffect (e : UiEffect) : Prop :=
  match e with
  | NavigateBuiltin name => name ∈ OBJECT_PROTOTYPE
  | Click selector => selector ∈ OBJECT_PROTOTYPE
  | CallBuiltin name =>
      name ∈ [str "constructor"; str "toString"; str "isPrototypeOf"]
  | Navigate _ | ScrollTo _ | OpenModal _ => False
  end.


(** The command [{action: kind, <prop>: target}]. *)
Definition command (kind prop target : string) : json :=
  JObject [(str "action", JString (str kind)); (str prop, JString (str target))].

(** The executor run on that command, on a page that has every element
    asked for. *)
Definition onFullPage (kind prop target : string) : Execution :=
  executeChatbotAction (fun _ => true) (command kind prop target).

(** A navigation whose target is the name of a built-in. *)
Definition constructorPage : json :=
  JObject [(str "action", JString (str "navigate"));
           (str "target", JString (str "constructor"))].

(** A turn in which the model answers with a navigation to a target that
    no registry lists. *)
Definition secretPanel : json :=
  JObject [(str "action", JString (str "navigate"));
           (str "target", JString (str "secret-admin-panel"))].



(** A turn in which the payload after the tool-call marker is not JSON. *)
Definition garbled : jsstring := str "Here you go. TOOL_CALL: {oops} Anything else?".

Definition garbledWorld : Env :=
  world [Completion (Some garbled) (Some (str "llama"))] LOGGED.

(** The scenario of the specification: the model answers the question
    with the directive in the format its prompt prescribes, and would
    summarize the result in a second call. *)
Definition weekDirective : jsstring :=
  jq "TOOL_CALL: {'tool': 'getLoggedHours', 'params': {'period': 'week'}}".

Definition weekWorld : Env :=
  world [Completion (Some weekDirective) (Some (str "llama"));
         says "You logged 3 entries this week."] LOGGED.

Definition weekRequest : Request := ask "How many hours did I log this week?".

(** The same question answered with a directive that has no parameter
    object. *)
Definition flatWorld : Env :=
  world [says "TOOL_CALL: {'tool': 'getLoggedHours'}";
         says "You logged 3 entries this week."] LOGGED.

(** A navigation that the registry lists, asked for twice. *)
Definition dashboard : json :=
  JObject [(str "action", JString (str "navigate"));
           (str "target", JString (str "employee-dashboard"))].

Definition dashboardWorld : Env :=
  world [says "ACTION_COMMAND: {'action': 'navigate', 'target': 'employee-dashboard'} Opening your employee dashboard now!"]
    LOGGED.

Definition dashboardRequest : Request := ask "Open my dashboard".

(** A backend that is down when the summary is asked for, and up again
    afterwards. *)
Definition outageWorld : Env :=
  world [says "TOOL_CALL: {'tool': 'getPendingTasks'}";
         Unreachable;
         says "You have 2 pending tasks."] LOGGED.

Definition tasksRequest : Request := ask "What tasks do I have?".

(** A completion with a flat tool-call directive, whose summary the
    backend refuses. *)
Definition tasksDirective : jsstring := jq "TOOL_CALL: {'tool': 'getPendingTasks'}".





(** The deduplication key of a request that passes validation. *)
Definition requestKey (req : Request) : option CacheKey :=
  match message req with
  | Some (JString (c :: t)) =>
      Some (generateCacheKey (user_id (user req)) (c :: t) (roleContext (user req)))
  | _ => None
  end.

(** Every computation in flight is filed under the key of the request
    that started it. *)
Definition wellFormed (srv : Server) : Prop :=
  forall k owner waiters,
    inFlight srv !! k = Some (owner, waiters) -> requestKey owner = Some k.

(** The callers whose requests, among [events], have the key [key]. *)
Definition callersOf (key : CacheKey) (events : list Event) : list nat :=
  omap (fun ev => match ev with
                  | Arrive c req =>
                      if decide (requestKey req = Some key) then Some c else None
                  | _ => None
                  end) events.

(** How many times the producer was invoked for [key]. *)
Definition producerRuns (key : CacheKey) (srv : Server) : nat :=
  length (filter (fun k => k = key) (producerLog srv)).

(** Three callers send the same question before the backend has
    answered the first. *)
Definition burst : list Event :=
  [Arrive 1 tasksRequest; Arrive 2 tasksRequest; Tick 1; Arrive 3 tasksRequest].

Definition tasksKey : CacheKey :=
  generateCacheKey (str "u1") (str "What tasks do I have?") (roleContext alice).

(** A database that is down: the query for the tasks fails, and the
    model is told so. *)
Definition FAILED_TASKS : json := JObject [(ERROR, JString (str "Failed to get tasks"))].

Definition failingWorld : Env :=
  world [Completion (Some tasksDirective) (Some (str "llama"));
         says "Sorry, I could not load your tasks right now."] FAILED_TASKS.

Definition tasksCall : json := JObject [(str "tool", JString (str "getPendingTasks"))].

(** The closing braces of a text, and the values that are objects: the
    measures of what a parse consumes. *)
Definition cost (b : bool) : nat := if b then 1 else 0.

Fixpoint closing (s : jsstring) : nat :=
  match s with
  | [] => 0
  | c :: r => cost (c =? RBRACE)%N + closing r
  end.

Definition is_object (v : json) : bool :=
  match v with
  | JObject _ => true
  | _ => false
  end.

Definition has_object_value (members : list (jsstring * json)) : bool :=
  existsb (fun kv => is_object (snd kv)) members.

(** The messages of a second call to the backend: the follow-up that
    carries some tool call and its result. *)
Definition isFollowUp (env : Env) (u : User) (text : jsstring) (hist : list json)
  (messages : list json) : Prop :=
  exists toolCall toolResult,
    messages = followUpMessages env u text hist toolCall toolResult.

(** The data query [q] is the one [executeTool] runs, for the user
    [userId] in the role [userRole], for the tool call written in the
    first tool-call directive of [aiResponse]. *)
Definition dispatched (aiResponse userId userRole : jsstring) (q : DataQuery) : Prop :=
  exists toolName params,
    honors aiResponse toolName params
    /\ toolQuery toolName userId userRole params = Some q.

(** The argument a data query takes besides the user: the [period], the
    [projectName] or the [topic]. *)
Definition queryParameter (q : DataQuery) : jsval :=
  match q with
  | getLoggedHours _ period
  | checkMissingHours _ period
  | detectIncompleteEntries _ period
  | detectOverlappingHours _ period
  | checkOvertimeLimits _ period
  | getManagerMissingTimesheets _ _ period
  | getTopLoggers _ _ period => period
  | getProjectTimeSpent _ projectName => projectName
  | getOnboardingHelp topic => topic
  | _ => None
  end.

(** The user whose data a query reads; [getOnboardingHelp] reads none. *)
Definition querySubject (q : DataQuery) : option jsstring :=
  match q with
  | getLoggedHours u _ | getPendingTasks u | getAssignedProjects u
  | checkTodayTimesheet u | getAttendanceStatus u | getLeaveBalance u
  | getPendingApprovals u _ | getProjectTimeSpent u _ | suggestTaskNames u
  | getRepeatedEntries u | checkMissingHours u _ | getUpcomingDeadlines u
  | detectIncompleteEntries u _ | detectOverlappingHours u _
  | checkOvertimeLimits u _ | suggestCorrections u | getTodayTasks u
  | getManagerMissingTimesheets u _ _ | getTopLoggers u _ _ => Some u
  | getOnboardingHelp _ => None
  end.

(** The role the three manager-only queries are gated on. *)
Definition queryRole (q : DataQuery) : option jsstring :=
  match q with
  | getPendingApprovals _ r
  | getManagerMissingTimesheets _ r _
  | getTopLoggers _ r _ => Some r
  | _ => None
  end.

(** A message that passes the validation of the route: a non-empty
    string. *)
Definition nonEmptyText (v : jsval) : Prop :=
  exists c t, v = Some (JString (c :: t)).

(** A backend that refuses the first call. *)
Definition refusingWorld : Env := world [NotOk] LOGGED.

(** A completion that names no tool and no action. *)
Definition plainWorld : Env := world [says "You can submit timesheets from the Timesheets page."] LOGGED.

(** The question of [weekRequest] asked again by the same user, from a
    page that has a conversation behind it. *)
Definition weekRequestLater : Request :=
  {| message := message weekRequest;
     history := Some [chatMessage (str "user") (str "Hello");
                      chatMessage (str "assistant") (str "Hi Alice!")];
     user := {| user_id := str "u1"; user_role := str "employee";
                user_name := str "Alice B." |} |}.

(** The state after a call of [executeTool] that hits the tool cache:
    only the log of the tool calls has grown. *)
Definition afterHit (toolName : jsval) (params : json) (st : State) : State :=
  {| toolResults := toolResults st; responses := responses st; clock := clock st;
     backendLog := backendLog st; toolLog := toolLog st ++ [(toolName, params)];
     queryLog := queryLog st |}.

(** A manager-only tool asked by an employee: the refusal is an
    advisory message, not an error. *)
Definition ONLY_MANAGERS : json :=
  JObject [(str "message", JString (str "Only managers can view pending approvals"))].

Definition gatedWorld : Env :=
  {| SYSTEM_PROMPT := str "You are an intelligent AI assistant.";
     config := testConfig;
     backend := fun _ _ => Unreachable;
     database := fun _ q =>
       match q with
       | getPendingApprovals _ role =>
           if decide (role = str "manager") then LOGGED
           else if decide (role = str "admin") then LOGGED
           else ONLY_MANAGERS
       | _ => LOGGED
       end |}.

(** The names of the [switch] of [executeTool]. *)
Definition TOOL_NAMES : list jsstring :=
  [str "getLoggedHours"; str "getPendingTasks"; str "getAssignedProjects";
   str "checkTodayTimesheet"; str "getAttendanceStatus"; str "getLeaveBalance";
   str "getPendingApprovals"; str "getProjectTimeSpent"; str "suggestTaskNames";
   str "getRepeatedEntries"; str "checkMissingHours"; str "getUpcomingDeadlines";
   str "detectIncompleteEntries"; str "detectOverlappingHours";
   str "checkOvertimeLimits"; str "suggestCorrections"; str "getTodayTasks";
   str "getManagerMissingTimesheets"; str "getTopLoggers"; str "getOnboardingHelp"].

(** The tool a call names is one of the twenty. *)
Definition knownTool (toolName : jsval) : Prop :=
  exists n, toolName = Some (JString n) /\ n ∈ TOOL_NAMES.

(** ** The chat page ([sendMessage])

    The script of the chat widget keeps the conversation, two flags and
    the time of the last send; [sendMessage] is an [async] function, so
    the browser runs it in pieces, one up to each [await].  The pieces
    are modelled one by one; the page records, besides the variables of
    the script, what it put on the screen ([addMessage]), on the network
    ([fetch]) and what it asked the action executor to do. *)

Record ChatEntry : Type := {
  entry_role : jsstring;
  entry_content : jsval
}.

Inductive Sender : Type :=
| FromUser
| FromBot.

(** One call of [fetch('/api/chatbot/chat', ...)]: the time of the send,
    the two fields of the body, and the token of the header. *)
Record Outgoing : Type := {
  sentAt : Z;
  body_message : jsstring;
  body_history : list ChatEntry;
  bearer : option jsstring
}.

Record Page : Type := {
  chatHistory : list ChatEntry;
  isOpen : bool;
  isTyping : bool;
  lastSendTime : Z;
  inputValue : jsstring;
  welcome : bool;
  shown : list (jsstring * Sender);
  sent : list Outgoing;
  performed : list Execution
}.

Definition DEBOUNCE_DELAY : Z := 300.

Definition SESSION_EXPIRED : jsstring :=
  [9888%N; 65039%N]
  ++ str " Your session has expired. Please refresh the page and log in again.".

Definition UNABLE_TO_CONNECT : jsstring :=
  str "Unable to connect to AI service. Please check if the server is running.".

Definition initialPage : Page :=
  {| chatHistory := []; isOpen := false; isTyping := false; lastSendTime := 0%Z;
     inputValue := []; welcome := true; shown := []; sent := []; performed := [] |}.

(** The two items of [localStorage] that [getAuthToken] reads. *)
Record Storage : Type := {
  item_auth_token : option jsstring;
  item_token : option jsstring
}.

(** [localStorage.getItem('auth_token') || localStorage.getItem('token')] *)
Definition getAuthToken (storage : Storage) : option jsstring :=
  match item_auth_token storage with
  | Some (c :: t) => Some (c :: t)
  | _ => item_token storage
  end.

Definition toggleChat (pg : Page) : Page :=
  {| chatHistory := chatHistory pg; isOpen := negb (isOpen pg); isTyping := isTyping pg;
     lastSendTime := lastSendTime pg; inputValue := inputValue pg; welcome := welcome pg;
     shown := shown pg; sent := sent pg; performed := performed pg |}.

Definition setInput (text : jsstring) (pg : Page) : Page :=
  {| chatHistory := chatHistory pg; isOpen := isOpen pg; isTyping := isTyping pg;
     lastSendTime := lastSendTime pg; inputValue := text; welcome := welcome pg;
     shown := shown pg; sent := sent pg; performed := performed pg |}.

Definition addMessage (text : jsstring) (type : Sender) (pg : Page) : Page :=
  {| chatHistory := chatHistory pg; isOpen := isOpen pg; isTyping := isTyping pg;
     lastSendTime := lastSendTime pg; inputValue := inputValue pg; welcome := welcome pg;
     shown := shown pg ++ [(text, type)]; sent := sent pg; performed := performed pg |}.

Definition hideTyping (pg : Page) : Page :=
  {| chatHistory := chatHistory pg; isOpen := isOpen pg; isTyping := false;
     lastSendTime := lastSendTime pg; inputValue := inputValue pg; welcome := welcome pg;
     shown := shown pg; sent := sent pg; performed := performed pg |}.

(** [sendMessage] up to its first [await]: the guards, the debounce,
    the message of the user on the screen, the typing flag, and the call
    of [fetch]. *)
Definition sendMessage (now : Z) (storage : Storage) (pg : Page) : Page :=
  let message := trim (inputValue pg) in
  if (length message =? 0) || isTyping pg then pg
  else if (now - lastSendTime pg <? DEBOUNCE_DELAY)%Z then pg
  else
    {| chatHistory := chatHistory pg; isOpen := isOpen pg; isTyping := true;
       lastSendTime := now; inputValue := []; welcome := false;
       shown := shown pg ++ [(message, FromUser)];
       sent := sent pg
               ++ [{| sentAt := now; body_message := message;
                      body_history := last_n 10 (chatHistory pg);
                      bearer := getAuthToken storage |}];
       performed := performed pg |}.

(** The [catch] of [sendMessage]. *)
Definition connectionFailed (pg : Page) : Page :=
  addMessage UNABLE_TO_CONNECT FromBot (hideTyping pg).

(** [sendMessage] from the moment its [fetch] resolves to its second
    [await]: the typing flag is cleared and the session is checked.  The
    body is read next unless the session has expired. *)
Definition responseArrived (token : option jsstring) (status : N) (pg : Page)
  : Page * bool :=
  match token with
  | Some (_ :: _) =>
      if (status =? 401)%N || (status =? 403)%N
      then (addMessage SESSION_EXPIRED FromBot (hideTyping pg), false)
      else (hideTyping pg, true)
  | _ => (addMessage SESSION_EXPIRED FromBot (hideTyping pg), false)
  end.

(** [response.ok] *)
Definition is_ok (status : N) : bool := ((200 <=? status) && (status <=? 299))%N.

(** [x + s] for a string [s]: the text of [x]. *)
Definition to_text_val (v : jsval) : jsstring :=
  match v with
  | Some j => to_text j
  | None => str "undefined"
  end.

Definition userEntry (message : jsstring) : ChatEntry :=
  {| entry_role := str "user"; entry_content := Some (JString message) |}.

Definition assistantEntry (content : jsval) : ChatEntry :=
  {| entry_role := str "assistant"; entry_content := content |}.

(** [sendMessage] after its second [await], with the body [data] of the
    response read as JSON: on an [ok] response the action is executed
    when there is one, the answer is shown and the exchange joins the
    history; otherwise the error is shown.  Reading a property of [null]
    throws, which leads to the [catch]. *)
Definition bodyArrived (dom : jsstring -> bool) (message : jsstring) (status : N)
  (data : json) (pg : Page) : Page :=
  match data with
  | JNull => connectionFailed pg
  | _ =>
      if is_ok status then
        let performed' :=
          match own_property data (str "action") with
          | Some a =>
              if truthy a then performed pg ++ [executeChatbotAction dom a]
              else performed pg
          | None => performed pg
          end in
        let cacheIndicator :=
          if truthy_val (own_property data (str "cached")) then [32%N; 9889%N] else [] in
        {| chatHistory :=
             chatHistory pg
             ++ [userEntry message; assistantEntry (own_property data (str "response"))];
           isOpen := isOpen pg; isTyping := isTyping pg;
           lastSendTime := lastSendTime pg; inputValue := inputValue pg;
           welcome := welcome pg;
           shown := shown pg
                    ++ [(to_text_val (own_property data (str "response")) ++ cacheIndicator,
                         FromBot)];
           sent := sent pg; performed := performed' |}
      else
        addMessage
          (str "Sorry, I encountered an error. "
           ++ to_text (js_or (own_property data (str "error"))
                         (JString (str "Please try again."))))
          FromBot pg
  end.

(** What happens to the page: what the user does, and the pieces of the
    calls of [sendMessage] in flight.  A run of the page is any sequence
    of these: the order in which the browser runs the pieces of
    different calls is not fixed, and the properties below hold for
    every sequence, also those in which a piece comes without the piece
    it follows in the script.  [message] and [token] are the variables
    of the call that a later piece of it still sees. *)
Inductive PageEvent : Type :=
| ToggleChat
| TypeInput (text : jsstring)
| SendMessage (now : Z) (storage : Storage)
| ResponseArrived (token : option jsstring) (status : N)
| BodyArrived (dom : jsstring -> bool) (message : jsstring) (status : N) (data : json)
| ConnectionFailed.

Definition stepPage (pg : Page) (ev : PageEvent) : Page :=
  match ev with
  | ToggleChat => toggleChat pg
  | TypeInput text => setInput text pg
  | SendMessage now storage => sendMessage now storage pg
  | ResponseArrived token status => fst (responseArrived token status pg)
  | BodyArrived dom message status data => bodyArrived dom message status data pg
  | ConnectionFailed => connectionFailed pg
  end.

Definition runPage (events : list PageEvent) : Page :=
  fold_left stepPage events initialPage.

(** An entry of the history as the route receives it: [JSON.stringify]
    leaves out a property that is undefined. *)
Definition entryJson (e : ChatEntry) : json :=
  match entry_content e with
  | Some c => JObject [(ROLE, JString (entry_role e)); (str "content", c)]
  | None => JObject [(ROLE, JString (entry_role e))]
  end.

(** The request the route receives from a call of [fetch], once the
    token has been resolved to the user [u]. *)
Definition requestOf (u : User) (o : Outgoing) : Request :=
  {| message := Some (JString (body_message o));
     history := Some (map entryJson (body_history o));
     user := u |}.

(** The sends are at least [DEBOUNCE_DELAY] apart, the first one from
    the time [since]. *)
Fixpoint spaced (since : Z) (l : list Outgoing) : bool :=
  match l with
  | [] => true
  | o :: r => (since + DEBOUNCE_DELAY <=? sentAt o)%Z && spaced (sentAt o) r
  end.

(** The exchange an event adds to the history: the message of the user
    and the answer, for a body read from an [ok] response. *)
Definition exchange (ev : PageEvent) : list ChatEntry :=
  match ev with
  | BodyArrived _ message status data =>
      match data with
      | JNull => []
      | _ => if is_ok status
             then [userEntry message; assistantEntry (own_property data (str "response"))]
             else []
      end
  | _ => []
  end.

(** The role of the i-th entry of a conversation that the user opens. *)
Definition roleAt (i : nat) : jsstring :=
  if Nat.even i then str "user" else str "assistant".

(** The time of the last send of [l], or [since] when there is none. *)
Definition lastSent (since : Z) (l : list Outgoing) : Z :=
  match last l with
  | Some o => sentAt o
  | None => since
  end.

(** A conversation made of whole exchanges. *)
Definition exchanges (ps : list (jsstring * jsval)) : list ChatEntry :=
  flat_map (fun p => [userEntry (fst p); assistantEntry (snd p)]) ps.

(** A page in the middle of a conversation: two exchanges are behind
    it, and the user asks a third question. *)
Definition busyDay : list PageEvent :=
  [TypeInput (str "  What tasks do I have?  ");
   SendMessage 1000 {| item_auth_token := Some (str "t0k3n"); item_token := None |};
   SendMessage 1100 {| item_auth_token := Some (str "t0k3n"); item_token := None |};
   ResponseArrived (Some (str "t0k3n")) 200;
   BodyArrived (fun _ => true) (str "What tasks do I have?") 200
     (JObject [(str "response", JString (str "You have 2 pending tasks."));
               (str "model", JString (str "llama"));
               (str "cached", JBool false);
               (str "action", JNull)]);
   TypeInput (str "Open my dashboard");
   SendMessage 1200 {| item_auth_token := None; item_token := Some (str "t0k3n") |};
   SendMessage 1350 {| item_auth_token := None; item_token := Some (str "t0k3n") |};
   ResponseArrived (Some (str "t0k3n")) 500;
   BodyArrived (fun _ => true) (str "Open my dashboard") 500
     (JObject [(str "error", JString (str "Failed to process your request"))])].

(** *** What [addMessage] makes of a text

    [addMessage] turns a text into HTML with five replacements, one
    after the other, and assigns the result to [innerHTML]. *)

(** [s.replace(/.../g, ...)] for a pattern whose matches are not empty:
    [matcher] gives, for a match at the head of a text, what replaces it
    and the text after it.  The matches are found left to right, each
    search resuming where the previous match ended; [fuel] bounds the
    number of steps, and the length of the text is enough. *)
Fixpoint replace_all (fuel : nat) (matcher : jsstring -> option (jsstring * jsstring))
  (s : jsstring) : jsstring :=
  match fuel with
  | O => s
  | S f =>
      match s with
      | [] => []
      | c :: r =>
          match matcher s with
          | Some (replacement, rest) => replacement ++ replace_all f matcher rest
          | None => c :: replace_all f matcher r
          end
      end
  end.

Definition replace_each (matcher : jsstring -> option (jsstring * jsstring))
  (s : jsstring) : jsstring :=
  replace_all (length s) matcher s.

(** The longest run of code units other than [c], and what follows. *)
Fixpoint span_not (c : N) (s : jsstring) : jsstring * jsstring :=
  match s with
  | [] => ([], [])
  | x :: r =>
      if (x =? c)%N then ([], s)
      else let '(a, b) := span_not c r in (x :: a, b)
  end.

(** A match of [/D([^c]+)D/] at the head of [s], for a delimiter [D]
    made of the code unit [c]: the group and the text after the match. *)
Definition delimited_at (delimiter : jsstring) (c : N) (s : jsstring)
  : option (jsstring * jsstring) :=
  match strip_prefix delimiter s with
  | Some r1 =>
      match span_not c r1 with
      | (b :: body, r2) =>
          match strip_prefix delimiter r2 with
          | Some r3 => Some (b :: body, r3)
          | None => None
          end
      | ([], _) => None
      end
  | None => None
  end.

(** The class [\w]. *)
Definition is_word (c : N) : bool :=
  ((48 <=? c) && (c <=? 57) || (65 <=? c) && (c <=? 90)
   || (97 <=? c) && (c <=? 122) || (c =? 95))%N.

Fixpoint skip_word (s : jsstring) : jsstring :=
  match s with
  | c :: r => if is_word c then skip_word r else s
  | [] => []
  end.

Definition FENCE : jsstring := [96%N; 96%N; 96%N].

(** The lazy [([\s\S]*?)] followed by the closing fence: the text up to
    the first fence, and the text after that fence. *)
Fixpoint until_fence (s : jsstring) : option (jsstring * jsstring) :=
  match strip_prefix FENCE s with
  | Some rest => Some ([], rest)
  | None =>
      match s with
      | [] => None
      | c :: r =>
          match until_fence r with
          | Some (code, rest) => Some (c :: code, rest)
          | None => None
          end
      end
  end.

(** A match of the pattern of a code block, a fence, an optional word,
    a line feed, the code and a fence, at the head of [s]: the second
    group and the text after the match. *)
Definition fenced_at (s : jsstring) : option (jsstring * jsstring) :=
  match strip_prefix FENCE s with
  | Some r1 =>
      match skip_word r1 with
      | c :: r2 => if (c =? 10)%N then until_fence r2 else None
      | [] => None
      end
  | None => None
  end.

Definition wrap (opening closing : jsstring) (m : option (jsstring * jsstring))
  : option (jsstring * jsstring) :=
  match m with
  | Some (group, rest) => Some (opening ++ group ++ closing, rest)
  | None => None
  end.

Definition line_feed_at (s : jsstring) : option (jsstring * jsstring) :=
  match s with
  | c :: r => if (c =? 10)%N then Some (str "<br>", r) else None
  | [] => None
  end.

(** [formattedText] of [addMessage]: code blocks, inline code, bold,
    italics, line breaks. *)
Definition formattedText (text : jsstring) : jsstring :=
  replace_each line_feed_at
    (replace_each (fun s => wrap (str "<em>") (str "</em>") (delimited_at [42%N] 42 s))
       (replace_each
          (fun s => wrap (str "<strong>") (str "</strong>")
                      (delimited_at [42%N; 42%N] 42 s))
          (replace_each (fun s => wrap (str "<code>") (str "</code>")
                                    (delimited_at [96%N] 96 s))
             (replace_each (fun s => wrap (str "<pre><code>") (str "</code></pre>")
                                       (fenced_at s))
                text)))).

(** How often a code unit occurs in a text. *)
Definition units (c : N) (s : jsstring) : nat :=
  length (filter (fun x => x = c) s).

(** An answer with markup of its own. *)
Definition markedUp : jsstring :=
  str "Done! <img src=x onerror=alert(1)> See **Tasks** and `npm test`.".

(** ** The data tools that only compute

    Four of the tools of [chatbot.js] do their work in JavaScript once
    the rows are read: [suggestTaskNames] and [getRepeatedEntries] count
    what recurs in the timesheets of the user, [getOnboardingHelp] looks
    a topic up in a table of guides, and [suggestCorrections] puts
    together what four detectors return.  They are modelled from
    the rows and the results they start from.  A number is modelled by
    its text, as in a JSON value; a count is a natural number. *)

Module Tools.

(** [obj[key]] read and written on an object literal used as a table:
    the value under [key] is replaced by [bump] of it, or is [init] when
    the key is new.  A key that no row has written yet and that names a
    property of [Object.prototype] reads as that property: what the
    tools compute from it is left out of the model ([None]). *)
Fixpoint tally {R V : Type} (key : R -> jsstring) (init : R -> V) (bump : V -> V)
  (rows : list R) (table : list (jsstring * V)) : option (list (jsstring * V)) :=
  match rows with
  | [] => Some table
  | r :: rest =>
      match assoc (key r) table with
      | Some v => tally key init bump rest (set_prop table (key r, bump v))
      | None =>
          if bool_decide (key r ∈ OBJECT_PROTOTYPE) then None
          else tally key init bump rest (set_prop table (key r, init r))
      end
  end.

(** [Array.prototype.sort] with the comparator [(a, b) => b.n - a.n]:
    the stable sort by decreasing weight.  Each element is put, from
    the last to the first, before the elements that do not outweigh
    it: of two elements of one weight the one that comes first in the
    array stays first. *)
Fixpoint insert_desc {A : Type} (weight : A -> nat) (x : A) (l : list A) : list A :=
  match l with
  | [] => [x]
  | y :: r => if weight y <=? weight x then x :: l else y :: insert_desc weight x r
  end.

Definition sort_desc {A : Type} (weight : A -> nat) (l : list A) : list A :=
  foldr (insert_desc weight) [] l.

(** A list in the order that sort gives: no element outweighs one
    before it. *)
Fixpoint descending {A : Type} (weight : A -> nat) (l : list A) : Prop :=
  match l with
  | [] => True
  | x :: r => Forall (fun y => weight y <= weight x) r /\ descending weight r
  end.

(** An object literal: a property whose value is undefined is left out
    when the object is printed. *)
Definition object (fields : list (jsstring * jsval)) : json :=
  JObject (omap (fun kv => match snd kv with
                           | Some v => Some (fst kv, v)
                           | None => None
                           end) fields).

Definition number (n : nat) : json := JNumber (decimal (N.of_nat n)).

(** *** [suggestTaskNames] *)

(** [const desc = ts.description?.trim(); if (desc && desc.length > 3)] *)
Definition usable (description : option jsstring) : option jsstring :=
  match description with
  | Some d => if 3 <? length (trim d) then Some (trim d) else None
  | None => None
  end.

(** A row of [Task.find(...).populate('project', 'name')]: the title and
    the name of the project, when the task has one. *)
Record TaskRow : Type := {
  title : jsval;
  project_name : jsval
}.

Definition NO_PATTERNS : jsstring :=
  str "No historical task patterns found yet. Keep logging timesheets!".

(** The ten descriptions used most, most used first. *)
Definition topTasks (descriptions : list (option jsstring))
  : option (list (jsstring * nat)) :=
  match tally (fun d : jsstring => d) (fun _ => 1) S (omap usable descriptions) [] with
  | Some taskFrequency => Some (take 10 (sort_desc snd taskFrequency))
  | None => None
  end.

(** The body of [suggestTaskNames] from the descriptions of the
    timesheets it reads and the tasks it reads. *)
Definition suggestTaskNames (descriptions : list (option jsstring))
  (recentTasks : list TaskRow) : option json :=
  match topTasks descriptions with
  | Some top =>
      Some
        (JObject
           [(str "frequentTasks",
             JArray (map (fun p => JObject [(str "task", JString (fst p));
                                            (str "timesUsed", number (snd p))]) top));
            (str "recentAssignedTasks",
             JArray (map (fun t =>
                            object [(str "task", title t);
                                    (str "project",
                                     Some (js_or (project_name t)
                                             (JString (str "Unknown"))))])
                       recentTasks));
            (str "message",
             JString
               (if 0 <? length top
                then str "Found " ++ decimal (N.of_nat (length top))
                     ++ str " frequently used task descriptions in your history"
                else NO_PATTERNS))])
  | None => None
  end.

(** *** [getRepeatedEntries] *)

(** A row of [Timesheet.find(...).populate('project', 'name')
    .populate('task', 'title')]: the populated project and task, each
    with the text of its [_id], and the fields the tool copies. *)
Record Populated : Type := {
  _id : jsstring;
  label : jsval
}.

Record TimesheetRow : Type := {
  project : option Populated;
  task : option Populated;
  totalHours : option jsstring;
  startTime : jsval;
  endTime : jsval
}.

Record Pattern : Type := {
  pattern_project : jsval;
  pattern_task : jsval;
  pattern_hours : jsstring;
  pattern_startTime : jsval;
  pattern_endTime : jsval;
  count : nat
}.

(** The rows that [if (ts.project && ts.task && ts.totalHours)] lets
    through, with what the tool reads of them. *)
Definition eligible (ts : TimesheetRow) : option (Populated * Populated * jsstring * TimesheetRow) :=
  match project ts, task ts, totalHours ts with
  | Some p, Some t, Some h =>
      if truthy (JNumber h) then Some (p, t, h, ts) else None
  | _, _, _ => None
  end.

(** [`${ts.project._id}_${ts.task._id}_${ts.totalHours}`] *)
Definition patternKey (e : Populated * Populated * jsstring * TimesheetRow) : jsstring :=
  let '(p, t, h, _) := e in _id p ++ str "_" ++ _id t ++ str "_" ++ h.

Definition firstSeen (e : Populated * Populated * jsstring * TimesheetRow) : Pattern :=
  let '(p, t, h, ts) := e in
  {| pattern_project := label p; pattern_task := label t; pattern_hours := h;
     pattern_startTime := startTime ts; pattern_endTime := endTime ts; count := 1 |}.

Definition seenAgain (p : Pattern) : Pattern :=
  {| pattern_project := pattern_project p; pattern_task := pattern_task p;
     pattern_hours := pattern_hours p; pattern_startTime := pattern_startTime p;
     pattern_endTime := pattern_endTime p; count := S (count p) |}.

(** The five patterns that repeat most, among those seen three times or
    more, with the key of each. *)
Definition repeatedPatterns (timesheets : list TimesheetRow)
  : option (list (jsstring * Pattern)) :=
  match tally patternKey firstSeen seenAgain (omap eligible timesheets) [] with
  | Some patterns =>
      Some (take 5 (sort_desc (fun kp => count (snd kp))
                      (filter (fun kp => 3 <= count (snd kp)) patterns)))
  | None => None
  end.

Definition patternJson (p : Pattern) : json :=
  object [(str "project", pattern_project p);
          (str "task", pattern_task p);
          (str "hours", Some (JNumber (pattern_hours p)));
          (str "startTime", pattern_startTime p);
          (str "endTime", pattern_endTime p);
          (str "count", Some (number (count p)))].

Definition NO_REPEATS : jsstring := str "No repeated patterns found yet".

Definition getRepeatedEntries (timesheets : list TimesheetRow) : option json :=
  match repeatedPatterns timesheets with
  | Some top =>
      Some
        (JObject
           [(str "patterns", JArray (map (fun kp => patternJson (snd kp)) top));
            (str "message",
             JString
               (if 0 <? length top
                then str "Found " ++ decimal (N.of_nat (length top))
                     ++ str " repeated entry patterns you can reuse"
                else NO_REPEATS))])
  | None => None
  end.

(** *** [getOnboardingHelp] *)

(** The first four code units of each tip, as the source file has them. *)
Definition BULB : jsstring := [63743%N; 252%N; 237%N; 176%N].

Definition guide (title : jsstring) (steps tips : list jsstring) : json :=
  JObject [(str "title", JString title);
           (str "steps", JArray (map JString steps));
           (str "tips", JArray (map JString tips))].

Definition guides : list (jsstring * json) :=
  [(str "submit_timesheet",
    guide (str "How to Submit a Timesheet")
       [str "1. Go to the Timesheets page from the navigation menu";
        jq "2. Click the 'Add New Timesheet' button";
        str "3. Select the date for your timesheet";
        str "4. Choose the project you worked on from the dropdown";
        str "5. Select the specific task (if applicable)";
        str "6. Enter start time and end time (e.g., 09:00 AM - 06:00 PM)";
        str "7. Add break time in minutes (default is 60 minutes)";
        str "8. Write a detailed description of work done";
        jq "9. Click 'Submit' to send for approval";
        str "10. Your manager will review and approve/reject it"]
       [BULB ++ str " Submit timesheets daily for better accuracy";
        BULB ++ str " Be specific in descriptions to help your manager understand your work";
        BULB ++ str " Check for errors before submitting using the chatbot"]);
   (str "apply_leave",
    guide (str "How to Apply for Leave")
       [str "1. Navigate to the Leave Management section";
        jq "2. Click 'Apply for Leave' button";
        str "3. Select leave type: CL (Casual), SL (Sick), EL (Earned), or WFH";
        str "4. Choose start date and end date";
        str "5. Enter reason for leave";
        jq "6. Click 'Submit Application'";
        str "7. Wait for manager approval";
        str "8. You'll receive a notification when approved/rejected"]
       [BULB ++ str " Check your leave balance before applying";
        BULB ++ str " Apply for leave at least 2 days in advance";
        BULB ++ str " CL: 12 days/year, SL: 12 days/year, EL: 15 days/year, WFH: 52 days/year"]);
   (str "check_in",
    guide (str "How to Check In/Out")
       [str "1. Go to the Attendance section";
        jq "2. Click 'Check In' button when you start work";
        str "3. System records your check-in time automatically";
        jq "4. Click 'Check Out' when leaving for the day";
        str "5. Total hours worked will be calculated automatically"]
       [BULB ++ str " Standard work hours: 9 AM - 6 PM";
        BULB ++ str " Remember to check in daily";
        BULB ++ str " Check in/out times affect your attendance record"]);
   (str "complete_task",
    guide (str "How to Complete a Task")
       [str "1. Go to Tasks section";
        str "2. Find your assigned task";
        str "3. Click on the task to view details";
        str "4. Update progress percentage as you work";
        jq "5. When done, click 'Mark as Complete'";
        str "6. Submit proof of work (GitHub link, demo video)";
        str "7. Add completion notes explaining your work";
        str "8. Manager will review and approve"]
       [BULB ++ str " Update task progress regularly";
        BULB ++ str " Provide clear proof of completion";
        BULB ++ str " Tasks may require rework if defects are found"]);
   (str "view_reports",
    guide (str "How to View Reports")
       [str "1. Navigate to Reports section";
        str "2. Select report type (Timesheet, Attendance, Leave)";
        str "3. Choose date range (week, month, custom)";
        jq "4. Click 'Generate Report'";
        str "5. View charts and statistics";
        str "6. Download as PDF or Excel if needed"]
       [BULB ++ str " Use reports to track your productivity";
        BULB ++ str " Managers can see team-wide reports";
        BULB ++ str " Export reports for record keeping"])].

(** [s.replace(/\s+/g, '_')]: [in_run] tells that the code unit before
    was white space, whose run has its underscore already. *)
Fixpoint underscore_spaces (in_run : bool) (s : jsstring) : jsstring :=
  match s with
  | [] => []
  | c :: r =>
      if is_space c
      then if in_run then underscore_spaces true r else 95%N :: underscore_spaces true r
      else c :: underscore_spaces false r
  end.

(** [k.replace(/_/g, ' ')] *)
Definition spaced_name (k : jsstring) : jsstring :=
  map (fun c => if (c =? 95)%N then 32%N else c) k.

(** What the tool returns when it has no guide for the topic. *)
Definition AVAILABLE_TOPICS : json :=
  JObject
    [(str "availableTopics", JArray (map (fun kv => JString (spaced_name (fst kv))) guides));
     (str "message",
      JString (str "Available help topics: submit timesheet, apply leave, check in, complete task, view reports"))].

Section OnboardingHelp.

(** [String.prototype.toLowerCase], which follows the case mapping of
    Unicode, is left as it is: a function from texts to texts. *)
Variable toLowerCase : jsstring -> jsstring.

(** [topic?.toLowerCase().replace(/\s+/g, '_') || 'general'], for a
    topic that is absent, [null] or a string. *)
Definition topicKey (topic : jsval) : jsstring :=
  match topic with
  | Some (JString t) =>
      match underscore_spaces false (toLowerCase t) with
      | [] => str "general"
      | c :: k => c :: k
      end
  | _ => str "general"
  end.

(** What [JSON.stringify] makes of the property of [Object.prototype]
    found under a name: a function has no JSON text, and a property
    that holds one is left out of the object printed, as one that is
    undefined is; [__proto__] gives [Object.prototype] itself, which has
    no enumerable property of its own and prints as [{}]. *)
Definition builtinJson (name : jsstring) : jsval :=
  if decide (name = str "__proto__") then Some (JObject []) else None.

(** [getOnboardingHelp]: it throws for a topic that is neither absent,
    [null] nor a string, which has no [toLowerCase] to call.  A topic
    whose key names a property of [Object.prototype] finds that
    property for its guide, which is truthy: the object returned is the
    one of a guide found.  All that is done with the result is to test
    its [error] field, to keep it in the cache and to print it. *)
Definition getOnboardingHelp (topic : jsval) : Outcome json :=
  match topic with
  | Some (JBool _ | JNumber _ | JArray _ | JObject _) => Throws TypeError
  | _ =>
      let message :=
        JString (str "Here's how to "
                 ++ to_text (js_or topic (JString (str "get started")))
                 ++ str ":") in
      match lookupRegistry guides (topicKey topic) with
      | Own found =>
          Returns
            (JObject
               [(str "guide", found);
                (str "topic", JString (topicKey topic));
                (str "message", message)])
      | Inherited =>
          Returns
            (object
               [(str "guide", builtinJson (topicKey topic));
                (str "topic", Some (JString (topicKey topic)));
                (str "message", Some message)])
      | Absent => Returns AVAILABLE_TOPICS
      end
  end.

End OnboardingHelp.

(** *** [suggestCorrections] *)

(** What a detector hands to [suggestCorrections]: the object of its
    [catch] branch, which has an [error] and nothing else, or the fields
    that [suggestCorrections] reads of its result. *)
Inductive Detection (A : Type) : Type :=
| Failed
| Detected (a : A).

Arguments Failed {A}.
Arguments Detected {A} a.

(** [exceedsLimit] and [totalOvertime] of [checkOvertimeLimits]. *)
Record Overtime : Type := {
  exceedsLimit : bool;
  totalOvertime : jsstring
}.

Definition NO_ISSUES : jsstring :=
  [8218%N; 250%N; 214%N] ++ str " No issues found! Your timesheets look great.".

Definition suggestion (issue field : jsstring) (v : json) (advice : jsstring) : json :=
  JObject [(str "issue", JString issue); (field, v); (str "suggestion", JString advice)].

Definition suggestions (incomplete overlaps : Detection N) (overtime : Detection Overtime)
  (missing : Detection N) : list json :=
  match incomplete with
  | Detected n =>
      if (0 <? n)%N
      then [suggestion (str "Incomplete Entries") (str "count") (JNumber (decimal n))
              (str "Add missing project, task, or description to these timesheets")]
      else []
  | Failed => []
  end
  ++ match overlaps with
     | Detected n =>
         if (0 <? n)%N
         then [suggestion (str "Overlapping Hours") (str "count") (JNumber (decimal n))
                 (str "Adjust start/end times to remove overlaps between tasks")]
         else []
     | Failed => []
     end
  ++ match overtime with
     | Detected o =>
         if exceedsLimit o
         then [suggestion (str "Excessive Overtime") (str "hours")
                 (JString (totalOvertime o))
                 (str "Contact your manager to discuss overtime approval or redistribute hours")]
         else []
     | Failed => []
     end
  ++ match missing with
     | Detected n =>
         if (0 <? n)%N
         then [suggestion (str "Missing Days") (str "count") (JNumber (decimal n))
                 (str "Submit timesheets for " ++ decimal n
                  ++ str " missing working days")]
         else []
     | Failed => []
     end.

(** The body of [suggestCorrections] from what the four detectors
    return: [detectIncompleteEntries] and [detectOverlappingHours] (their
    [count]), [checkOvertimeLimits], and [checkMissingHours] (its
    [totalMissingDays]). *)
Definition suggestCorrections (incomplete overlaps : Detection N)
  (overtime : Detection Overtime) (missing : Detection N) : json :=
  let found := suggestions incomplete overlaps overtime missing in
  JObject
    [(str "suggestions", JArray found);
     (str "issueCount", number (length found));
     (str "message",
      JString
        (if 0 <? length found
         then str "Found " ++ decimal (N.of_nat (length found))
              ++ str " issues that need your attention"
         else NO_ISSUES))].

(** Whether a detector reports something to correct. *)
Definition reports {A : Type} (positive : A -> bool) (d : Detection A) : bool :=
  match d with
  | Detected a => positive a
  | Failed => false
  end.

(** How often a key occurs. *)
Definition occurrences (k : jsstring) (keys : list jsstring) : nat :=
  length (filter (fun x => x = k) keys).

End Tools.

(** How many of the four detectors report something to correct. *)
Definition issuesReported (incomplete overlaps : Tools.Detection N)
  (overtime : Tools.Detection Tools.Overtime) (missing : Tools.Detection N) : nat :=
  Nat.b2n (Tools.reports (N.ltb 0) incomplete)
  + Nat.b2n (Tools.reports (N.ltb 0) overlaps)
  + Nat.b2n (Tools.reports Tools.exceedsLimit overtime)
  + Nat.b2n (Tools.reports (N.ltb 0) missing).

(** The descriptions of a week of timesheets. *)
Definition loggedDescriptions : list (option jsstring) :=
  [Some (str "Fix login bug"); Some (str "Standup"); Some (str "  Fix login bug ");
   None; Some (str "QA"); Some (str "Standup"); Some (str "Fix login bug");
   Some (str "Code review")].

(** Eleven descriptions, each used once, and one of them once more. *)
Definition elevenTasks : list (option jsstring) :=
  map (fun n : string => Some (str "Task " ++ str n))
    ["01"; "02"; "03"; "04"; "05"; "06"; "07"; "08"; "09"; "10"; "11"]%string.

(** Timesheets of two weeks: the same three hours on the same task day
    after day, and two that stand alone. *)
Definition apollo : Tools.Populated :=
  {| Tools._id := str "64b000000000000000000001";
     Tools.label := Some (JString (str "Apollo")) |}.

Definition loginTask : Tools.Populated :=
  {| Tools._id := str "64c000000000000000000007";
     Tools.label := Some (JString (str "Login page")) |}.

Definition entry (hours : string) (start : string) : Tools.TimesheetRow :=
  {| Tools.project := Some apollo; Tools.task := Some loginTask;
     Tools.totalHours := Some (str hours);
     Tools.startTime := Some (JString (str start));
     Tools.endTime := None |}.

Definition loggedTimesheets : list Tools.TimesheetRow :=
  [entry "3" "09:00"; entry "8" "09:00"; entry "3" "10:00"; entry "3" "09:30";
   entry "0" "09:00"; entry "2.5" "14:00"; entry "3" "11:00"].

(** * Properties *)

(** ** Text and directives *)

Lemma strip_prefix_app (p s r : jsstring) :
  strip_prefix p s = Some r -> s = p ++ r.
Proof.
  revert s; induction p as [|a p IH]; intros [|b s]; simpl; try congruence.
  destruct (N.eqb_spec a b); [|discriminate].
  intros H; apply IH in H; subst; reflexivity.
Qed.

Lemma includes_first_directive (marker s : jsstring) x :
  first_directive marker s = Some x -> includes marker s = true.
Proof.
  revert x; induction s as [|c s IH]; intros x; simpl.
  - unfold directive_at. destruct (strip_prefix marker []); [reflexivity|].
    discriminate.
  - unfold directive_at. destruct (strip_prefix marker (c :: s)); [reflexivity|].
    destruct (first_directive marker s) as [[i p]|]; [|discriminate].
    intros _. eapply IH; reflexivity.
Qed.

(** The match that [String.prototype.match] returns is the leftmost one:
    no directive starts before it. *)
Lemma first_directive_leftmost (marker s : jsstring) (i : nat) (p : jsstring) :
  first_directive marker s = Some (i, p) ->
  (exists rest, directive_at marker (drop i s) = Some (p, rest))
  /\ forall j, (j < i)%nat -> directive_at marker (drop j s) = None.
Proof.
  revert i p; induction s as [|c s IH]; intros i p; simpl.
  - destruct (directive_at marker []) as [[q r]|] eqn:E; [|discriminate].
    intros [= <- <-]. split; [eauto | intros j Hj; lia].
  - destruct (directive_at marker (c :: s)) as [[q r]|] eqn:E.
    + intros [= <- <-]. split; [eauto | intros j Hj; lia].
    + destruct (first_directive marker s) as [[k q]|] eqn:F; [|discriminate].
      intros [= <- <-]. destruct (IH _ _ eq_refl) as [Hat Hbefore].
      split; [exact Hat|]. intros [|j] Hj; simpl; [exact E|].
      apply Hbefore; lia.
Qed.

Lemma span_not_rbrace_spec (s a b : jsstring) :
  span_not_rbrace s = (a, b) ->
  s = a ++ b /\ RBRACE ∉ a.
Proof.
  revert a b; induction s as [|c s IH]; intros a b; simpl.
  - intros [= <- <-]. split; [reflexivity | apply not_elem_of_nil].
  - destruct (N.eqb_spec c RBRACE) as [->|Hc].
    + intros [= <- <-]. split; [reflexivity | apply not_elem_of_nil].
    + destruct (span_not_rbrace s) as [a' b'] eqn:E. intros [= <- <-].
      destruct (IH _ _ eq_refl) as [-> Hn]. split; [reflexivity|].
      rewrite elem_of_cons. intros [?|?]; [congruence | contradiction].
Qed.

(** The captured group of a directive is one pair of braces around a
    text that has no closing brace in it. *)
Lemma directive_at_payload (marker s p rest : jsstring) :
  directive_at marker s = Some (p, rest) ->
  exists body, p = LBRACE :: body ++ [RBRACE] /\ body <> [] /\ RBRACE ∉ body.
Proof.
  unfold directive_at.
  destruct (strip_prefix marker s) as [r1|]; [|discriminate].
  destruct (skip_space r1) as [|c r2]; [discriminate|].
  destruct (N.eqb_spec c LBRACE); [|discriminate].
  destruct (span_not_rbrace r2) as [[|b body] [|d r3]] eqn:E; try discriminate.
  destruct (N.eqb_spec d RBRACE); [|discriminate].
  intros [= <- <-]. exists (b :: body). split; [reflexivity|].
  split; [discriminate|]. apply span_not_rbrace_spec in E. tauto.
Qed.

Lemma first_directive_payload (marker s : jsstring) i p :
  first_directive marker s = Some (i, p) ->
  exists body, p = LBRACE :: body ++ [RBRACE] /\ body <> [] /\ RBRACE ∉ body.
Proof.
  intros H. apply first_directive_leftmost in H as [[rest H] _].
  eapply directive_at_payload; eassumption.
Qed.

(** ** JSON *)

(** A text that starts with an opening brace parses to an object or not
    at all. *)
Lemma JSON_parse_brace (r : jsstring) (v : json) :
  JSON_parse (LBRACE :: r) = Some v -> exists fs, v = JObject fs.
Proof.
  unfold JSON_parse. cbn [skip_jws is_json_space].
  replace (is_json_space LBRACE) with false by reflexivity.
  cbn [parse_value length]. replace (N.eqb LBRACE LBRACE) with true by reflexivity.
  destruct (skip_jws r) as [|d r']; [discriminate|].
  destruct (N.eqb d RBRACE).
  - destruct (skip_jws r'); [|discriminate]. intros [= <-]. eauto.
  - destruct (parse_members _ _) as [[fs rest]|]; [|discriminate].
    destruct (skip_jws rest); [|discriminate]. intros [= <-]. eauto.
Qed.

Lemma directive_parses_to_object (marker s : jsstring) i p v :
  first_directive marker s = Some (i, p) ->
  JSON_parse p = Some v ->
  exists fs, v = JObject fs.
Proof.
  intros H Hp. apply first_directive_payload in H as (body & -> & _).
  eapply JSON_parse_brace; eassumption.
Qed.

(** ** What a parse consumes

    Every parser returns a rest that is shorter than its input and has no
    more closing braces; an object costs one closing brace. *)

Lemma closing_app (a b : jsstring) : closing (a ++ b) = closing a + closing b.
Proof. induction a as [|c a IH]; cbn; [reflexivity | rewrite IH; lia]. Qed.

Lemma closing_none (s : jsstring) : RBRACE ∉ s -> closing s = 0.
Proof.
  induction s as [|c s IH]; [reflexivity|].
  rewrite not_elem_of_cons. intros [Hc Hs]. cbn.
  unfold cost. destruct (N.eqb_spec c RBRACE); [congruence | auto].
Qed.

Lemma cost_le (b : bool) : cost b <= 1.
Proof. destruct b; cbn; lia. Qed.

Lemma cost_orb (a b : bool) : cost (a || b) <= cost a + cost b.
Proof. destruct a, b; cbn; lia. Qed.

(** Arithmetic on lengths and closing braces, with the comparisons known
    from the context put in. *)
Ltac count :=
  cbn [length closing snd fst is_object] in *;
  repeat match goal with
         | |- context [cost (?x =? ?y)%N] => destruct (x =? y)%N
         | H : context [cost (?x =? ?y)%N] |- _ => destruct (x =? y)%N
         end;
  try discriminate;
  repeat match goal with
         | |- context [cost (?a || ?b)] =>
             lazymatch goal with
             | _ : cost (a || b) <= cost a + cost b |- _ => fail
             | _ => pose proof (cost_orb a b)
             end
         end;
  cbn [cost] in *; lia.

Lemma skip_jws_le (s : jsstring) :
  length (skip_jws s) <= length s /\ closing (skip_jws s) <= closing s.
Proof.
  induction s as [|c s [IH1 IH2]]; cbn; [lia|].
  destruct (is_json_space c); count.
Qed.

Lemma strip_prefix_le (p s r : jsstring) :
  strip_prefix p s = Some r ->
  length r + length p = length s /\ closing r <= closing s.
Proof.
  intros H. apply strip_prefix_app in H as ->.
  rewrite length_app, closing_app. lia.
Qed.

Lemma cons_fst_inv {A B} (a : A) (r : option (list A * B)) l b :
  cons_fst a r = Some (l, b) -> exists l', r = Some (l', b) /\ l = a :: l'.
Proof.
  destruct r as [[l' b']|]; cbn; [|discriminate]. intros [= <- <-]. eauto.
Qed.

Lemma parse_string_le (s t r : jsstring) :
  parse_string s = Some (t, r) -> length r < length s /\ closing r <= closing s.
Proof.
  remember (length s) as n eqn:Hn. revert s t r Hn.
  induction n as [n IH] using lt_wf_ind. intros s t r -> H.
  destruct s as [|c s]; [discriminate|]. cbn [parse_string] in H.
  destruct (c =? QUOTE)%N.
  { injection H as <- <-. count. }
  destruct (c =? BACKSLASH)%N.
  - destruct s as [|e s]; [discriminate|].
    destruct (simple_escape e).
    + apply cons_fst_inv in H as (l' & H & _).
      assert (length s < length (c :: e :: s)) as Hlt by (cbn; lia).
      apply (IH _ Hlt _ _ _ eq_refl) in H. count.
    + destruct (e =? 117)%N; [|discriminate].
      destruct s as [|h1 [|h2 [|h3 [|h4 s]]]]; try discriminate.
      destruct (hex4 h1 h2 h3 h4); [|discriminate].
      apply cons_fst_inv in H as (l' & H & _).
      assert (length s < length (c :: e :: h1 :: h2 :: h3 :: h4 :: s)) as Hlt
        by (cbn; lia).
      apply (IH _ Hlt _ _ _ eq_refl) in H. count.
  - destruct (c <? 32)%N; [discriminate|].
    apply cons_fst_inv in H as (l' & H & _).
    assert (length s < length (c :: s)) as Hlt by (cbn; lia).
    apply (IH _ Hlt _ _ _ eq_refl) in H. count.
Qed.

Lemma span_digits_le (s a b : jsstring) :
  span_digits s = (a, b) ->
  length b + length a = length s /\ closing b <= closing s.
Proof.
  revert a b; induction s as [|c s IH]; intros a b; cbn.
  - intros [= <- <-]. count.
  - destruct (is_digit c).
    + destruct (span_digits s) as [a' b'] eqn:E. intros [= <- <-].
      destruct (IH _ _ eq_refl). count.
    + intros [= <- <-]. count.
Qed.

Lemma parse_number_le (s n r : jsstring) :
  parse_number s = Some (n, r) -> length r < length s /\ closing r <= closing s.
Proof.
  unfold parse_number.
  set (signed := match s with
                 | c :: r0 => if (c =? 45)%N then ([45%N], r0) else ([], s)
                 | [] => ([], s)
                 end).
  assert (length (snd signed) <= length s /\ closing (snd signed) <= closing s) as Hs.
  { unfold signed. destruct s as [|c s]; [count|].
    destruct (c =? 45)%N; count. }
  destruct signed as [sign s1]. cbn [snd] in Hs.
  destruct s1 as [|c r0]; [discriminate|].
  destruct (is_digit c) eqn:Dc; [|discriminate].
  set (int := if (c =? 48)%N then ([48%N], r0) else span_digits (c :: r0)).
  assert (length (snd int) < length (c :: r0)
          /\ closing (snd int) <= closing (c :: r0)) as Hi.
  { unfold int. destruct (c =? 48)%N; [count|].
    cbn [span_digits]. rewrite Dc.
    destruct (span_digits r0) as [a b] eqn:E. apply span_digits_le in E.
    count. }
  destruct int as [ip s2]. cbn [snd] in Hi.
  set (frac := match s2 with
               | d :: r2 =>
                   if (d =? 46)%N then
                     match span_digits r2 with
                     | ([], _) => None
                     | (ds, r3) => Some (46%N :: ds, r3)
                     end
                   else Some ([], s2)
               | [] => Some ([], s2)
               end).
  assert (forall fr s3, frac = Some (fr, s3) ->
            length s3 <= length s2 /\ closing s3 <= closing s2) as Hf.
  { unfold frac. intros fr s3. destruct s2 as [|d r2]; [intros [= <- <-]; count|].
    destruct (d =? 46)%N; [|intros [= <- <-]; count].
    destruct (span_digits r2) as [[|x ds] r3] eqn:E; [discriminate|].
    intros [= <- <-]. apply span_digits_le in E. count. }
  destruct frac as [[fr s3]|]; [|discriminate].
  specialize (Hf _ _ eq_refl).
  set (expo := match s3 with
               | e :: r3 =>
                   if ((e =? 101) || (e =? 69))%N then
                     let '(sg, r4) :=
                       match r3 with
                       | g :: r3' =>
                           if ((g =? 43) || (g =? 45))%N then ([g], r3') else ([], r3)
                       | [] => ([], r3)
                       end in
                     match span_digits r4 with
                     | ([], _) => None
                     | (ds, r5) => Some (e :: sg ++ ds, r5)
                     end
                   else Some ([], s3)
               | [] => Some ([], s3)
               end).
  assert (forall ex s4, expo = Some (ex, s4) ->
            length s4 <= length s3 /\ closing s4 <= closing s3) as He.
  { unfold expo. intros ex s4. destruct s3 as [|e r3]; [intros [= <- <-]; count|].
    destruct ((e =? 101) || (e =? 69))%N; [|intros [= <- <-]; count].
    set (sgn := match r3 with
                | g :: r3' =>
                    if ((g =? 43) || (g =? 45))%N then ([g], r3') else ([], r3)
                | [] => ([], r3)
                end).
    assert (length (snd sgn) <= length r3 /\ closing (snd sgn) <= closing r3) as Hg.
    { unfold sgn. destruct r3 as [|g r3']; [count|].
      destruct ((g =? 43) || (g =? 45))%N; count. }
    destruct sgn as [sg r4]. cbn [snd] in Hg.
    destruct (span_digits r4) as [[|x ds] r5] eqn:E; [discriminate|].
    intros [= <- <-]. apply span_digits_le in E. count. }
  destruct expo as [[ex s4]|]; [|discriminate].
  specialize (He _ _ eq_refl). intros [= <- <-]. count.
Qed.

Lemma parse_consumes (f : nat) :
  (forall s v r,
     parse_value f s = Some (v, r) ->
     length r < length s /\ closing r + cost (is_object v) <= closing s)
  /\ (forall s ms r,
        parse_members f s = Some (ms, r) ->
        length r < length s /\ closing r + 1 + cost (has_object_value ms) <= closing s)
  /\ (forall s l r,
        parse_elements f s = Some (l, r) ->
        length r < length s /\ closing r <= closing s).
Proof.
  induction f as [|f (IHv & IHm & IHe)]; [repeat split; discriminate|].
  split; [|split].
  - intros s v r H. cbn [parse_value] in H.
    destruct s as [|c r0]; [discriminate|].
    destruct (c =? LBRACE)%N eqn:Cb.
    { pose proof (skip_jws_le r0) as Hs.
      destruct (skip_jws r0) as [|d r'] eqn:E; [discriminate|].
      destruct (d =? RBRACE)%N eqn:D.
      - injection H as <- <-. clear Cb. count.
      - destruct (parse_members f (d :: r')) as [[fs rest]|] eqn:M; [|discriminate].
        injection H as <- <-. apply IHm in M. pose proof (cost_le (has_object_value fs)).
        clear Cb. count. }
    destruct (c =? LBRACKET)%N eqn:Ck.
    { pose proof (skip_jws_le r0) as Hs.
      destruct (skip_jws r0) as [|d r'] eqn:E; [discriminate|].
      destruct (d =? RBRACKET)%N eqn:D.
      - injection H as <- <-. clear Cb Ck D. count.
      - destruct (parse_elements f (d :: r')) as [[l rest]|] eqn:M; [|discriminate].
        injection H as <- <-. apply IHe in M. clear Cb Ck D. count. }
    destruct (c =? QUOTE)%N eqn:Cq.
    { destruct (parse_string r0) as [[t rest]|] eqn:S; [|discriminate].
      injection H as <- <-. apply parse_string_le in S. clear Cb Ck Cq. count. }
    clear Cb Ck Cq.
    destruct (strip_prefix LIT_TRUE (c :: r0)) as [rest|] eqn:T.
    { injection H as <- <-. apply strip_prefix_le in T. cbn [length LIT_TRUE] in T.
      change (length LIT_TRUE) with 4 in T. count. }
    destruct (strip_prefix LIT_FALSE (c :: r0)) as [rest|] eqn:F.
    { injection H as <- <-. apply strip_prefix_le in F.
      change (length LIT_FALSE) with 5 in F. count. }
    destruct (strip_prefix LIT_NULL (c :: r0)) as [rest|] eqn:U.
    { injection H as <- <-. apply strip_prefix_le in U.
      change (length LIT_NULL) with 4 in U. count. }
    destruct (parse_number (c :: r0)) as [[n rest]|] eqn:Nm; [|discriminate].
    injection H as <- <-. apply parse_number_le in Nm. count.
  - intros s ms r H. cbn [parse_members] in H.
    destruct s as [|c r0]; [discriminate|].
    destruct (c =? QUOTE)%N eqn:Cq; [|discriminate]. clear Cq.
    destruct (parse_string r0) as [[k r1]|] eqn:S; [|discriminate].
    apply parse_string_le in S.
    pose proof (skip_jws_le r1) as Hs1.
    destruct (skip_jws r1) as [|d r2] eqn:E1; [discriminate|].
    destruct (d =? COLON)%N eqn:Dc; [|discriminate]. clear Dc.
    pose proof (skip_jws_le r2) as Hs2.
    destruct (parse_value f (skip_jws r2)) as [[v r3]|] eqn:V; [|discriminate].
    apply IHv in V.
    pose proof (skip_jws_le r3) as Hs3.
    destruct (skip_jws r3) as [|e r4] eqn:E3; [discriminate|].
    destruct (e =? COMMA)%N eqn:Ec.
    + clear Ec. pose proof (skip_jws_le r4) as Hs4.
      destruct (parse_members f (skip_jws r4)) as [[fs r5]|] eqn:M; [|discriminate].
      injection H as <- <-. apply IHm in M.
      unfold has_object_value in *. cbn [existsb snd]. count.
    + clear Ec. destruct (e =? RBRACE)%N eqn:Er; [|discriminate].
      injection H as <- <-.
      unfold has_object_value. cbn [existsb snd]. rewrite orb_false_r. count.
  - intros s l r H. cbn [parse_elements] in H.
    destruct (parse_value f s) as [[v r1]|] eqn:V; [|discriminate].
    apply IHv in V.
    pose proof (skip_jws_le r1) as Hs1.
    destruct (skip_jws r1) as [|e r2] eqn:E1; [discriminate|].
    destruct (e =? COMMA)%N eqn:Ec.
    + clear Ec. pose proof (skip_jws_le r2) as Hs2.
      destruct (parse_elements f (skip_jws r2)) as [[l' r3]|] eqn:M; [|discriminate].
      injection H as <- <-. apply IHe in M. count.
    + clear Ec. destruct (e =? RBRACKET)%N eqn:Er; [|discriminate]. clear Er.
      injection H as <- <-. count.
Qed.

(** ** The fuel of the parser is enough *)

Lemma parse_fuel (f : nat) :
  (forall s x, parse_value f s = Some x ->
               forall g, 2 * length s + 1 <= g -> parse_value g s = Some x)
  /\ (forall s x, parse_members f s = Some x ->
                  forall g, 2 * length s + 1 <= g -> parse_members g s = Some x)
  /\ (forall s x, parse_elements f s = Some x ->
                  forall g, 2 * length s + 2 <= g -> parse_elements g s = Some x).
Proof.
  induction f as [|f (IHv & IHm & IHe)]; [repeat split; discriminate|].
  split; [|split].
  - intros s x H [|g] Hg; [lia|]. cbn [parse_value] in H |- *.
    destruct s as [|c r0]; [discriminate|].
    destruct (c =? LBRACE)%N.
    { pose proof (skip_jws_le r0) as [Hs _].
      destruct (skip_jws r0) as [|d r'] eqn:E; [discriminate|].
      destruct (d =? RBRACE)%N; [exact H|].
      destruct (parse_members f (d :: r')) as [m|] eqn:M; [|discriminate].
      rewrite (IHm _ _ M g); [exact H | cbn [length] in *; lia]. }
    destruct (c =? LBRACKET)%N.
    { pose proof (skip_jws_le r0) as [Hs _].
      destruct (skip_jws r0) as [|d r'] eqn:E; [discriminate|].
      destruct (d =? RBRACKET)%N; [exact H|].
      destruct (parse_elements f (d :: r')) as [m|] eqn:M; [|discriminate].
      rewrite (IHe _ _ M g); [exact H | cbn [length] in *; lia]. }
    exact H.
  - intros s x H [|g] Hg; [lia|]. cbn [parse_members] in H |- *.
    destruct s as [|c r0]; [discriminate|].
    destruct (c =? QUOTE)%N; [|discriminate].
    destruct (parse_string r0) as [[k r1]|] eqn:S; [|discriminate].
    apply parse_string_le in S as [S _].
    pose proof (skip_jws_le r1) as [Hs1 _].
    destruct (skip_jws r1) as [|d r2] eqn:E1; [discriminate|].
    destruct (d =? COLON)%N; [|discriminate].
    pose proof (skip_jws_le r2) as [Hs2 _].
    destruct (parse_value f (skip_jws r2)) as [[v r3]|] eqn:V; [|discriminate].
    rewrite (IHv _ _ V g) by (cbn [length] in *; lia).
    apply parse_consumes in V as [V _].
    pose proof (skip_jws_le r3) as [Hs3 _].
    destruct (skip_jws r3) as [|e r4] eqn:E3; [discriminate|].
    destruct (e =? COMMA)%N; [|exact H].
    pose proof (skip_jws_le r4) as [Hs4 _].
    destruct (parse_members f (skip_jws r4)) as [m|] eqn:M; [|discriminate].
    rewrite (IHm _ _ M g); [exact H | cbn [length] in *; lia].
  - intros s x H [|g] Hg; [lia|]. cbn [parse_elements] in H |- *.
    destruct (parse_value f s) as [[v r1]|] eqn:V; [|discriminate].
    rewrite (IHv _ _ V g) by lia.
    apply parse_consumes in V as [V _].
    pose proof (skip_jws_le r1) as [Hs1 _].
    destruct (skip_jws r1) as [|e r2] eqn:E1; [discriminate|].
    destruct (e =? COMMA)%N; [|exact H].
    pose proof (skip_jws_le r2) as [Hs2 _].
    destruct (parse_elements f (skip_jws r2)) as [m|] eqn:M; [|discriminate].
    rewrite (IHe _ _ M g); [exact H | cbn [length] in *; lia].
Qed.

(** [JSON_parse] fails only on a text that no amount of fuel parses. *)
Theorem JSON_parse_complete (s : jsstring) (f : nat) (v : json) (rest : jsstring) :
  parse_value f (skip_jws s) = Some (v, rest) ->
  skip_jws rest = [] ->
  JSON_parse s = Some v.
Proof.
  intros H Hr. unfold JSON_parse.
  destruct (parse_fuel f) as [Hv _].
  rewrite (Hv _ _ H (S (2 * length s))), Hr; [reflexivity|].
  pose proof (skip_jws_le s). lia.
Qed.

(** ** What each operation leaves of the state *)

Lemma store_get_lookup {V} (now : nat) (k : CacheKey)
  (m m' : gmap CacheKey (CacheEntry V)) (r : option V) :
  store_get now k m = (r, m') ->
  (forall k', k' <> k -> m' !! k' = m !! k')
  /\ match r with
     | Some v => m' = m /\ exists e, m !! k = Some e /\ value e = v /\ now <= expiresAt e
     | None => m' !! k = None
     end.
Proof.
  unfold store_get. destruct (m !! k) as [e|] eqn:E.
  - destruct (Nat.leb_spec now (expiresAt e)); intros [= <- <-].
    + split; [reflexivity|]. split; [reflexivity|]. eauto.
    + split; [intros k' Hk; apply lookup_delete_ne; congruence|].
      apply lookup_delete_eq.
  - intros [= <- <-]. split; [reflexivity | exact E].
Qed.

Lemma bind_inv {A B} (c : M A) (k : A -> M B) st o st' :
  bind c k st = (o, st') ->
  (exists a st1, c st = (Returns a, st1) /\ k a st1 = (o, st'))
  \/ (exists e, c st = (Throws e, st') /\ o = Throws e).
Proof.
  unfold bind. destruct (c st) as [[a|e] st1]; intros H.
  - left; eauto.
  - right. inversion H; subst. eauto.
Qed.

Lemma Grows_refl st : Grows st st [] [] [].
Proof. split; rewrite ?app_nil_r; reflexivity. Qed.

Lemma Grows_trans st1 st2 st3 c1 c2 t1 t2 q1 q2 :
  Grows st1 st2 c1 t1 q1 -> Grows st2 st3 c2 t2 q2 ->
  Grows st1 st3 (c1 ++ c2) (t1 ++ t2) (q1 ++ q2).
Proof.
  intros [] []. split; rewrite ?app_assoc; congruence.
Qed.

Lemma runQuery_grows env q st o st' :
  runQuery env q st = (o, st') ->
  Grows st st' [] [] [q] /\ toolResults st' = toolResults st
  /\ responses st' = responses st.
Proof.
  unfold runQuery. intros H.
  assert (st' = {| toolResults := toolResults st; responses := responses st;
                   clock := clock st; backendLog := backendLog st;
                   toolLog := toolLog st; queryLog := queryLog st ++ [q] |}) as ->.
  { destruct q; try (inversion H; reflexivity).
    destruct topic as [[]|]; inversion H; reflexivity. }
  split; [split; cbn; rewrite ?app_nil_r; reflexivity | cbn; auto].
Qed.

Lemma fetch_grows env messages st o st' :
  fetch env messages st = (o, st') ->
  o = Returns (backend env (length (backendLog st)) messages)
  /\ Grows st st' [messages] [] []
  /\ toolResults st' = toolResults st /\ responses st' = responses st.
Proof.
  unfold fetch. intros [= <- <-]. split; [reflexivity|].
  split; [split; cbn; rewrite ?app_nil_r; reflexivity | cbn; auto].
Qed.

Lemma runTool_grows env tn u r p st o st' :
  runTool env tn u r p st = (o, st') ->
  exists queries, Grows st st' [] [] queries /\ length queries <= 1
                  /\ responses st' = responses st.
Proof.
  unfold runTool. intros H.
  apply bind_inv in H as [(result & st1 & H1 & H)|(e & H1 & ->)].
  - assert (exists queries, Grows st st1 [] [] queries /\ length queries <= 1
                            /\ responses st1 = responses st) as (qs & G1 & Hq & R1).
    { destruct (toolQuery tn u r p) as [q|].
      - apply runQuery_grows in H1 as (G & _ & R). exists [q]. auto.
      - inversion H1; subst. exists []. split; [apply Grows_refl|]. auto. }
    apply bind_inv in H as [(? & st2 & H2 & H)|(e & H2 & ->)].
    + inversion H; subst. exists qs. split; [|split; [exact Hq|]].
      * destruct (cacheable result); inversion H2; subst; [|exact G1].
        destruct G1. split; cbn; assumption.
      * destruct (cacheable result); inversion H2; subst; cbn; assumption.
    + destruct (cacheable result); inversion H2.
  - destruct (toolQuery tn u r p) as [q|]; [|inversion H1].
    apply runQuery_grows in H1 as (G & _ & R). exists [q]. auto.
Qed.

Lemma executeTool_grows env tn u r p st o st' :
  executeTool env tn u r p st = (o, st') ->
  exists queries, Grows st st' [] [(tn, p)] queries /\ length queries <= 1
                  /\ responses st' = responses st.
Proof.
  unfold executeTool. intros H.
  apply bind_inv in H as [([] & st1 & H1 & H)|(e & H1 & ->)]; [|inversion H1].
  apply bind_inv in H as [(c & st2 & H2 & H)|(e & H2 & ->)].
  - assert (Grows st st2 [] [(tn, p)] [] /\ responses st2 = responses st) as [G R].
    { unfold logToolCall in H1. inversion H1; subst; clear H1.
      unfold getCachedToolResult in H2. cbn in H2.
      destruct (store_get _ _ _) as [c' m]. inversion H2; subst.
      split; [split; cbn; rewrite ?app_nil_r; reflexivity | reflexivity]. }
    assert (runTool env tn u r p st2 = (o, st') ->
            exists queries, Grows st st' [] [(tn, p)] queries /\ length queries <= 1
                            /\ responses st' = responses st) as Hrun.
    { intros Hr. apply runTool_grows in Hr as (qs & G' & Hq & R').
      exists qs. split; [|split; [exact Hq | congruence]].
      apply (Grows_trans _ _ _ _ _ _ _ _ _ G G'). }
    destruct c as [res|]; [destruct (truthy res)|]; auto.
    inversion H; subst. exists []. split; [exact G|]. auto.
  - unfold getCachedToolResult in H2. destruct (store_get _ _ _); inversion H2.
Qed.

Lemma toolTurn_grows env u text hist ai payload st o st' :
  toolTurn env u text hist ai payload st = (o, st') ->
  exists calls tools queries,
    Grows st st' calls tools queries
    /\ responses st' = responses st
    /\ length calls <= 1 /\ length tools <= 1
    /\ (length calls = 1 -> length tools = 1)
    /\ forall nm pr, tools = [(nm, pr)] ->
         exists toolCall,
           JSON_parse payload = Some toolCall
           /\ nm = own_property toolCall (str "tool")
           /\ pr = js_or (own_property toolCall (str "params")) (JObject []).
Proof.
  unfold toolTurn. intros H.
  assert (forall st0 : State, exists calls tools queries,
    Grows st0 st0 calls tools queries /\ responses st0 = responses st0
    /\ length calls <= 1 /\ length tools <= 1
    /\ (length calls = 1 -> length tools = 1)
    /\ forall nm pr, tools = [(nm, pr)] ->
         exists toolCall,
           JSON_parse payload = Some toolCall
           /\ nm = own_property toolCall (str "tool")
           /\ pr = js_or (own_property toolCall (str "params")) (JObject []))
    as Hnone.
  { intros st0. exists [], [], []. split; [apply Grows_refl|]. cbn.
    repeat split; try lia. intros; discriminate. }
  apply bind_inv in H as [(toolCall & st1 & Ea & H)|(e & Ea & ->)]; cycle 1.
  { unfold lift in Ea. injection Ea as _ <-. apply Hnone. }
  unfold lift in Ea. destruct (JSON_parse payload) as [tc|] eqn:Hp; [|discriminate].
  injection Ea as <- <-.
  apply bind_inv in H as [(tool & st2 & Eb & H)|(e & Eb & ->)]; cycle 1.
  { unfold lift in Eb. injection Eb as _ <-. apply Hnone. }
  unfold lift in Eb. injection Eb as Eb <-.
  apply bind_inv in H as [(params & st3 & Ec & H)|(e & Ec & ->)]; cycle 1.
  { unfold lift in Ec. injection Ec as _ <-. apply Hnone. }
  unfold lift in Ec. injection Ec as Ec <-.
  assert (tool = own_property tc (str "tool")
          /\ params = own_property tc (str "params")) as [-> ->].
  { destruct tc; cbn in *; split; congruence. }
  clear Eb Ec. rename tc into toolCall.
  assert (forall nm pr,
    [(own_property toolCall (str "tool"),
      js_or (own_property toolCall (str "params")) (JObject []))] = [(nm, pr)] ->
    exists toolCall0, Some toolCall = Some toolCall0
      /\ nm = own_property toolCall0 (str "tool")
      /\ pr = js_or (own_property toolCall0 (str "params")) (JObject [])) as Hhon.
  { intros nm pr [= <- <-]. eauto. }
  apply bind_inv in H as [(toolResult & st4 & H4 & H)|(e & H4 & ->)].
  - apply executeTool_grows in H4 as (qs & G4 & _ & R4).
    apply bind_inv in H as [(reply & st5 & H5 & H)|(e & H5 & ->)].
    + apply fetch_grows in H5 as (_ & G5 & _ & R5).
      assert (st' = st5) as ->.
      { destruct reply; inversion H; reflexivity. }
      pose proof (Grows_trans _ _ _ _ _ _ _ _ _ G4 G5) as G.
      eexists _, _, _. split; [exact G|]. cbn.
      split; [congruence|]. repeat split; auto.
    + apply fetch_grows in H5 as (Hf & _). discriminate.
  - apply executeTool_grows in H4 as (qs & G4 & _ & R4).
    eexists _, _, _. split; [exact G4|]. cbn.
    split; [congruence|]. repeat split; auto.
Qed.

Lemma toolStep_grows env u text hist ai st o st' :
  toolStep env u text hist ai st = (o, st') ->
  (exists a, o = Returns a)
  /\ exists calls tools queries,
       Grows st st' calls tools queries
       /\ responses st' = responses st
       /\ length calls <= 1 /\ length tools <= 1
       /\ (length calls = 1 -> length tools = 1)
       /\ forall nm pr, tools = [(nm, pr)] -> honors ai nm pr.
Proof.
  unfold toolStep. intros H.
  assert (forall a, (o, st') = (Returns a, st) ->
    (exists a, o = Returns a)
    /\ exists calls tools queries,
       Grows st st' calls tools queries
       /\ responses st' = responses st
       /\ length calls <= 1 /\ length tools <= 1
       /\ (length calls = 1 -> length tools = 1)
       /\ forall nm pr, tools = [(nm, pr)] -> honors ai nm pr) as Hsame.
  { intros a [= -> ->]. split; [eauto|]. exists [], [], [].
    split; [apply Grows_refl|]. cbn. repeat split; try lia. intros; discriminate. }
  destruct (includes TOOL_CALL ai); [|symmetry in H; eapply Hsame, H].
  destruct (first_directive TOOL_CALL ai) as [[i payload]|] eqn:F;
    [|symmetry in H; eapply Hsame, H].
  unfold try_catch in H.
  destruct (toolTurn env u text hist ai payload st) as [o1 st1] eqn:T.
  apply toolTurn_grows in T as (calls & tools & queries & G & R & Hc & Ht & Hct & Hh).
  assert (st' = st1 /\ exists a, o = Returns a) as [-> Ho].
  { destruct o1; inversion H; subst; eauto. }
  split; [exact Ho|]. exists calls, tools, queries.
  refine (conj G (conj R (conj Hc (conj Ht (conj Hct _))))). intros nm pr E.
  destruct (Hh nm pr E) as (toolCall & Hp & -> & ->).
  apply first_directive_leftmost in F as Hl. destruct Hl as [_ Hl].
  exists i, payload, toolCall. auto.
Qed.

Lemma admitRequest_grows req st a st' :
  admitRequest req st = (a, st') ->
  Grows st st' [] [] [] /\ toolResults st' = toolResults st
  /\ match a with
     | Pending key text =>
         message req = Some (JString text) /\ text <> []
         /\ key = generateCacheKey (user_id (user req)) text (roleContext (user req))
         /\ responses st' !! key = None
         /\ forall k, k <> key -> responses st' !! k = responses st !! k
     | Answered (Status200 body) =>
         assoc (str "action") body = None
         /\ assoc (str "cached") body = Some (JBool true)
     | Answered _ => True
     end.
Proof.
  unfold admitRequest. intros H.
  destruct (message req) as [[| | |[|c t]| |]|];
    try (inversion H; subst; split; [apply Grows_refl|]; split; [reflexivity | exact I]).
  unfold getCachedResponse in H. cbn in H.
  destruct (store_get _ _ _) as [r m] eqn:S.
  apply store_get_lookup in S as [So Sk].
  destruct r as [cached|]; inversion H; subst; cbn [responses toolResults].
  - split; [split; cbn; rewrite ?app_nil_r; reflexivity|].
    split; [reflexivity|]. split; vm_compute; reflexivity.
  - split; [split; cbn; rewrite ?app_nil_r; reflexivity|].
    split; [reflexivity|]. split; [reflexivity|]. split; [discriminate|].
    split; [reflexivity|]. split; [exact Sk | exact So].
Qed.

Lemma textOf_message req text :
  message req = Some (JString text) -> textOf req = text.
Proof. unfold textOf. intros ->. reflexivity. Qed.

(** One run of the producer: the first call to the backend, then what
    the tool step adds. *)
Lemma processRequest_footprint env u text hist st o st' :
  processRequest env u text hist st = (o, st') ->
  exists calls tools,
    backendLog st' = backendLog st ++ chatMessages env u text hist :: calls
    /\ toolLog st' = toolLog st ++ tools
    /\ length calls <= 1
    /\ length tools <= 1
    /\ (length calls = 1 -> length tools = 1)
    /\ forall toolName params,
         tools = [(toolName, params)] ->
         exists content mdl,
           backend env (length (backendLog st)) (chatMessages env u text hist)
           = Completion content mdl
           /\ honors (or_text content []) toolName params.
Proof.
  unfold processRequest. intros P.
  apply bind_inv in P as [(reply & st1 & H1 & P)|(e & H1 & ->)];
    [|apply fetch_grows in H1 as [? _]; discriminate].
  apply fetch_grows in H1 as (Hr & G1 & _ & _). inversion Hr; subst reply; clear Hr.
  destruct (backend env (length (backendLog st)) _) as [| |content mdl] eqn:B.
  - inversion P; subst. destruct G1 as [Gb Gt _ _]. exists [], [].
    split; [exact Gb|]. split; [exact Gt|]. cbn [length].
    split; [lia|]. split; [lia|]. split; [intros [=]|]. intros ? ? [=].
  - inversion P; subst. destruct G1 as [Gb Gt _ _]. exists [], [].
    split; [exact Gb|]. split; [exact Gt|]. cbn [length].
    split; [lia|]. split; [lia|]. split; [intros [=]|]. intros ? ? [=].
  - apply bind_inv in P as [(ai & st3 & H3 & P)|(e & H3 & ->)].
    + apply toolStep_grows in H3
        as (_ & calls & tools & queries & G3 & R3 & Hc & Ht & Hct & Hh).
      destruct (actionStep ai) as [cmd txt].
      apply bind_inv in P as [([] & st4 & H4 & P)|(e & H4 & ->)]; [|inversion H4].
      inversion P; subst. unfold setCachedResponse in H4. inversion H4; subst.
      cbn [backendLog toolLog].
      pose proof (Grows_trans _ _ _ _ _ _ _ _ _ G1 G3) as [Gb Gt _ _]. cbn in Gb, Gt.
      exists calls, tools. split; [exact Gb|]. split; [exact Gt|].
      split; [exact Hc|]. split; [exact Ht|]. split; [exact Hct|].
      intros nm pr E. exists content, mdl. split; [reflexivity | apply Hh, E].
    + apply toolStep_grows in H3 as ([a Ha] & _). discriminate.
Qed.

(** C8.  In every turn at most one tool call is made, and it is the one
    of the first tool-call directive of the completion; at most two
    calls go to the backend, the second one only after a tool call. *)
Theorem one_tool_two_backend_calls (env : Env) (req : Request) (st : State) :
  exists calls tools,
    backendLog (snd (chat env req st)) = backendLog st ++ calls
    /\ toolLog (snd (chat env req st)) = toolLog st ++ tools
    /\ length calls <= 2
    /\ length tools <= 1
    /\ (length calls = 2 -> length tools = 1)
    /\ forall toolName params,
         tools = [(toolName, params)] ->
         exists aiResponse,
           firstCompletion env req st = Some aiResponse
           /\ honors aiResponse toolName params.
Proof.
  unfold chat.
  destruct (admitRequest req st) as [a st0] eqn:A.
  apply admitRequest_grows in A as (G0 & _ & Ha).
  destruct a as [r|key text].
  { exists [], []. destruct G0. cbn. repeat split; auto; try lia. intros; discriminate. }
  destruct Ha as (Hm & _ & _ & _).
  unfold deduplicateRequest.
  destruct (processRequest env (user req) text (historyOf req) st0) as [o st2] eqn:P.
  cbn [snd]. destruct G0 as [Gb Gt _ _]. rewrite app_nil_r in Gb, Gt.
  apply processRequest_footprint in P
    as (calls & tools & Pb & Pt & Hc & Ht & Hct & Hh).
  rewrite Gb in Pb. rewrite Gt in Pt. rewrite Gb in Hh.
  eexists _, tools. split; [exact Pb|]. split; [exact Pt|].
  cbn [length]. split; [lia|]. split; [exact Ht|]. split; [lia|].
  intros nm pr E. destruct (Hh nm pr E) as (content & mdl & B & Hon).
  exists (or_text content []). split; [|exact Hon].
  unfold firstCompletion. rewrite (textOf_message _ _ Hm), B. reflexivity.
Qed.

(** ** A directive is flat *)

Lemma has_object_value_replace (k : jsstring) (v : json) (fs : list (jsstring * json)) :
  is_object v = false -> has_object_value fs = false ->
  has_object_value (replace_value k v fs) = false.
Proof.
  intros Hv. unfold has_object_value.
  induction fs as [|[k' v'] fs IH]; cbn; [reflexivity|].
  intros H. apply orb_false_iff in H as [H1 H2].
  destruct (decide (k = k')); cbn; rewrite ?Hv, ?H1, ?H2, ?IH; auto.
Qed.

Lemma has_object_value_insert (k : jsstring) (v : json) (fs : list (jsstring * json)) :
  is_object v = false -> has_object_value fs = false ->
  has_object_value (insert_new k v fs) = false.
Proof.
  intros Hv. unfold has_object_value.
  induction fs as [|[k' v'] fs IH]; cbn; [rewrite Hv; reflexivity|].
  intros H. pose proof H as H'. apply orb_false_iff in H' as [H1 H2].
  destruct (array_index k) as [i|]; [destruct (array_index k') as [j|]|].
  - destruct (i <? j)%N; cbn; rewrite ?Hv, ?H1, ?H2, ?IH; auto.
  - cbn. rewrite Hv, H1, H2. reflexivity.
  - cbn. rewrite H1, IH; auto.
Qed.

Lemma has_object_value_make (members : list (jsstring * json)) :
  has_object_value members = false ->
  has_object_value (make_object members) = false.
Proof.
  unfold make_object.
  assert (forall acc, has_object_value acc = false ->
                      has_object_value members = false ->
                      has_object_value (fold_left set_prop members acc) = false) as H.
  { induction members as [|[k v] ms IH]; intros acc Ha Hm; [exact Ha|].
    unfold has_object_value in Hm. cbn in Hm.
    apply orb_false_iff in Hm as [Hv Hms]. cbn [fold_left]. apply IH; [|exact Hms].
    unfold set_prop. cbn [fst snd]. destruct (has_key k acc).
    - apply has_object_value_replace; assumption.
    - apply has_object_value_insert; assumption. }
  apply H. reflexivity.
Qed.

Lemma has_object_value_assoc (fs : list (jsstring * json)) (k : jsstring) (v : json) :
  has_object_value fs = false -> assoc k fs = Some v -> is_object v = false.
Proof.
  unfold has_object_value. induction fs as [|[k' v'] fs IH]; cbn; [discriminate|].
  intros H. apply orb_false_iff in H as [H1 H2].
  destruct (decide (k = k')); [intros [= <-]; exact H1 | apply IH, H2].
Qed.

(** The group a directive pattern captures has one closing brace, its
    last character; an object inside an object needs two.  So no field of
    a parsed directive is an object. *)
Lemma directive_fields_flat (marker s : jsstring) i payload fs :
  first_directive marker s = Some (i, payload) ->
  JSON_parse payload = Some (JObject fs) ->
  has_object_value fs = false.
Proof.
  intros F P. apply first_directive_payload in F as (body & -> & _ & Hb).
  unfold JSON_parse in P. cbn [skip_jws] in P.
  change (is_json_space LBRACE) with false in P. cbn match in P.
  cbn [parse_value] in P. change (LBRACE =? LBRACE)%N with true in P. cbn match in P.
  pose proof (skip_jws_le (body ++ [RBRACE])) as [_ Hc].
  rewrite closing_app, (closing_none _ Hb) in Hc. cbn in Hc.
  destruct (skip_jws (body ++ [RBRACE])) as [|d r'] eqn:E; [discriminate|].
  destruct (d =? RBRACE)%N eqn:D.
  - destruct (skip_jws r'); [|discriminate]. injection P as <-. reflexivity.
  - destruct (parse_members _ (d :: r')) as [[ms rest]|] eqn:M; [|discriminate].
    destruct (skip_jws rest); [|discriminate]. injection P as <-.
    apply parse_consumes in M as [_ M].
    apply has_object_value_make.
    destruct (has_object_value ms); [cbn [cost] in M; lia | reflexivity].
Qed.

Lemma own_property_flat (params : json) (k : jsstring) :
  is_object params = false \/ params = JObject [] ->
  k <> LENGTH -> array_index k = None ->
  own_property params k = None.
Proof.
  intros [H| ->] Hl Hi; [|reflexivity].
  destruct params; try discriminate; cbn [own_property]; try reflexivity.
  - destruct (decide (k = LENGTH)); [contradiction|]. rewrite Hi. reflexivity.
  - destruct (decide (k = LENGTH)); [contradiction|]. rewrite Hi. reflexivity.
Qed.

(** No directive the route honors carries a parameter to a data query:
    [params.period], [params.projectName] and [params.topic] are
    [undefined] in every call of [executeTool]. *)
Theorem no_directive_carries_parameters
  (aiResponse : jsstring) (toolName : jsval) (params : json) :
  honors aiResponse toolName params ->
  own_property params PERIOD = None
  /\ own_property params PROJECT_NAME = None
  /\ own_property params TOPIC = None.
Proof.
  intros (i & payload & toolCall & F & _ & P & _ & ->).
  destruct (directive_parses_to_object _ _ _ _ _ F P) as [fs ->].
  pose proof (directive_fields_flat _ _ _ _ _ F P) as Hflat.
  cbn [own_property].
  assert (is_object (js_or (assoc (str "params") fs) (JObject [])) = false
          \/ js_or (assoc (str "params") fs) (JObject []) = JObject []) as Hp.
  { unfold js_or. destruct (assoc (str "params") fs) as [v|] eqn:A; [|right; reflexivity].
    destruct (truthy v); [left|right; reflexivity].
    eapply has_object_value_assoc; eassumption. }
  repeat split; apply own_property_flat; auto; try discriminate; reflexivity.
Qed.

Lemma toolQuery_topic toolName userId userRole params topic :
  toolQuery toolName userId userRole params = Some (getOnboardingHelp topic) ->
  topic = own_property params TOPIC.
Proof.
  unfold toolQuery. destruct toolName as [[| | |n| |]|]; try discriminate.
  repeat (destruct (decide _); [intros [=]; auto|]). discriminate.
Qed.

(** With no [topic] to read, [executeTool] returns. *)
Lemma executeTool_returns env toolName userId userRole params st :
  own_property params TOPIC = None ->
  exists result st',
    executeTool env toolName userId userRole params st = (Returns result, st').
Proof.
  intros Ht. unfold executeTool, bind at 1, logToolCall.
  unfold bind at 1, getCachedToolResult.
  destruct (store_get _ _ _) as [cached m].
  assert (forall st0, exists result st',
            runTool env toolName userId userRole params st0 = (Returns result, st'))
    as Hrun.
  { intros st0. unfold runTool, bind at 1.
    destruct (toolQuery toolName userId userRole params) as [q|] eqn:Q.
    - assert (exists r, runQuery env q st0
                        = (Returns r, snd (runQuery env q st0))) as [r ->].
      { unfold runQuery. destruct q; eauto.
        apply toolQuery_topic in Q. rewrite Ht in Q. subst topic. eauto. }
      unfold bind. destruct (cacheable r); cbn; eauto.
    - unfold ret at 1, bind. destruct (cacheable UNKNOWN_TOOL); cbn; eauto. }
  destruct cached as [r|]; [destruct (truthy r)|]; auto. unfold ret. eauto.
Qed.

(** The tool call of a parsed directive always returns. *)
Lemma directive_tool_returns env u (aiResponse : jsstring) i payload toolCall st :
  first_directive TOOL_CALL aiResponse = Some (i, payload) ->
  JSON_parse payload = Some toolCall ->
  exists result st',
    executeTool env (own_property toolCall (str "tool")) (user_id u) (user_role u)
      (js_or (own_property toolCall (str "params")) (JObject [])) st
    = (Returns result, st').
Proof.
  intros F P. apply executeTool_returns.
  apply first_directive_leftmost in F as Hl. destruct Hl as [_ Hl].
  eapply (no_directive_carries_parameters aiResponse).
  exists i, payload, toolCall. auto.
Qed.

(** ** The tool dispatcher *)

Lemma wellShaped_cacheable (result : json) :
  wellShaped result = true ->
  cacheable result = true /\ own_property result ERROR = None
  \/ cacheable result = false /\ own_property result ERROR <> None.
Proof.
  unfold wellShaped, cacheable. destruct result as [| | | | |fs]; try discriminate.
  cbn [own_property truthy andb].
  destruct (assoc ERROR fs) as [[| | |[|c s]| |]|]; try discriminate; intros _.
  - right. split; [reflexivity | discriminate].
  - left. split; reflexivity.
Qed.

Lemma runQuery_result env q st result st' :
  runQuery env q st = (Returns result, st') ->
  result = database env (length (queryLog st)) q.
Proof.
  unfold runQuery. destruct q; try (intros [= <- _]; reflexivity).
  destruct topic as [[]|]; intros [= <- _] || discriminate; reflexivity.
Qed.

(** After a miss, [executeTool] leaves an entry for the call exactly
    when the result has no [error] field. *)
Lemma runTool_writes env toolName userId userRole params st result st' :
  (forall n q, wellShaped (database env n q) = true) ->
  runTool env toolName userId userRole params st = (Returns result, st') ->
  wellShaped result = true
  /\ (own_property result ERROR = None ->
      toolResults st'
      = store_put (clock st) (TOOL_TTL (config env))
          (toolCacheKey toolName userId params) result (toolResults st))
  /\ (own_property result ERROR <> None -> toolResults st' = toolResults st).
Proof.
  intros Hdb. unfold runTool. intros H.
  apply bind_inv in H as [(r & st1 & H1 & H)|(e & _ & [=])].
  assert (wellShaped r = true /\ toolResults st1 = toolResults st
          /\ clock st1 = clock st) as (Hw & T1 & C1).
  { destruct (toolQuery toolName userId userRole params) as [q|].
    - pose proof (runQuery_result _ _ _ _ _ H1) as ->.
      apply runQuery_grows in H1 as ([] & T & _). auto.
    - inversion H1; subst. auto. }
  apply bind_inv in H as [([] & st2 & H2 & H)|(e & _ & [=])].
  injection H as <- <-. split; [exact Hw|].
  destruct (wellShaped_cacheable r Hw) as [[Hc He]|[Hc He]]; rewrite Hc in H2.
  - unfold setCachedToolResult in H2. injection H2 as <-. cbn.
    split; [intros _; congruence | intros Hne; contradiction].
  - injection H2 as <-. split; [intros Hn; contradiction | intros _; exact T1].
Qed.

Lemma wellShaped_truthy (result : json) : wellShaped result = true -> truthy result = true.
Proof. destruct result; try discriminate. reflexivity. Qed.

(** The cache policy of [executeTool], with the invariant it keeps. *)
Lemma executeTool_policy
  (env : Env) (toolName : jsval) (userId userRole : jsstring) (params : json)
  (st st' : State) (result : json) :
  (forall n q, wellShaped (database env n q) = true) ->
  cacheClean st ->
  executeTool env toolName userId userRole params st = (Returns result, st') ->
  let key := toolCacheKey toolName userId params in
  cacheClean st'
  /\ (own_property result ERROR = None <->
      exists expiry, cachedUntil st' key result expiry /\ clock st' <= expiry)
  /\ (own_property result ERROR <> None -> toolResults st' !! key = None)
  /\ (toolCacheMiss st key -> own_property result ERROR = None ->
      cachedUntil st' key result (clock st + TOOL_TTL (config env)))
  /\ (own_property result ERROR = None ->
      forall (st2 : State) (expiry : nat),
        cachedUntil st2 key result expiry ->
        clock st2 <= expiry ->
        exists st2',
          executeTool env toolName userId userRole params st2 = (Returns result, st2')
          /\ queryLog st2' = queryLog st2).
Proof.
  intros Hdb Hclean H key.
  assert (forall (res : json) (st2 : State) (expiry : nat),
    wellShaped res = true ->
    cachedUntil st2 key res expiry -> clock st2 <= expiry ->
    exists st2',
      executeTool env toolName userId userRole params st2 = (Returns res, st2')
      /\ queryLog st2' = queryLog st2) as Hagain.
  { intros res st2 expiry Hs Hc Hclock. unfold cachedUntil in Hc.
    unfold executeTool, bind, logToolCall, getCachedToolResult.
    cbn [clock toolResults]. fold key. unfold store_get. rewrite Hc.
    cbn [expiresAt value]. destruct (Nat.leb_spec (clock st2) expiry); [|lia].
    rewrite (wellShaped_truthy _ Hs). eexists. split; reflexivity. }
  unfold executeTool in H.
  apply bind_inv in H as [([] & st1 & H1 & H)|(e & _ & [=])].
  injection H1 as <-.
  apply bind_inv in H as [(c & st2 & H2 & H)|(e & _ & [=])].
  unfold getCachedToolResult in H2. cbn in H2. fold key in H2.
  destruct (store_get (clock st) key (toolResults st)) as [r m] eqn:S.
  injection H2 as <- <-.
  pose proof S as S'. apply store_get_lookup in S' as [So Sk].
  assert (forall k e, m !! k = Some e ->
            wellShaped (value e) = true /\ own_property (value e) ERROR = None)
    as Hm.
  { intros k e Hk. destruct (decide (k = key)) as [->|Hne].
    - destruct r as [v|]; [destruct Sk as (-> & _); eapply Hclean, Hk | congruence].
    - rewrite So in Hk by exact Hne. eapply Hclean, Hk. }
  assert (r = None \/ exists v, r = Some v /\ truthy v = true) as [-> | (v & -> & Tv)].
  { destruct r as [v|]; [|auto]. right. exists v. split; [reflexivity|].
    destruct Sk as (-> & e & He & <- & _). apply wellShaped_truthy.
    eapply Hclean, He. }
  - pose proof H as G. apply runTool_grows in G as (qs & [_ _ _ Hclock] & _).
    cbn [clock] in Hclock.
    apply (runTool_writes _ _ _ _ _ _ _ _ Hdb) in H as (Hshape & Hw & Hn).
    cbn [clock toolResults] in Hw, Hn. fold key in Hw.
    assert (own_property result ERROR = None ->
            cachedUntil st' key result (clock st + TOOL_TTL (config env))) as Hyes.
    { intros He. unfold cachedUntil. rewrite (Hw He). apply lookup_insert_eq. }
    assert (own_property result ERROR <> None -> toolResults st' !! key = None) as Hno.
    { intros He. rewrite (Hn He). exact Sk. }
    split; [|split; [split|split; [exact Hno|split; [intros _; exact Hyes|]]]].
    + intros k e Hk. destruct (own_property result ERROR) as [j|] eqn:E.
      * assert (Some j <> None) as X by discriminate.
        rewrite (Hn X) in Hk. eapply Hm, Hk.
      * rewrite (Hw eq_refl) in Hk. unfold store_put in Hk.
        destruct (decide (k = key)) as [->|Hne].
        -- rewrite lookup_insert_eq in Hk. injection Hk as <-. cbn. auto.
        -- rewrite lookup_insert_ne in Hk by congruence. eapply Hm, Hk.
    + intros He. eexists. split; [apply Hyes, He | lia].
    + intros (expiry & Hc & _). destruct (own_property result ERROR) eqn:E; [|reflexivity].
      unfold cachedUntil in Hc. rewrite Hno in Hc; discriminate.
    + intros _ st3 expiry. apply Hagain, Hshape.
  - rewrite Tv in H. injection H as <- <-. destruct Sk as (-> & e & He & Hv & Hlive).
    destruct (Hclean _ _ He) as [Hshape Herr]. rewrite Hv in Hshape, Herr.
    cbn [toolResults clock].
    split; [exact Hclean|]. split; [split; [intros _|intros _; exact Herr]|].
    + exists (expiresAt e). split; [|exact Hlive]. unfold cachedUntil. cbn.
      rewrite He. destruct e; cbn in *. congruence.
    + split; [intros Hne; contradiction|]. split.
      * intros Hmiss. unfold toolCacheMiss, store_get in Hmiss. rewrite He in Hmiss.
        destruct (Nat.leb_spec (clock st) (expiresAt e)); [discriminate | lia].
      * intros _ st3 expiry. apply Hagain, Hshape.
Qed.

(** C7.  [executeTool] returns a result that has no [error] field
    exactly when the tool cache then holds it, live, under the key of
    (tool, user, parameters): a result without [error] field is written
    on a miss, for the TTL of the tier, an error-shaped one never is; and
    while the entry lives the same call returns the same result without
    running the data query. *)
Theorem executeTool_caches_iff_no_error
  (env : Env) (toolName : jsval) (userId userRole : jsstring) (params : json)
  (st st' : State) (result : json) :
  (forall n q, wellShaped (database env n q) = true) ->
  cacheClean st ->
  executeTool env toolName userId userRole params st = (Returns result, st') ->
  let key := toolCacheKey toolName userId params in
  cacheClean st'
  /\ (own_property result ERROR = None <->
      exists expiry, cachedUntil st' key result expiry /\ clock st' <= expiry)
  /\ (own_property result ERROR <> None -> toolResults st' !! key = None)
  /\ (toolCacheMiss st key -> own_property result ERROR = None ->
      cachedUntil st' key result (clock st + TOOL_TTL (config env)))
  /\ (own_property result ERROR = None ->
      forall (st2 : State) (expiry : nat),
        cachedUntil st2 key result expiry ->
        clock st2 <= expiry ->
        exists st2',
          executeTool env toolName userId userRole params st2 = (Returns result, st2')
          /\ queryLog st2' = queryLog st2).
Proof. apply executeTool_policy. Qed.

(** C7 at work: the hours of the week, queried on an empty cache, are cached
    for the TTL of the tool tier. *)
Lemma executeTool_caches_iff_no_error_witness :
  cachedUntil
    (snd (executeTool flatWorld (Some (JString (str "getLoggedHours")))
            (str "u1") (str "employee") (JObject []) emptyState))
    (toolCacheKey (Some (JString (str "getLoggedHours"))) (str "u1") (JObject []))
    LOGGED (clock emptyState + TOOL_TTL (config flatWorld)).
Proof.
  refine (proj1 (proj2 (proj2 (proj2
    (executeTool_caches_iff_no_error flatWorld
       (Some (JString (str "getLoggedHours"))) (str "u1") (str "employee")
       (JObject []) emptyState
       (snd (executeTool flatWorld (Some (JString (str "getLoggedHours")))
               (str "u1") (str "employee") (JObject []) emptyState))
       LOGGED _ _ _)))) _ _).
  - intros n q. reflexivity.
  - intros k e H. vm_compute in H. discriminate.
  - vm_compute. reflexivity.
  - reflexivity.
  - reflexivity.
Defined.

Lemma cacheClean_empty : cacheClean emptyState.
Proof. intros k e H. vm_compute in H. discriminate. Qed.

Lemma cacheClean_same (st st' : State) :
  toolResults st' = toolResults st -> cacheClean st -> cacheClean st'.
Proof. intros E H k e. rewrite E. apply H. Qed.

Lemma toolStep_keeps_clean env u text hist ai st o st' :
  (forall n q, wellShaped (database env n q) = true) ->
  cacheClean st ->
  toolStep env u text hist ai st = (o, st') ->
  cacheClean st'.
Proof.
  intros Hdb Hc. unfold toolStep.
  destruct (includes TOOL_CALL ai); [|intros [= _ <-]; exact Hc].
  destruct (first_directive TOOL_CALL ai) as [[i payload]|]; [|intros [= _ <-]; exact Hc].
  unfold try_catch. destruct (toolTurn env u text hist ai payload st) as [o1 st1] eqn:T.
  intros H. assert (st' = st1) as -> by (destruct o1; inversion H; reflexivity).
  clear H. unfold toolTurn in T.
  apply bind_inv in T as [(toolCall & s1 & Ea & T)|(e & Ea & _)];
    [|injection Ea as _ <-; exact Hc].
  assert (s1 = st) as -> by (unfold lift in Ea; congruence).
  apply bind_inv in T as [(tool & s2 & Eb & T)|(e & Eb & _)];
    [|injection Eb as _ <-; exact Hc].
  assert (s2 = st) as -> by (unfold lift in Eb; congruence).
  apply bind_inv in T as [(params & s3 & Ec & T)|(e & Ec & _)];
    [|injection Ec as _ <-; exact Hc].
  assert (s3 = st) as -> by (unfold lift in Ec; congruence).
  assert (forall o2 s4, executeTool env tool (user_id u) (user_role u)
                          (js_or params (JObject [])) st = (o2, s4) -> cacheClean s4)
    as Hexec.
  { intros [r|e] s4 E; [eapply executeTool_policy; eassumption|].
    (* a tool that throws wrote nothing *)
    unfold executeTool in E.
    apply bind_inv in E as [([] & t1 & E1 & E)|(e' & E1 & _)]; [|discriminate].
    injection E1 as <-.
    apply bind_inv in E as [(c & t2 & E2 & E)|(e' & E2 & _)].
    - unfold getCachedToolResult in E2. cbn in E2.
      destruct (store_get _ _ _) as [r m] eqn:S. injection E2 as <- <-.
      apply store_get_lookup in S as [So Sk].
      assert (cacheClean
                {| toolResults := m; responses := responses st; clock := clock st;
                   backendLog := backendLog st;
                   toolLog := toolLog st ++ [(tool, js_or params (JObject []))];
                   queryLog := queryLog st |}) as Hm.
      { intros k e0 Hk. cbn in Hk.
        destruct (decide (k = toolCacheKey tool (user_id u) (js_or params (JObject []))))
          as [->|Hne].
        - destruct r as [v|]; [destruct Sk as (-> & _); eapply Hc, Hk | congruence].
        - rewrite So in Hk by exact Hne. eapply Hc, Hk. }
      assert (forall t0, cacheClean t0 ->
                runTool env tool (user_id u) (user_role u)
                  (js_or params (JObject [])) t0 = (Throws e, s4) -> cacheClean s4)
        as Hrun.
      { intros t0 H0 R. unfold runTool in R.
        apply bind_inv in R as [(res & t3 & R1 & R)|(e' & R1 & _)].
        - apply bind_inv in R as [([] & t4 & R2 & R)|(e' & R2 & _)]; [discriminate|].
          destruct (cacheable res); discriminate.
        - destruct (toolQuery _ _ _ _) as [q|]; [|discriminate].
          apply runQuery_grows in R1 as (_ & Tr & _). eapply cacheClean_same; eassumption. }
      destruct r as [v|]; [destruct (truthy v); [discriminate|]|]; eapply Hrun; eassumption.
    - unfold getCachedToolResult in E2. destruct (store_get _ _ _); discriminate. }
  apply bind_inv in T as [(toolResult & s4 & Ed & T)|(e & Ed & _)];
    [|eapply Hexec, Ed].
  apply Hexec in Ed.
  apply bind_inv in T as [(reply & s5 & Ee & T)|(e & Ee & _)].
  - apply fetch_grows in Ee as (_ & _ & Tr & _).
    assert (st1 = s5) as -> by (destruct reply; inversion T; reflexivity).
    eapply cacheClean_same; eassumption.
  - apply fetch_grows in Ee as (? & _). discriminate.
Qed.

(** Every turn keeps the tool cache clean: a state reached from the
    empty one by turns of the route is clean. *)
Lemma chat_keeps_clean env req st :
  (forall n q, wellShaped (database env n q) = true) ->
  cacheClean st ->
  cacheClean (snd (chat env req st)).
Proof.
  intros Hdb Hc. unfold chat, deduplicateRequest.
  destruct (admitRequest req st) as [a st0] eqn:A.
  apply admitRequest_grows in A as (_ & T0 & _).
  pose proof (cacheClean_same _ _ T0 Hc) as Hc0.
  destruct a as [r|key text]; [exact Hc0|].
  destruct (processRequest _ _ _ _ st0) as [o st2] eqn:P. cbn [snd].
  unfold processRequest in P.
  apply bind_inv in P as [(reply & st1 & H1 & P)|(e & H1 & _)];
    [|apply fetch_grows in H1 as [? _]; discriminate].
  apply fetch_grows in H1 as (_ & _ & T1 & _).
  pose proof (cacheClean_same _ _ T1 Hc0) as Hc1.
  destruct reply as [| |content mdl]; try (inversion P; subst; exact Hc1).
  apply bind_inv in P as [(ai & st3 & H3 & P)|(e & H3 & _)].
  - apply (toolStep_keeps_clean _ _ _ _ _ _ _ _ Hdb Hc1) in H3.
    destruct (actionStep ai) as [cmd txt].
    apply bind_inv in P as [([] & st4 & H4 & P)|(e & H4 & _)]; [|discriminate].
    injection P as _ <-. unfold setCachedResponse in H4. injection H4 as <-.
    eapply cacheClean_same; [|exact H3]. reflexivity.
  - apply toolStep_grows in H3 as ([a Ha] & _). discriminate.
Qed.

(** ** The turn, step by step *)

Lemma chat_pending env req st key text st0 :
  admitRequest req st = (Pending key text, st0) ->
  chat env req st
  = (respond (fst (processRequest env (user req) text (historyOf req) st0)),
     snd (processRequest env (user req) text (historyOf req) st0)).
Proof.
  intros A. unfold chat, deduplicateRequest. rewrite A.
  destruct (processRequest _ _ _ _ _); reflexivity.
Qed.

(** The state once the first call of the turn has gone to the backend. *)
Lemma fetch_state env messages st :
  fetch env messages st
  = (Returns (backend env (length (backendLog st)) messages),
     snd (fetch env messages st)).
Proof. reflexivity. Qed.

Lemma processRequest_completion env u text hist st content mdl :
  backend env (length (backendLog st)) (chatMessages env u text hist)
  = Completion content mdl ->
  processRequest env u text hist st
  = match toolStep env u text hist (or_text content [])
            (snd (fetch env (chatMessages env u text hist) st)) with
    | (Returns aiResponse, st3) =>
        let data :=
          {| response := snd (actionStep aiResponse);
             model := or_text mdl DEFAULT_MODEL;
             userId := user_id u;
             action := fst (actionStep aiResponse) |} in
        (Returns data,
         snd (setCachedResponse (config env) (user_id u) text data (roleContext u) st3))
    | (Throws e, st3) => (Throws e, st3)
    end.
Proof.
  intros B. unfold processRequest, bind at 1. rewrite fetch_state, B.
  unfold bind at 1.
  destruct (toolStep _ _ _ _ _ _) as [[ai|e] st3]; [|reflexivity].
  destruct (actionStep ai) as [cmd txt]. reflexivity.
Qed.

Lemma toolStep_directive env u text hist ai st i payload :
  first_directive TOOL_CALL ai = Some (i, payload) ->
  toolStep env u text hist ai st
  = match toolTurn env u text hist ai payload st with
    | (Returns a, st') => (Returns a, st')
    | (Throws _, st') => (Returns APOLOGY, st')
    end.
Proof.
  intros F. unfold toolStep. rewrite (includes_first_directive _ _ _ F), F.
  reflexivity.
Qed.

Lemma toolStep_no_directive env u text hist ai st :
  first_directive TOOL_CALL ai = None ->
  toolStep env u text hist ai st = (Returns ai, st).
Proof.
  intros F. unfold toolStep. rewrite F. destruct (includes TOOL_CALL ai); reflexivity.
Qed.

Lemma toolTurn_unparsed env u text hist ai st payload :
  JSON_parse payload = None ->
  toolTurn env u text hist ai payload st = (Throws SyntaxError, st).
Proof. intros P. unfold toolTurn, bind, lift. rewrite P. reflexivity. Qed.

Lemma toolTurn_parsed env u text hist ai st payload fs :
  JSON_parse payload = Some (JObject fs) ->
  toolTurn env u text hist ai payload st
  = match executeTool env (assoc (str "tool") fs) (user_id u) (user_role u)
            (js_or (assoc (str "params") fs) (JObject [])) st with
    | (Returns toolResult, st2) =>
        let followUp := followUpMessages env u text hist (JObject fs) toolResult in
        match backend env (length (backendLog st2)) followUp with
        | Unreachable => (Throws BackendFailure, snd (fetch env followUp st2))
        | NotOk => (Returns ai, snd (fetch env followUp st2))
        | Completion content _ =>
            (Returns (or_text content NO_SUMMARY), snd (fetch env followUp st2))
        end
    | (Throws e, st2) => (Throws e, st2)
    end.
Proof.
  intros P. unfold toolTurn. unfold bind at 1, lift at 1. rewrite P.
  unfold bind at 1, lift at 1. cbn [get_prop own_property].
  unfold bind at 1, lift at 1. cbn [get_prop own_property].
  unfold bind at 1.
  destruct (executeTool _ _ _ _ _ _) as [[r|e] st2]; [|reflexivity].
  unfold bind. rewrite fetch_state.
  destruct (backend _ _ _); reflexivity.
Qed.

Lemma admitRequest_backendLog req st a st0 :
  admitRequest req st = (a, st0) -> backendLog st0 = backendLog st.
Proof.
  intros A. apply admitRequest_grows in A as ([Hb _ _ _] & _).
  rewrite Hb. apply app_nil_r.
Qed.


(** *** A text within a text *)










(** ** The action command *)


Lemma actionStep_no_action (aiText : jsstring) :
  fst (actionStep aiText) = JNull -> snd (actionStep aiText) = aiText.
Proof.
  unfold actionStep. destruct (includes ACTION_COMMAND aiText); [|reflexivity].
  destruct (first_directive ACTION_COMMAND aiText) as [[i payload]|] eqn:F;
    [|reflexivity].
  destruct (JSON_parse payload) as [cmd|] eqn:P; [|reflexivity].
  destruct (directive_parses_to_object _ _ _ _ _ F P) as [fs ->]. discriminate.
Qed.

Lemma actionStep_action_truthy (aiText : jsstring) :
  js_or (Some (fst (actionStep aiText))) JNull = fst (actionStep aiText).
Proof.
  unfold actionStep. destruct (includes ACTION_COMMAND aiText); [|reflexivity].
  destruct (first_directive ACTION_COMMAND aiText) as [[i payload]|] eqn:F;
    [|reflexivity].
  destruct (JSON_parse payload) as [cmd|] eqn:P; [|reflexivity].
  destruct (directive_parses_to_object _ _ _ _ _ F P) as [fs ->]. reflexivity.
Qed.

Lemma assoc_Some_elem {A} (k : jsstring) (table : list (jsstring * A)) (v : A) :
  assoc k table = Some v -> k ∈ map fst table /\ v ∈ map snd table.
Proof.
  induction table as [|[k' v'] table IH]; cbn; [discriminate|].
  destruct (decide (k = k')) as [->|].
  - intros [= ->]. split; apply elem_of_cons; left; reflexivity.
  - intros H. destruct (IH H). split; apply elem_of_cons; right; assumption.
Qed.



Lemma lookupRegistry_own {A} (table : list (jsstring * A)) (k : jsstring) (v : A) :
  lookupRegistry table k = Own v -> k ∈ map fst table /\ v ∈ map snd table.
Proof.
  unfold lookupRegistry. destruct (assoc k table) eqn:E.
  - intros [= <-]. eapply assoc_Some_elem, E.
  - destruct (bool_decide _); discriminate.
Qed.

Lemma lookupRegistry_inherited {A} (table : list (jsstring * A)) (k : jsstring) :
  lookupRegistry table k = Inherited -> k ∈ OBJECT_PROTOTYPE.
Proof.
  unfold lookupRegistry. destruct (assoc k table); [discriminate|].
  destruct (bool_decide (k ∈ OBJECT_PROTOTYPE)) eqn:E; [|discriminate].
  intros _. apply bool_decide_eq_true in E. exact E.
Qed.


(** The executor only ever starts an effect that the registry provides,
    or one that a name of [Object.prototype] opens. *)
Lemma executor_effects_known (dom : jsstring -> bool) (cmd : json) (e : UiEffect) :
  executeChatbotAction dom cmd = Executed e -> allowedEffect e \/ inheritedEffect e.
Proof.
  unfold executeChatbotAction.
  destruct (truthy cmd && _); [|discriminate].
  destruct (own_property cmd (str "action")) as [[| | |a| |]|]; try discriminate.
  repeat (destruct (decide _); [clear e0|]); try discriminate.
  - unfold executeNavigate. destruct (own_property cmd _) as [t|]; [|discriminate].
    destruct (truthy t); [|discriminate].
    destruct (lookupRegistry _ _) as [url| |] eqn:L; try discriminate.
    + intros [= <-]. apply lookupRegistry_own in L. left. cbn. tauto.
    + intros [= <-]. apply lookupRegistry_inherited in L. right. exact L.
  - unfold executeClick. destruct (own_property cmd _) as [t|]; [|discriminate].
    destruct (truthy t); [|discriminate].
    destruct (lookupRegistry _ _) as [b| |] eqn:L; try discriminate.
    + destruct (dom _); [|discriminate].
      intros [= <-]. apply lookupRegistry_own in L. left. cbn. tauto.
    + destruct (dom _); [|discriminate].
      intros [= <-]. apply lookupRegistry_inherited in L. right. exact L.
  - unfold executeScroll. destruct (own_property cmd _) as [t|]; [|discriminate].
    destruct (truthy t); [|discriminate].
    destruct (lookupRegistry _ _) as [sel| |] eqn:L; try discriminate.
    destruct (dom _); [|discriminate].
    intros [= <-]. apply lookupRegistry_own in L. left. cbn. tauto.
  - unfold executeOpenModal. destruct (own_property cmd _) as [t|]; [|discriminate].
    destruct (truthy t); [|discriminate].
    destruct (lookupRegistry _ _) as [b| |] eqn:L; try discriminate.
    + intros [= <-]. apply lookupRegistry_own in L. left. cbn. tauto.
    + destruct (bool_decide _) eqn:R; [|discriminate].
      intros [= <-]. apply bool_decide_eq_true in R. right. exact R.
Qed.







(** ** A payload that does not parse *)

Lemma actionStep_APOLOGY : actionStep APOLOGY = (JNull, APOLOGY).
Proof. vm_compute. reflexivity. Qed.

Lemma actionStep_with_action (aiText : jsstring) :
  fst (actionStep aiText) <> JNull ->
  snd (actionStep aiText) = trim (remove_directives ACTION_COMMAND aiText).
Proof.
  unfold actionStep. destruct (includes ACTION_COMMAND aiText); [|contradiction].
  destruct (first_directive ACTION_COMMAND aiText) as [[i payload]|]; [|contradiction].
  destruct (JSON_parse payload) as [cmd|]; [reflexivity | contradiction].
Qed.

(** C3, as the code has it.  When the completion has the tool-call
    marker and no payload after it that parses, nothing is raised to the
    caller and the turn ends after the one call to the backend, without
    any tool having run.  Its text is the fixed apology, with no action,
    when braces follow the marker around something that is not JSON.
    When no braces follow the marker, the tool step leaves the
    completion as it is, and the response is what the action step makes
    of it: the completion itself, marker included, when the response
    has no action; the completion without its action-command
    directives, trimmed, when it has one. *)
Theorem unparsable_tool_directive_is_not_fatal
  (env : Env) (req : Request) (st st0 : State) (key : CacheKey) (text : jsstring)
  (content mdl : option jsstring) :
  admitRequest req st = (Pending key text, st0) ->
  backend env (length (backendLog st))
    (chatMessages env (user req) text (historyOf req)) = Completion content mdl ->
  includes TOOL_CALL (or_text content []) = true ->
  (forall i payload,
     first_directive TOOL_CALL (or_text content []) = Some (i, payload) ->
     JSON_parse payload = None) ->
  let aiText :=
    match first_directive TOOL_CALL (or_text content []) with
    | Some _ => APOLOGY
    | None => or_text content []
    end in
  exists st',
    chat env req st
    = (Status200
         [(str "response", JString (snd (actionStep aiText)));
          (str "model", JString (or_text mdl DEFAULT_MODEL));
          (str "cached", JBool false);
          (str "action", fst (actionStep aiText))],
       st')
    /\ (first_directive TOOL_CALL (or_text content []) <> None ->
        actionStep aiText = (JNull, APOLOGY))
    /\ (first_directive TOOL_CALL (or_text content []) = None ->
        (fst (actionStep aiText) = JNull ->
         snd (actionStep aiText) = or_text content []
         /\ includes TOOL_CALL (snd (actionStep aiText)) = true)
        /\ (fst (actionStep aiText) <> JNull ->
            snd (actionStep aiText)
            = trim (remove_directives ACTION_COMMAND (or_text content []))))
    /\ backendLog st' = backendLog st ++ [chatMessages env (user req) text (historyOf req)]
    /\ toolLog st' = toolLog st.
Proof.
  intros A B I P. cbv zeta.
  pose proof (admitRequest_backendLog _ _ _ _ A) as L0.
  apply admitRequest_grows in A as HA. destruct HA as ([_ Gt _ _] & _).
  rewrite (chat_pending _ _ _ _ _ _ A). rewrite <- L0 in B.
  rewrite (processRequest_completion _ _ _ _ _ _ _ B).
  destruct (first_directive TOOL_CALL (or_text content [])) as [[i payload]|] eqn:F.
  - rewrite (toolStep_directive _ _ _ _ _ _ _ _ F).
    rewrite (toolTurn_unparsed _ _ _ _ _ _ _ (P _ _ eq_refl)).
    cbn [fst snd respond response model action]. rewrite actionStep_action_truthy.
    eexists. split; [reflexivity|]. split; [intros _; apply actionStep_APOLOGY|].
    split; [intros H; discriminate H|].
    cbn. rewrite L0, Gt, app_nil_r. split; reflexivity.
  - rewrite (toolStep_no_directive _ _ _ _ _ _ F).
    cbn [fst snd respond response model action]. rewrite actionStep_action_truthy.
    eexists. split; [reflexivity|]. split; [intros H; contradiction|].
    split.
    { intros _. split.
      - intros N. rewrite (actionStep_no_action _ N). split; [reflexivity | exact I].
      - apply actionStep_with_action. }
    cbn. rewrite L0, Gt, app_nil_r. split; reflexivity.
Qed.

(** C3, as the claim has it, fails: the text around the directive is not
    what the caller gets. *)
Lemma unparsable_directive_text_is_dropped :
  first_directive TOOL_CALL garbled = Some (13, str "{oops}")
  /\ JSON_parse (str "{oops}") = None
  /\ remove_directives TOOL_CALL garbled = str "Here you go. Anything else?"
  /\ fst (chat garbledWorld (ask "hi") emptyState)
     = Status200
         [(str "response", JString APOLOGY);
          (str "model", JString (str "llama"));
          (str "cached", JBool false);
          (str "action", JNull)]
  /\ APOLOGY <> str "Here you go. Anything else?"
  /\ includes (str "Here you go.") APOLOGY = false.
Proof.
  repeat split; try (vm_compute; reflexivity). discriminate.
Qed.

(** C3 at work: the garbled directive ends in the apology. *)
Lemma unparsable_tool_directive_is_not_fatal_witness :
  exists st',
    chat garbledWorld (ask "hi") emptyState
    = (Status200
         [(str "response", JString APOLOGY);
          (str "model", JString (str "llama"));
          (str "cached", JBool false);
          (str "action", JNull)],
       st')
    /\ (first_directive TOOL_CALL garbled <> None ->
        actionStep APOLOGY = (JNull, APOLOGY))
    /\ (first_directive TOOL_CALL garbled = None ->
        (fst (actionStep APOLOGY) = JNull ->
         snd (actionStep APOLOGY) = garbled
         /\ includes TOOL_CALL (snd (actionStep APOLOGY)) = true)
        /\ (fst (actionStep APOLOGY) <> JNull ->
            snd (actionStep APOLOGY)
            = trim (remove_directives ACTION_COMMAND garbled)))
    /\ backendLog st'
       = backendLog emptyState ++ [chatMessages garbledWorld alice (str "hi") []]
    /\ toolLog st' = toolLog emptyState.
Proof.
  refine (unparsable_tool_directive_is_not_fatal garbledWorld (ask "hi") emptyState
            emptyState
            (generateCacheKey (str "u1") (str "hi") (roleContext alice)) (str "hi")
            (Some garbled) (Some (str "llama")) _ _ _ _).
  - vm_compute. reflexivity.
  - vm_compute. reflexivity.
  - vm_compute. reflexivity.
  - intros i payload H. vm_compute in H. injection H as _ <-. vm_compute. reflexivity.
Defined.

(** A marker with no braces after it: the completion is the response as
    it is. *)
Lemma marker_without_payload_is_kept :
  fst (chat (world [says "Let me check. TOOL_CALL: getLoggedHours"] LOGGED)
         (ask "hi") emptyState)
  = Status200
      [(str "response", JString (str "Let me check. TOOL_CALL: getLoggedHours"));
       (str "model", JString (str "llama"));
       (str "cached", JBool false);
       (str "action", JNull)].
Proof. vm_compute. reflexivity. Qed.

(** A marker with no braces after it, written inside an action command:
    the command is the action of the response, and the marker goes with
    the directive that the action step removes. *)
Lemma marker_inside_action_is_removed :
  let completion := "ACTION_COMMAND: {'action':'navigate','target':'TOOL_CALL:'}"%string in
  includes TOOL_CALL (jq completion) = true
  /\ first_directive TOOL_CALL (jq completion) = None
  /\ fst (chat (world [says completion] LOGGED) (ask "hi") emptyState)
     = Status200
         [(str "response", JString []);
          (str "model", JString (str "llama"));
          (str "cached", JBool false);
          (str "action",
           JObject [(str "action", JString (str "navigate"));
                    (str "target", JString (str "TOOL_CALL:"))])].
Proof. cbv zeta. repeat split; vm_compute; reflexivity. Qed.

(** ** The scenario of the specification *)

(** C4.  The directive of the scenario has a parameter object: the
    pattern stops at its closing brace, the group it captures is not
    JSON, and the turn ends with the apology after one call to the
    backend, no tool dispatched and no summary asked for. *)
Theorem scenario_directive_is_not_dispatched :
  first_directive TOOL_CALL weekDirective
  = Some (0, jq "{'tool': 'getLoggedHours', 'params': {'period': 'week'}")
  /\ JSON_parse (jq "{'tool': 'getLoggedHours', 'params': {'period': 'week'}") = None
  /\ fst (chat weekWorld weekRequest emptyState)
     = Status200
         [(str "response", JString APOLOGY);
          (str "model", JString (str "llama"));
          (str "cached", JBool false);
          (str "action", JNull)]
  /\ length (backendLog (snd (chat weekWorld weekRequest emptyState))) = 1
  /\ toolLog (snd (chat weekWorld weekRequest emptyState)) = []
  /\ queryLog (snd (chat weekWorld weekRequest emptyState)) = [].
Proof. repeat split; vm_compute; reflexivity. Qed.

(** The scenario goes as the specification says when the directive has no
    parameter object: the period is then the default of the query. *)
Lemma scenario_with_flat_directive :
  fst (chat flatWorld weekRequest emptyState)
  = Status200
      [(str "response", JString (str "You logged 3 entries this week."));
       (str "model", JString (str "llama"));
       (str "cached", JBool false);
       (str "action", JNull)]
  /\ length (backendLog (snd (chat flatWorld weekRequest emptyState))) = 2
  /\ queryLog (snd (chat flatWorld weekRequest emptyState))
     = [getLoggedHours (str "u1") None]
  /\ toolResults (snd (chat flatWorld weekRequest emptyState))
       !! toolCacheKey (Some (JString (str "getLoggedHours"))) (str "u1") (JObject [])
     = Some {| value := LOGGED; expiresAt := 300 |}.
Proof. repeat split; vm_compute; reflexivity. Qed.

(** ** The shape of the response *)

(** C6.  The response to a request served from the cache has no [action]
    field, though the first response had the command and the cache holds
    it: the page runs the navigation the first time and nothing the
    second. *)
Theorem cached_response_lacks_action :
  let first := chat dashboardWorld dashboardRequest emptyState in
  let second := chat dashboardWorld dashboardRequest (snd first) in
  fst first
  = Status200
      [(str "response", JString (str "Opening your employee dashboard now!"));
       (str "model", JString (str "llama"));
       (str "cached", JBool false);
       (str "action", dashboard)]
  /\ option_map (fun e => action (value e))
       (responses (snd first)
          !! generateCacheKey (str "u1") (str "Open my dashboard") (roleContext alice))
     = Some dashboard
  /\ fst second
     = Status200
         [(str "response", JString (str "Opening your employee dashboard now!"));
          (str "model", JString (str "llama"));
          (str "cached", JBool true)]
  /\ clientAction (fun _ => true)
       [(str "response", JString (str "Opening your employee dashboard now!"));
        (str "model", JString (str "llama"));
        (str "cached", JBool false);
        (str "action", dashboard)]
     = Executed (Navigate (str "/employee.html"))
  /\ clientAction (fun _ => true)
       [(str "response", JString (str "Opening your employee dashboard now!"));
        (str "model", JString (str "llama"));
        (str "cached", JBool true)]
     = Refused.
Proof. repeat split; vm_compute; reflexivity. Qed.

(** No response served from the cache has an [action] field. *)
Lemma cache_hit_has_no_action (req : Request) (st st' : State)
  (body : list (jsstring * json)) :
  admitRequest req st = (Answered (Status200 body), st') ->
  assoc (str "action") body = None.
Proof. intros A. apply admitRequest_grows in A as (_ & _ & H & _). exact H. Qed.

(** ** What is cached *)

(** C2.  The summary call meets an outage: the apology that ends the turn
    is written to the response cache, and the same request, made at once
    to a backend that is up again, is served that apology from the cache
    without any call to the backend. *)
Theorem apology_is_cached_and_replayed :
  let first := chat outageWorld tasksRequest emptyState in
  let second := chat outageWorld tasksRequest (snd first) in
  fst first
  = Status200
      [(str "response", JString APOLOGY);
       (str "model", JString (str "llama"));
       (str "cached", JBool false);
       (str "action", JNull)]
  /\ length (backendLog (snd first)) = 2
  /\ option_map (fun e => response (value e))
       (responses (snd first)
          !! generateCacheKey (str "u1") (str "What tasks do I have?") (roleContext alice))
     = Some APOLOGY
  /\ backend outageWorld 2
       (chatMessages outageWorld alice (str "What tasks do I have?") [])
     = says "You have 2 pending tasks."
  /\ fst second
     = Status200
         [(str "response", JString APOLOGY);
          (str "model", JString (str "llama"));
          (str "cached", JBool true)]
  /\ backendLog (snd second) = backendLog (snd first).
Proof. repeat split; vm_compute; reflexivity. Qed.

(** ** A summary that the backend refuses *)




(** ** Concurrent requests with one key *)

Lemma processRequest_responses env u text hist st o st' :
  processRequest env u text hist st = (o, st') ->
  forall k, k <> generateCacheKey (user_id u) text (roleContext u) ->
            responses st' !! k = responses st !! k.
Proof.
  unfold processRequest. intros H k Hk.
  apply bind_inv in H as [(reply & st1 & H1 & H)|(e & H1 & ->)];
    [|apply fetch_grows in H1 as [? _]; discriminate].
  apply fetch_grows in H1 as (_ & _ & _ & R1).
  destruct reply as [| |content mdl]; try (inversion H; subst; congruence).
  apply bind_inv in H as [(ai & st3 & H3 & H)|(e & H3 & ->)].
  - apply toolStep_grows in H3 as (_ & ? & ? & ? & _ & R3 & _).
    destruct (actionStep ai) as [cmd txt].
    apply bind_inv in H as [([] & st4 & H4 & H)|(e & H4 & ->)]; [|inversion H4].
    injection H as _ <-. unfold setCachedResponse in H4. injection H4 as <-.
    cbn [responses]. unfold store_put.
    rewrite lookup_insert_ne; [congruence | intros E; apply Hk; symmetry; exact E].
  - apply toolStep_grows in H3 as ([a Ha] & _). discriminate.
Qed.

Lemma requestKey_textOf req k :
  requestKey req = Some k ->
  textOf req <> []
  /\ message req = Some (JString (textOf req))
  /\ k = generateCacheKey (user_id (user req)) (textOf req) (roleContext (user req)).
Proof.
  unfold requestKey, textOf.
  destruct (message req) as [[| | |[|c t]| |]|]; try discriminate.
  intros [= <-]. split; [discriminate|]. split; reflexivity.
Qed.

Lemma admitRequest_invalid req st :
  requestKey req = None ->
  exists r, admitRequest req st = (Answered r, st).
Proof.
  unfold requestKey, admitRequest.
  destruct (message req) as [[| | |[|c t]| |]|]; try discriminate; eauto.
Qed.

Lemma admitRequest_keyed req st k :
  requestKey req = Some k ->
  (exists r, admitRequest req st = (Answered r, st)
             /\ exists e, responses st !! k = Some e)
  \/ (exists st',
        admitRequest req st = (Pending k (textOf req), st')
        /\ responses st' !! k = None
        /\ (forall k', k' <> k -> responses st' !! k' = responses st !! k')
        /\ (responses st !! k = None -> st' = st)).
Proof.
  intros K. destruct (requestKey_textOf _ _ K) as (Ht & Hm & ->).
  unfold admitRequest. rewrite Hm.
  destruct (textOf req) as [|c t] eqn:T; [contradiction|].
  unfold getCachedResponse.
  set (key := generateCacheKey _ _ _).
  destruct (store_get (clock st) key (responses st)) as [r m] eqn:S.
  pose proof S as S'. apply store_get_lookup in S' as [So Sr].
  destruct r as [cached|].
  - left. destruct Sr as (-> & e & He & _). eexists. split; [|eauto].
    destruct st; reflexivity.
  - right. eexists. split; [reflexivity|]. cbn. split; [exact Sr|].
    split; [exact So|]. intros Hn. unfold store_get in S. rewrite Hn in S.
    injection S as <-. destruct st; reflexivity.
Qed.

Lemma wellFormed_insert srv st k owner waiters log sent :
  wellFormed srv ->
  requestKey owner = Some k ->
  wellFormed {| store := st; inFlight := <[k := (owner, waiters)]> (inFlight srv);
                producerLog := log; delivered := sent |}.
Proof.
  intros W K k' o' w'. cbn [inFlight]. destruct (decide (k' = k)) as [->|Hk'].
  - rewrite lookup_insert_eq. intros [= <- _]. exact K.
  - rewrite lookup_insert_ne by congruence. apply W.
Qed.

Lemma wellFormed_delete srv st k log sent :
  wellFormed srv ->
  wellFormed {| store := st; inFlight := delete k (inFlight srv);
                producerLog := log; delivered := sent |}.
Proof.
  intros W k' o' w'. cbn [inFlight]. destruct (decide (k' = k)) as [->|Hk'].
  - rewrite lookup_delete_eq. discriminate.
  - rewrite lookup_delete_ne by congruence. apply W.
Qed.

Lemma callersOf_arrive key c req :
  callersOf key [Arrive c req]
  = if decide (requestKey req = Some key) then [c] else [].
Proof. unfold callersOf. cbn -[requestKey]. destruct (decide _); reflexivity. Qed.

(** While the computation for [key] is in flight, an event other than
    its settling leaves it in flight, started once, with nothing cached
    for [key]; a caller with that key is added to those who await it. *)
Lemma step_keeps_in_flight env srv key owner waiters ev :
  wellFormed srv ->
  inFlight srv !! key = Some (owner, waiters) ->
  responses (store srv) !! key = None ->
  ev <> Settle key ->
  wellFormed (step env srv ev)
  /\ inFlight (step env srv ev) !! key = Some (owner, waiters ++ callersOf key [ev])
  /\ responses (store (step env srv ev)) !! key = None
  /\ producerRuns key (step env srv ev) = producerRuns key srv.
Proof.
  intros W I R Hev. destruct ev as [c req|k|d]; cbn [step].
  - rewrite callersOf_arrive.
    destruct (requestKey req) as [k|] eqn:K.
    + destruct (admitRequest_keyed req (store srv) k K)
        as [(r & -> & e & He)|(st' & -> & Rk & Ro & Rs)].
      * assert (k <> key) by congruence.
        destruct (decide (Some k = Some key)); [congruence|].
        rewrite app_nil_r. cbn [store inFlight producerLog]. auto.
      * destruct (decide (k = key)) as [->|Hk].
        -- destruct (decide (Some key = Some key)); [|congruence].
           unfold attachOrStart. rewrite I. cbn [store inFlight producerLog].
           split; [|split; [apply lookup_insert_eq | split; [exact Rk | reflexivity]]].
           apply wellFormed_insert; [exact W | eapply W, I].
        -- destruct (decide (Some k = Some key)); [congruence|].
           rewrite app_nil_r.
           assert (responses st' !! key = None) as Rkey by (rewrite Ro; auto).
           unfold attachOrStart.
           destruct (inFlight srv !! k) as [[o' w']|] eqn:Ik;
             cbn [store inFlight producerLog].
           ++ split; [|split; [rewrite lookup_insert_ne by congruence; exact I|auto]].
              apply wellFormed_insert; [exact W | eapply W, Ik].
           ++ split; [|split; [rewrite lookup_insert_ne by congruence; exact I|]].
              ** apply wellFormed_insert; [exact W | exact K].
              ** split; [exact Rkey|]. unfold producerRuns. cbn [producerLog].
                 rewrite filter_app, length_app.
                 rewrite filter_cons_False by congruence. cbn. lia.
    + destruct (admitRequest_invalid req (store srv) K) as [r ->].
      destruct (decide (None = Some key)); [discriminate|].
      rewrite app_nil_r. cbn [store inFlight producerLog]. auto.
  - assert (k <> key) as Hk by congruence.
    change (callersOf key [Settle k]) with (@nil nat). rewrite app_nil_r.
    destruct (inFlight srv !! k) as [[o' w']|] eqn:Ik; [|auto].
    destruct (processRequest _ _ _ _ _) as [res st'] eqn:P.
    cbn [store inFlight producerLog].
    split; [|split; [rewrite lookup_delete_ne by congruence; exact I|split; [|reflexivity]]].
    + apply wellFormed_delete, W.
    + pose proof (W _ _ _ Ik) as Ko. apply requestKey_textOf in Ko as (_ & _ & Ko).
      rewrite (processRequest_responses _ _ _ _ _ _ _ P key); [exact R|].
      congruence.
  - change (callersOf key [Tick d]) with (@nil nat). rewrite app_nil_r.
    cbn [store inFlight producerLog advance responses]. auto.
Qed.

Lemma callersOf_app key l1 l2 :
  callersOf key (l1 ++ l2) = callersOf key l1 ++ callersOf key l2.
Proof. unfold callersOf. apply omap_app. Qed.

Lemma run_keeps_in_flight env key owner events :
  Forall (fun ev => ev <> Settle key) events ->
  forall srv waiters,
    wellFormed srv ->
    inFlight srv !! key = Some (owner, waiters) ->
    responses (store srv) !! key = None ->
    wellFormed (run env srv events)
    /\ inFlight (run env srv events) !! key
       = Some (owner, waiters ++ callersOf key events)
    /\ responses (store (run env srv events)) !! key = None
    /\ producerRuns key (run env srv events) = producerRuns key srv.
Proof.
  induction 1 as [|ev events Hev _ IH]; intros srv waiters W I R.
  - cbn. rewrite app_nil_r. auto.
  - cbn [run fold_left].
    destruct (step_keeps_in_flight env _ _ _ _ _ W I R Hev) as (W' & I' & R' & N').
    destruct (IH _ _ W' I' R') as (W'' & I'' & R'' & N'').
    fold (run env (step env srv ev) events).
    split; [exact W''|]. split; [|split; [exact R''|congruence]].
    rewrite I''. change (ev :: events) with ([ev] ++ events).
    rewrite callersOf_app, app_assoc. reflexivity.
Qed.

(** C9, as the code has it.  A request finds nothing cached and nothing
    in flight for its key; while its computation is in flight any
    number of requests arrive, some with the same key, among events of
    any other kind.  When the computation settles the producer has been
    invoked once for the key, with the first request, and every caller
    with that key gets the response made of its one outcome, a result
    or a failure.  That one run of the producer calls the backend once
    or twice: not always once. *)
Theorem concurrent_requests_share_one_run
  (env : Env) (srv : Server) (key : CacheKey) (c0 : nat) (req0 : Request)
  (events : list Event) :
  wellFormed srv ->
  inFlight srv !! key = None ->
  responses (store srv) !! key = None ->
  requestKey req0 = Some key ->
  Forall (fun ev => ev <> Settle key) events ->
  let before := run env srv (Arrive c0 req0 :: events) in
  let after := step env before (Settle key) in
  producerRuns key after = S (producerRuns key srv)
  /\ inFlight after !! key = None
  /\ exists outcome,
       processRequest env (user req0) (textOf req0) (historyOf req0) (store before)
       = (outcome, store after)
       /\ delivered after
          = delivered before
            ++ map (fun c => (c, respond outcome)) (c0 :: callersOf key events)
       /\ exists calls,
            backendLog (store after) = backendLog (store before) ++ calls
            /\ 1 <= length calls <= 2.
Proof.
  intros W I R K Hev before after.
  set (first := step env srv (Arrive c0 req0)).
  assert (wellFormed first /\ inFlight first !! key = Some (req0, [c0])
          /\ responses (store first) !! key = None
          /\ producerRuns key first = S (producerRuns key srv)) as (W1 & I1 & R1 & N1).
  { unfold first. cbn [step].
    destruct (admitRequest_keyed req0 (store srv) key K)
      as [(r & _ & e & He)|(st' & -> & Rk & _ & Rs)]; [congruence|].
    unfold attachOrStart. rewrite I. cbn [store inFlight producerLog].
    split; [|split; [apply lookup_insert_eq|split; [exact Rk|]]].
    - apply wellFormed_insert; [exact W | exact K].
    - unfold producerRuns. cbn [producerLog]. rewrite filter_app, length_app.
      rewrite filter_cons_True by reflexivity. cbn. lia. }
  destruct (run_keeps_in_flight env key req0 events Hev first [c0] W1 I1 R1)
    as (W2 & I2 & R2 & N2).
  change (run env first events) with before in W2, I2, R2, N2.
  unfold after. cbn [step]. rewrite I2.
  destruct (processRequest _ _ _ _ (store before)) as [outcome st'] eqn:P.
  cbn [store inFlight producerLog delivered].
  split; [unfold producerRuns in *; cbn [producerLog]; congruence|].
  split; [apply lookup_delete_eq|].
  exists outcome. split; [reflexivity|]. split; [reflexivity|].
  apply processRequest_footprint in P as (calls & _ & Pb & _ & Hc & _).
  eexists. split; [exact Pb|]. cbn [length]. lia.
Qed.

(** C9 at work: four callers, one run. *)
Lemma concurrent_requests_share_one_run_witness :
  producerRuns tasksKey
    (step flatWorld (run flatWorld emptyServer (Arrive 0 tasksRequest :: burst))
       (Settle tasksKey))
  = S (producerRuns tasksKey emptyServer)
  /\ inFlight
       (step flatWorld (run flatWorld emptyServer (Arrive 0 tasksRequest :: burst))
          (Settle tasksKey)) !! tasksKey = None
  /\ exists outcome,
       processRequest flatWorld (user tasksRequest) (textOf tasksRequest)
         (historyOf tasksRequest)
         (store (run flatWorld emptyServer (Arrive 0 tasksRequest :: burst)))
       = (outcome,
          store (step flatWorld
                   (run flatWorld emptyServer (Arrive 0 tasksRequest :: burst))
                   (Settle tasksKey)))
       /\ delivered
            (step flatWorld (run flatWorld emptyServer (Arrive 0 tasksRequest :: burst))
               (Settle tasksKey))
          = delivered (run flatWorld emptyServer (Arrive 0 tasksRequest :: burst))
            ++ map (fun c => (c, respond outcome)) (0 :: callersOf tasksKey burst)
       /\ exists calls,
            backendLog
              (store (step flatWorld
                        (run flatWorld emptyServer (Arrive 0 tasksRequest :: burst))
                        (Settle tasksKey)))
            = backendLog
                (store (run flatWorld emptyServer (Arrive 0 tasksRequest :: burst)))
              ++ calls
            /\ 1 <= length calls <= 2.
Proof.
  apply (concurrent_requests_share_one_run flatWorld emptyServer tasksKey 0
           tasksRequest burst).
  - intros k owner waiters H. vm_compute in H. discriminate.
  - reflexivity.
  - reflexivity.
  - reflexivity.
  - repeat constructor; discriminate.
Defined.

(** The burst, run: one producer, two calls to the backend for its one
    turn, and the same response to the four callers. *)
Lemma burst_shares_one_response :
  let after :=
    step flatWorld (run flatWorld emptyServer (Arrive 0 tasksRequest :: burst))
      (Settle tasksKey) in
  let shared :=
    Status200
      [(str "response", JString (str "You logged 3 entries this week."));
       (str "model", JString (str "llama"));
       (str "cached", JBool false);
       (str "action", JNull)] in
  producerLog after = [tasksKey]
  /\ length (backendLog (store after)) = 2
  /\ delivered after = [(0, shared); (1, shared); (2, shared); (3, shared)].
Proof. repeat split; vm_compute; reflexivity. Qed.

(** C9, as the claim has it, fails: four requests arrive together for
    one key with nothing cached, the producer runs once for them, and
    the backend is called twice, for the completion and for the summary
    of the tool result. *)
Lemma burst_makes_two_backend_calls :
  let before := run flatWorld emptyServer (Arrive 0 tasksRequest :: burst) in
  let after := step flatWorld before (Settle tasksKey) in
  requestKey tasksRequest = Some tasksKey
  /\ responses (store emptyServer) !! tasksKey = None
  /\ inFlight emptyServer !! tasksKey = None
  /\ 0 :: callersOf tasksKey burst = [0; 1; 2; 3]
  /\ producerRuns tasksKey after = 1
  /\ backendLog (store emptyServer) = []
  /\ length (backendLog (store after)) = 2
  /\ map fst (delivered after) = [0; 1; 2; 3].
Proof. cbv zeta. repeat split; vm_compute; reflexivity. Qed.

(** A request that meets no other is one arrival and the settling of its
    own computation: the turn that [chat] runs in one piece. *)
Lemma lone_request_is_chat env srv key c req :
  requestKey req = Some key ->
  inFlight srv !! key = None ->
  store (run env srv [Arrive c req; Settle key]) = snd (chat env req (store srv))
  /\ delivered (run env srv [Arrive c req; Settle key])
     = delivered srv ++ [(c, fst (chat env req (store srv)))].
Proof.
  intros K I. cbn [run fold_left step]. unfold chat, deduplicateRequest.
  destruct (admitRequest req (store srv)) as [[r|k text] st0] eqn:A.
  - cbn [inFlight]. rewrite I. cbn. split; reflexivity.
  - apply admitRequest_grows in A as HA. destruct HA as (_ & _ & Hm & _ & -> & _).
    apply requestKey_textOf in K as HK. destruct HK as (_ & Hm' & HK).
    assert (text = textOf req) as -> by congruence.
    unfold attachOrStart. rewrite <- HK, I. cbn [inFlight store delivered].
    rewrite lookup_insert_eq.
    destruct (processRequest _ _ _ _ _) as [o st1]. cbn. split; reflexivity.
Qed.

(** ** The theorems at work *)


(** The failing query, run: the error is what the model is asked to
    summarize, and its summary is the response. *)
Lemma failed_query_is_summarized :
  JSON_stringify FAILED_TASKS = jq "{'error':'Failed to get tasks'}"
  /\ option_map (fun m => own_property m (str "content"))
       (last (followUpMessages failingWorld alice (str "What tasks do I have?") []
                tasksCall FAILED_TASKS))
     = Some (Some (JString
                     (jq "TOOL_RESULT: {'error':'Failed to get tasks'}"
                      ++ SUMMARIZE)))
  /\ fst (chat failingWorld tasksRequest emptyState)
     = Status200
         [(str "response", JString (str "Sorry, I could not load your tasks right now."));
          (str "model", JString (str "llama"));
          (str "cached", JBool false);
          (str "action", JNull)]
  /\ toolResults (snd (chat failingWorld tasksRequest emptyState)) = ∅.
Proof. repeat split; vm_compute; reflexivity. Qed.


(** The browser refuses the command that the route let through. *)
Lemma browser_refuses_secret_panel (dom : jsstring -> bool) :
  executeChatbotAction dom secretPanel = Refused.
Proof. reflexivity. Qed.

(** It does not refuse a target that names a built-in: the lookup is
    answered by [Object.prototype], and the page is sent to the text of
    the function found there. *)
Lemma browser_follows_constructor (dom : jsstring -> bool) :
  (str "constructor" ∉ map fst ACTION_REGISTRY_navigate)
  /\ executeChatbotAction dom constructorPage
     = Executed (NavigateBuiltin (str "constructor")).
Proof.
  split; [|reflexivity].
  intros H. apply list_elem_of_In in H. vm_compute in H. intuition discriminate.
Qed.

(** ** What the response cache is spared *)

(** A turn whose first call to the backend fails ends in a 500 and
    writes nothing to the response cache. *)
Lemma failed_first_call_is_not_cached env req st key text st0 :
  admitRequest req st = (Pending key text, st0) ->
  backend env (length (backendLog st))
    (chatMessages env (user req) text (historyOf req)) = NotOk
  \/ backend env (length (backendLog st))
       (chatMessages env (user req) text (historyOf req)) = Unreachable ->
  exists e st',
    chat env req st = (Status500 e, st')
    /\ responses st' = responses st0
    /\ responses st' !! key = None.
Proof.
  intros A B. pose proof (admitRequest_backendLog _ _ _ _ A) as L0.
  apply admitRequest_grows in A as HA. destruct HA as (_ & _ & _ & _ & _ & Hk & _).
  rewrite (chat_pending _ _ _ _ _ _ A). rewrite <- L0 in B.
  unfold processRequest, bind. rewrite fetch_state.
  destruct B as [-> | ->]; cbn; eauto.
Qed.

(** The summary of a failed query is cached like any other response: the
    same question, asked again, gets it from the cache. *)
Lemma summary_of_failure_is_cached :
  let first := chat failingWorld tasksRequest emptyState in
  option_map (fun e => response (value e)) (responses (snd first) !! tasksKey)
  = Some (str "Sorry, I could not load your tasks right now.")
  /\ fst (chat failingWorld tasksRequest (snd first))
     = Status200
         [(str "response", JString (str "Sorry, I could not load your tasks right now."));
          (str "model", JString (str "llama"));
          (str "cached", JBool true)].
Proof. split; vm_compute; reflexivity. Qed.

(** ** What a turn records *)

Lemma runTool_queries env tn u r p st o st' :
  runTool env tn u r p st = (o, st') ->
  queryLog st' = queryLog st
  \/ exists q, toolQuery tn u r p = Some q /\ queryLog st' = queryLog st ++ [q].
Proof.
  unfold runTool. intros H.
  destruct (toolQuery tn u r p) as [q|] eqn:Q.
  - right. exists q. split; [reflexivity|].
    apply bind_inv in H as [(res & st1 & H1 & H)|(e & H1 & ->)].
    + apply runQuery_grows in H1 as ([_ _ Gq _] & _).
      apply bind_inv in H as [([] & st2 & H2 & H)|(e & H2 & ->)].
      * inversion H; subst. destruct (cacheable res).
        -- unfold setCachedToolResult in H2. inversion H2; subst. exact Gq.
        -- inversion H2; subst. exact Gq.
      * destruct (cacheable res); inversion H2.
    + apply runQuery_grows in H1 as ([_ _ Gq _] & _). exact Gq.
  - left.
    apply bind_inv in H as [(res & st1 & H1 & H)|(e & H1 & ->)]; [|inversion H1].
    inversion H1; subst.
    apply bind_inv in H as [([] & st2 & H2 & H)|(e & H2 & ->)].
    + inversion H; subst. destruct (cacheable UNKNOWN_TOOL).
      * unfold setCachedToolResult in H2. inversion H2; subst. reflexivity.
      * inversion H2; subst. reflexivity.
    + destruct (cacheable UNKNOWN_TOOL); inversion H2.
Qed.

Lemma executeTool_queries env tn u r p st o st' :
  executeTool env tn u r p st = (o, st') ->
  queryLog st' = queryLog st
  \/ exists q, toolQuery tn u r p = Some q /\ queryLog st' = queryLog st ++ [q].
Proof.
  unfold executeTool. intros H.
  apply bind_inv in H as [([] & st1 & H1 & H)|(e & H1 & ->)]; [|inversion H1].
  unfold logToolCall in H1. inversion H1; subst; clear H1.
  apply bind_inv in H as [(c & st2 & H2 & H)|(e & H2 & ->)]; cycle 1.
  { unfold getCachedToolResult in H2. cbn in H2.
    destruct (store_get _ _ _); inversion H2. }
  unfold getCachedToolResult in H2. cbn in H2.
  destruct (store_get _ _ _) as [c' m]. inversion H2; subst; clear H2.
  assert (forall o st', runTool env tn u r p
            {| toolResults := m; responses := responses st; clock := clock st;
               backendLog := backendLog st; toolLog := toolLog st ++ [(tn, p)];
               queryLog := queryLog st |} = (o, st') ->
          queryLog st' = queryLog st
          \/ exists q, toolQuery tn u r p = Some q /\ queryLog st' = queryLog st ++ [q])
    as Hrun.
  { intros o1 st1 R. apply runTool_queries in R. exact R. }
  destruct c as [c|]; [|eapply Hrun, H].
  destruct (truthy c); [|eapply Hrun, H].
  inversion H; subst. left. reflexivity.
Qed.
(** What [toolTurn] adds to the logs: the queries of its tool call and
    the follow-up call. *)
Lemma toolTurn_trace env u text hist ai payload st o st' :
  toolTurn env u text hist ai payload st = (o, st') ->
  exists calls queries,
    backendLog st' = backendLog st ++ calls
    /\ queryLog st' = queryLog st ++ queries
    /\ length calls <= 1 /\ length queries <= 1
    /\ Forall (isFollowUp env u text hist) calls
    /\ Forall (fun q => exists toolCall,
                 JSON_parse payload = Some toolCall
                 /\ toolQuery (own_property toolCall (str "tool")) (user_id u) (user_role u)
                      (js_or (own_property toolCall (str "params")) (JObject []))
                    = Some q) queries.
Proof.
  unfold toolTurn. intros H.
  assert (forall st0 : State, exists calls queries,
    backendLog st0 = backendLog st0 ++ calls
    /\ queryLog st0 = queryLog st0 ++ queries
    /\ length calls <= 1 /\ length queries <= 1
    /\ Forall (isFollowUp env u text hist) calls
    /\ Forall (fun q => exists toolCall,
                 JSON_parse payload = Some toolCall
                 /\ toolQuery (own_property toolCall (str "tool")) (user_id u) (user_role u)
                      (js_or (own_property toolCall (str "params")) (JObject []))
                    = Some q) queries) as Hnone.
  { intros st0. exists [], []. rewrite !app_nil_r. cbn.
    repeat split; auto; constructor. }
  apply bind_inv in H as [(toolCall & st1 & Ea & H)|(e & Ea & ->)]; cycle 1.
  { unfold lift in Ea. injection Ea as _ <-. apply Hnone. }
  unfold lift in Ea. destruct (JSON_parse payload) as [tc|] eqn:Hp; [|discriminate].
  injection Ea as <- <-.
  apply bind_inv in H as [(tool & st2 & Eb & H)|(e & Eb & ->)]; cycle 1.
  { unfold lift in Eb. injection Eb as _ <-. apply Hnone. }
  unfold lift in Eb. injection Eb as Eb <-.
  apply bind_inv in H as [(params & st3 & Ec & H)|(e & Ec & ->)]; cycle 1.
  { unfold lift in Ec. injection Ec as _ <-. apply Hnone. }
  unfold lift in Ec. injection Ec as Ec <-.
  assert (tool = own_property tc (str "tool")
          /\ params = own_property tc (str "params")) as [-> ->].
  { destruct tc; cbn in *; split; congruence. }
  clear Eb Ec. rename tc into toolCall.
  assert (forall st4, 
    queryLog st4 = queryLog st
    \/ (exists q,
         toolQuery (own_property toolCall (str "tool")) (user_id u) (user_role u)
           (js_or (own_property toolCall (str "params")) (JObject [])) = Some q
         /\ queryLog st4 = queryLog st ++ [q]) ->
    exists queries,
      queryLog st4 = queryLog st ++ queries /\ length queries <= 1
      /\ Forall (fun q => exists toolCall0,
                 Some toolCall = Some toolCall0
                 /\ toolQuery (own_property toolCall0 (str "tool")) (user_id u) (user_role u)
                      (js_or (own_property toolCall0 (str "params")) (JObject []))
                    = Some q) queries) as Hq.
  { intros st4 [E|(q & Q & E)].
    - exists []. rewrite app_nil_r. cbn. repeat split; auto.
    - exists [q]. cbn. repeat split; auto. constructor; [|constructor]. eauto. }
  apply bind_inv in H as [(toolResult & st4 & H4 & H)|(e & H4 & ->)].
  - pose proof (executeTool_grows _ _ _ _ _ _ _ _ H4) as (qs & [Gb _ _ _] & _ & _).
    apply executeTool_queries in H4. apply Hq in H4 as (queries & Eq & Lq & Fq).
    apply bind_inv in H as [(reply & st5 & H5 & H)|(e & H5 & ->)].
    + apply fetch_grows in H5 as (_ & [Fb _ Fq' _] & _ & _).
      assert (st' = st5) as ->.
      { destruct reply; inversion H; reflexivity. }
      exists [followUpMessages env u text hist toolCall toolResult], queries.
      rewrite Fb, Gb, app_nil_r, Fq', app_nil_r, Eq. cbn.
      repeat split; auto.
      constructor; [|constructor]. exists toolCall, toolResult. reflexivity.
    + apply fetch_grows in H5 as (Hf & _). discriminate.
  - pose proof (executeTool_grows _ _ _ _ _ _ _ _ H4) as (qs & [Gb _ _ _] & _ & _).
    apply executeTool_queries in H4. apply Hq in H4 as (queries & Eq & Lq & Fq).
    exists [], queries. rewrite Gb, Eq. cbn. repeat split; auto.
Qed.

Lemma toolStep_trace env u text hist ai st o st' :
  toolStep env u text hist ai st = (o, st') ->
  exists calls queries,
    backendLog st' = backendLog st ++ calls
    /\ queryLog st' = queryLog st ++ queries
    /\ length calls <= 1 /\ length queries <= 1
    /\ Forall (isFollowUp env u text hist) calls
    /\ Forall (dispatched ai (user_id u) (user_role u)) queries.
Proof.
  unfold toolStep. intros H.
  assert (forall a, (o, st') = (Returns a, st) ->
    exists calls queries,
      backendLog st' = backendLog st ++ calls
      /\ queryLog st' = queryLog st ++ queries
      /\ length calls <= 1 /\ length queries <= 1
      /\ Forall (isFollowUp env u text hist) calls
      /\ Forall (dispatched ai (user_id u) (user_role u)) queries) as Hsame.
  { intros a [= -> ->]. exists [], []. rewrite !app_nil_r. cbn.
    repeat split; auto; constructor. }
  destruct (includes TOOL_CALL ai); [|symmetry in H; eapply Hsame, H].
  destruct (first_directive TOOL_CALL ai) as [[i payload]|] eqn:F;
    [|symmetry in H; eapply Hsame, H].
  unfold try_catch in H.
  destruct (toolTurn env u text hist ai payload st) as [o1 st1] eqn:T.
  apply toolTurn_trace in T as (calls & queries & Eb & Eq & Lc & Lq & Fc & Fq).
  assert (st' = st1) as ->.
  { destruct o1; inversion H; subst; eauto. }
  exists calls, queries. refine (conj Eb (conj Eq (conj Lc (conj Lq (conj Fc _))))).
  eapply Forall_impl; [exact Fq|]. cbn. intros q (toolCall & Hp & Q).
  apply first_directive_leftmost in F as Hl. destruct Hl as [_ Hl].
  eexists _, _. split; [|exact Q]. exists i, payload, toolCall. auto.
Qed.

Lemma processRequest_trace env u text hist st o st' :
  processRequest env u text hist st = (o, st') ->
  exists calls queries,
    backendLog st' = backendLog st ++ chatMessages env u text hist :: calls
    /\ queryLog st' = queryLog st ++ queries
    /\ length calls <= 1 /\ length queries <= 1
    /\ Forall (isFollowUp env u text hist) calls
    /\ Forall (fun q => exists content mdl,
                 backend env (length (backendLog st)) (chatMessages env u text hist)
                 = Completion content mdl
                 /\ dispatched (or_text content []) (user_id u) (user_role u) q) queries.
Proof.
  unfold processRequest. intros P.
  apply bind_inv in P as [(reply & st1 & H1 & P)|(e & H1 & ->)];
    [|apply fetch_grows in H1 as [? _]; discriminate].
  apply fetch_grows in H1 as (Hr & G1 & _ & _). inversion Hr; subst reply; clear Hr.
  destruct G1 as [Gb _ Gq _]. rewrite app_nil_r in Gq.
  destruct (backend env (length (backendLog st)) _) as [| |content mdl] eqn:B.
  - inversion P; subst. exists [], []. rewrite app_nil_r. cbn.
    repeat split; auto; constructor.
  - inversion P; subst. exists [], []. rewrite app_nil_r. cbn.
    repeat split; auto; constructor.
  - apply bind_inv in P as [(ai & st3 & H3 & P)|(e & H3 & ->)].
    + apply toolStep_trace in H3 as (calls & queries & Eb & Eq & Lc & Lq & Fc & Fq).
      destruct (actionStep ai) as [cmd txt].
      apply bind_inv in P as [([] & st4 & H4 & P)|(e & H4 & ->)]; [|inversion H4].
      inversion P; subst. unfold setCachedResponse in H4. inversion H4; subst.
      cbn [backendLog queryLog].
      exists calls, queries. rewrite Eb, Gb, Eq, Gq, <- app_assoc. cbn.
      repeat split; auto.
      eapply Forall_impl; [exact Fq|]. cbn. intros q D. eauto.
    + apply toolStep_grows in H3 as ([a Ha] & _). discriminate.
Qed.

(** What one turn of the route adds to the logs. *)
Lemma chat_trace env req st :
  exists calls queries,
    backendLog (snd (chat env req st)) = backendLog st ++ calls
    /\ queryLog (snd (chat env req st)) = queryLog st ++ queries
    /\ length queries <= 1
    /\ (forall messages, calls !! 0 = Some messages ->
          messages = chatMessages env (user req) (textOf req) (historyOf req))
    /\ (forall messages, calls !! 1 = Some messages ->
          isFollowUp env (user req) (textOf req) (historyOf req) messages)
    /\ length calls <= 2
    /\ Forall (fun q => exists aiResponse,
                 firstCompletion env req st = Some aiResponse
                 /\ dispatched aiResponse (user_id (user req)) (user_role (user req)) q)
         queries.
Proof.
  unfold chat.
  destruct (admitRequest req st) as [a st0] eqn:A.
  apply admitRequest_grows in A as (G0 & _ & Ha).
  destruct G0 as [Gb _ Gq _]. rewrite app_nil_r in Gb, Gq.
  destruct a as [r|key text].
  { exists [], []. cbn. rewrite !app_nil_r.
    repeat split; auto; try constructor; intros ? [=]. }
  destruct Ha as (Hm & _ & _ & _).
  unfold deduplicateRequest.
  destruct (processRequest env (user req) text (historyOf req) st0) as [o st2] eqn:P.
  cbn [snd].
  apply processRequest_trace in P as (calls & queries & Eb & Eq & Lc & Lq & Fc & Fq).
  rewrite Gb in Eb, Fq. rewrite Gq in Eq. rewrite (textOf_message _ _ Hm).
  eexists _, queries. split; [exact Eb|]. split; [exact Eq|]. split; [exact Lq|].
  split; [intros m [= <-]; reflexivity|].
  split.
  { intros m Hm1. cbn in Hm1. destruct calls as [|c calls]; [discriminate|].
    cbn in Hm1. injection Hm1 as <-. inversion Fc; subst. assumption. }
  split; [cbn; lia|].
  eapply Forall_impl; [exact Fq|]. cbn. intros q (content & mdl & B & D).
  exists (or_text content []). split; [|exact D].
  unfold firstCompletion. rewrite (textOf_message _ _ Hm), B. reflexivity.
Qed.

(** ** The turn from end to end *)

Lemma respond_not_400 (o : Outcome ResponseData) body : respond o <> Status400 body.
Proof. destruct o; discriminate. Qed.

Lemma admitRequest_valid req st c t :
  message req = Some (JString (c :: t)) ->
  (exists body st', admitRequest req st = (Answered (Status200 body), st'))
  \/ (exists key st', admitRequest req st = (Pending key (c :: t), st')).
Proof.
  intros Hm. unfold admitRequest. rewrite Hm.
  destruct (getCachedResponse _ _ _ st) as [[[r|]|e] st']; eauto.
Qed.

(** X1.  The route answers 400 exactly when the message of the request
    is not a non-empty string (absent, empty, or a value of another
    type); the body is then [{error: 'Message is required'}], and neither
    the caches nor the logs of the server change: no call is made. *)
Theorem message_is_required (env : Env) (req : Request) (st : State) :
  ((exists body, fst (chat env req st) = Status400 body)
   <-> ~ nonEmptyText (message req))
  /\ (~ nonEmptyText (message req) ->
      chat env req st
      = (Status400 [(ERROR, JString (str "Message is required"))], st)).
Proof.
  assert (~ nonEmptyText (message req) ->
          chat env req st
          = (Status400 [(ERROR, JString (str "Message is required"))], st)) as Hbad.
  { intros Hn. unfold chat, admitRequest.
    destruct (message req) as [[| | |[|c t]| |]|]; try reflexivity.
    exfalso. apply Hn. exists c, t. reflexivity. }
  split; [|exact Hbad]. split.
  - intros [body Hb] (c & t & Hm).
    destruct (admitRequest_valid req st c t Hm) as [(b & st' & A)|(key & st' & A)].
    + unfold chat in Hb. rewrite A in Hb. discriminate.
    + rewrite (chat_pending env req st key (c :: t) st' A) in Hb. cbn [fst] in Hb.
      eapply respond_not_400, Hb.
  - intros Hn. rewrite (Hbad Hn). eauto.
Qed.

Lemma processRequest_refused env u text hist st :
  backend env (length (backendLog st)) (chatMessages env u text hist) = NotOk ->
  processRequest env u text hist st
  = (Throws (Error (str "Failed to get response from AI")),
     snd (fetch env (chatMessages env u text hist) st)).
Proof.
  intros B. unfold processRequest, bind. rewrite fetch_state, B. reflexivity.
Qed.

Lemma processRequest_unreachable env u text hist st :
  backend env (length (backendLog st)) (chatMessages env u text hist) = Unreachable ->
  processRequest env u text hist st
  = (Throws BackendFailure, snd (fetch env (chatMessages env u text hist) st)).
Proof.
  intros B. unfold processRequest, bind. rewrite fetch_state, B. reflexivity.
Qed.

(** X2.  For the requests and the backends of the model, that is for a
    [history] that is absent or an array and for completions whose
    [content] is absent or a string: a turn answers 500 only when its
    first call to the backend fails, the call being refused (the error
    is 'Failed to get response from AI') or impossible to make or to
    read.  That call is then the only one made, no tool runs, and
    nothing is cached for the request.  Once the first completion has
    arrived nothing makes the turn fail.  (A [history] that is [null]
    or has no [slice] makes the route throw before any call, and a
    [content] that is truthy and no string can make it throw after the
    tool has run: [Request] and [BackendReply] have neither.) *)
Theorem failure_only_from_first_call
  (env : Env) (req : Request) (st : State) (e : Exn) :
  fst (chat env req st) = Status500 e ->
  let first := chatMessages env (user req) (textOf req) (historyOf req) in
  message req = Some (JString (textOf req))
  /\ (backend env (length (backendLog st)) first = NotOk
        /\ e = Error (str "Failed to get response from AI")
      \/ backend env (length (backendLog st)) first = Unreachable
         /\ e = BackendFailure)
  /\ backendLog (snd (chat env req st)) = backendLog st ++ [first]
  /\ toolLog (snd (chat env req st)) = toolLog st
  /\ queryLog (snd (chat env req st)) = queryLog st
  /\ toolResults (snd (chat env req st)) = toolResults st
  /\ forall key, requestKey req = Some key ->
                 responses (snd (chat env req st)) !! key = None.
Proof.
  intros H first. subst first.
  destruct (admitRequest req st) as [a st0] eqn:A.
  pose proof (admitRequest_grows _ _ _ _ A) as (G0 & T0 & Ha).
  destruct a as [r|key text].
  { unfold chat in H. rewrite A in H. cbn in H. subst r.
    unfold admitRequest in A.
    destruct (message req) as [[| | |[|c t]| |]|]; try discriminate.
    destruct (getCachedResponse _ _ _ st) as [[[r|]|e'] st']; discriminate. }
  destruct Ha as (Hm & Hne & Hk & Hnone & _).
  rewrite (chat_pending env req st key text st0 A) in *. cbn [fst snd] in *.
  rewrite (textOf_message _ _ Hm).
  destruct G0 as [Gb Gt Gq _]. rewrite app_nil_r in Gb, Gt, Gq.
  assert (forall k, requestKey req = Some k -> k = key) as Hkey.
  { intros k Hr. unfold requestKey in Hr. rewrite Hm in Hr.
    destruct text; [congruence|]. congruence. }
  destruct (backend env (length (backendLog st))
              (chatMessages env (user req) text (historyOf req)))
    as [| |content mdl] eqn:B.
  - rewrite <- Gb in B. rewrite (processRequest_unreachable _ _ _ _ _ B) in H |- *.
    cbn in H |- *. injection H as <-. rewrite Gb, Gt, Gq, T0.
    repeat split; auto. intros k Hr. rewrite (Hkey k Hr). exact Hnone.
  - rewrite <- Gb in B. rewrite (processRequest_refused _ _ _ _ _ B) in H |- *.
    cbn in H |- *. injection H as <-. rewrite Gb, Gt, Gq, T0.
    repeat split; auto. intros k Hr. rewrite (Hkey k Hr). exact Hnone.
  - exfalso. rewrite <- Gb in B.
    rewrite (processRequest_completion _ _ _ _ _ _ _ B) in H.
    destruct (toolStep env (user req) text (historyOf req) (or_text content [])
                (snd (fetch env (chatMessages env (user req) text (historyOf req)) st0)))
      as [o st3] eqn:T.
    apply toolStep_grows in T as ([a ->] & _). discriminate.
Qed.

Lemma failure_only_from_first_call_witness :
  message (ask "hi") = Some (JString (textOf (ask "hi")))
  /\ (backend refusingWorld (length (backendLog emptyState))
        (chatMessages refusingWorld alice (textOf (ask "hi")) (historyOf (ask "hi")))
      = NotOk
      /\ Error (str "Failed to get response from AI")
         = Error (str "Failed to get response from AI")
      \/ backend refusingWorld (length (backendLog emptyState))
           (chatMessages refusingWorld alice (textOf (ask "hi")) (historyOf (ask "hi")))
         = Unreachable
         /\ Error (str "Failed to get response from AI") = BackendFailure)
  /\ backendLog (snd (chat refusingWorld (ask "hi") emptyState))
     = backendLog emptyState
       ++ [chatMessages refusingWorld alice (textOf (ask "hi")) (historyOf (ask "hi"))]
  /\ toolLog (snd (chat refusingWorld (ask "hi") emptyState)) = toolLog emptyState
  /\ queryLog (snd (chat refusingWorld (ask "hi") emptyState)) = queryLog emptyState
  /\ toolResults (snd (chat refusingWorld (ask "hi") emptyState))
     = toolResults emptyState
  /\ forall key, requestKey (ask "hi") = Some key ->
                 responses (snd (chat refusingWorld (ask "hi") emptyState)) !! key = None.
Proof.
  apply (failure_only_from_first_call refusingWorld (ask "hi") emptyState
           (Error (str "Failed to get response from AI"))).
  vm_compute. reflexivity.
Defined.
Lemma last_n_length {A} (n : nat) (l : list A) : length (last_n n l) <= n.
Proof. unfold last_n. rewrite length_drop. lia. Qed.

Lemma chatMessages_shape env u text hist :
  head (chatMessages env u text hist)
  = Some (chatMessage (str "system") (contextPrompt env u))
  /\ last (chatMessages env u text hist) = Some (chatMessage (str "user") text)
  /\ length (chatMessages env u text hist) <= 12.
Proof.
  unfold chatMessages. split; [reflexivity|]. split.
  - rewrite app_comm_cons, last_snoc. reflexivity.
  - cbn [length]. rewrite length_app. cbn [length].
    pose proof (last_n_length 10 hist). lia.
Qed.

Lemma followUpMessages_shape env u text hist toolCall toolResult :
  head (followUpMessages env u text hist toolCall toolResult)
  = Some (chatMessage (str "system") (contextPrompt env u))
  /\ length (followUpMessages env u text hist toolCall toolResult) <= 10.
Proof.
  unfold followUpMessages. split; [reflexivity|].
  cbn [length]. rewrite length_app. cbn [length].
  pose proof (last_n_length 6 hist). lia.
Qed.

(** X3.  The prompts of a turn are bounded whatever the length of the
    history the request carries: the first call sends the system
    message, the last ten entries of the history at most and the
    message of the user, twelve messages at most; the follow-up sends
    the system message, the last six entries at most and three messages
    more, ten at most.  Each begins with the system message that carries
    the context of the user. *)
Theorem prompts_are_bounded (env : Env) (req : Request) (st : State) :
  exists calls,
    backendLog (snd (chat env req st)) = backendLog st ++ calls
    /\ length calls <= 2
    /\ Forall (fun messages =>
                 head messages
                 = Some (chatMessage (str "system") (contextPrompt env (user req)))
                 /\ length messages <= 12) calls
    /\ (forall messages,
          calls !! 0 = Some messages ->
          exists window,
            messages
            = chatMessage (str "system") (contextPrompt env (user req))
              :: window ++ [chatMessage (str "user") (textOf req)]
            /\ window `suffix_of` historyOf req
            /\ length window <= 10)
    /\ (forall messages,
          calls !! 1 = Some messages ->
          exists window rest,
            messages
            = chatMessage (str "system") (contextPrompt env (user req))
              :: window ++ chatMessage (str "user") (textOf req) :: rest
            /\ window `suffix_of` historyOf req
            /\ length window <= 6
            /\ length rest = 2).
Proof.
  destruct (chat_trace env req st) as (calls & queries & Eb & _ & _ & H0 & H1 & Lc & _).
  exists calls. split; [exact Eb|]. split; [exact Lc|].
  split; [|split].
  - apply Forall_lookup. intros i messages Hi.
    destruct i as [|[|i]].
    + rewrite (H0 _ Hi).
      destruct (chatMessages_shape env (user req) (textOf req) (historyOf req))
        as (Hh & _ & Hl). auto.
    + destruct (H1 _ Hi) as (tc & tr & ->).
      destruct (followUpMessages_shape env (user req) (textOf req) (historyOf req) tc tr)
        as (Hh & Hl). split; [exact Hh | lia].
    + apply lookup_lt_Some in Hi. lia.
  - intros messages Hi. rewrite (H0 _ Hi).
    exists (last_n 10 (historyOf req)). split; [reflexivity|].
    split; [apply suffix_drop | apply last_n_length].
  - intros messages Hi. destruct (H1 _ Hi) as (tc & tr & ->).
    unfold followUpMessages. eexists (last_n 6 (historyOf req)), [_; _].
    split; [reflexivity|].
    split; [apply suffix_drop|]. split; [apply last_n_length | reflexivity].
Qed.

Lemma toolQuery_parameter toolName userId userRole params q :
  toolQuery toolName userId userRole params = Some q ->
  queryParameter q = None
  \/ queryParameter q = own_property params PERIOD
  \/ queryParameter q = own_property params PROJECT_NAME
  \/ queryParameter q = own_property params TOPIC.
Proof.
  unfold toolQuery. destruct toolName as [[| | |n| |]|]; try discriminate.
  repeat (destruct (decide _); [intros [= <-]; cbn; auto|]). discriminate.
Qed.

Lemma toolQuery_subject toolName userId userRole params q :
  toolQuery toolName userId userRole params = Some q ->
  (forall u, querySubject q = Some u -> u = userId)
  /\ (forall r, queryRole q = Some r -> r = userRole).
Proof.
  unfold toolQuery. destruct toolName as [[| | |n| |]|]; try discriminate.
  repeat (destruct (decide _);
          [intros [= <-]; cbn; split; intros ? [=]; auto|]).
  discriminate.
Qed.

(** The data queries of a turn: at most one, for the caller, with no
    argument besides the user. *)
Lemma chat_queries (env : Env) (req : Request) (st : State) :
  exists queries,
    queryLog (snd (chat env req st)) = queryLog st ++ queries
    /\ length queries <= 1
    /\ Forall (fun q =>
                 queryParameter q = None
                 /\ (forall u, querySubject q = Some u -> u = user_id (user req))
                 /\ (forall r, queryRole q = Some r -> r = user_role (user req)))
         queries.
Proof.
  destruct (chat_trace env req st) as (calls & queries & _ & Eq & Lq & _ & _ & _ & Fq).
  exists queries. split; [exact Eq|]. split; [exact Lq|].
  eapply Forall_impl; [exact Fq|]. cbn.
  intros q (ai & _ & toolName & params & Hon & Q).
  split; [|eapply toolQuery_subject, Q].
  destruct (no_directive_carries_parameters _ _ _ Hon) as (P1 & P2 & P3).
  destruct (toolQuery_parameter _ _ _ _ _ Q) as [E|[E|[E|E]]]; congruence.
Qed.

(** X4.  No data query of a turn ever receives the argument its tool
    takes besides the user: the [period], the [projectName] and the
    [topic] are undefined in every call, whatever the completion says,
    because the pattern of the directive stops at the first closing
    brace and so admits no parameter object. *)
Theorem directive_parameters_never_arrive (env : Env) (req : Request) (st : State) :
  exists queries,
    queryLog (snd (chat env req st)) = queryLog st ++ queries
    /\ length queries <= 1
    /\ Forall (fun q => queryParameter q = None) queries.
Proof.
  destruct (chat_queries env req st) as (queries & Eq & Lq & Fq).
  exists queries. split; [exact Eq|]. split; [exact Lq|].
  eapply Forall_impl; [exact Fq|]. cbn. tauto.
Qed.

(** X5.  Every data query a turn runs reads the data of the user who
    sent the request, in the role of that user: the completion chooses
    the tool, never the user or the role the tool runs for. *)
Theorem queries_are_for_the_caller (env : Env) (req : Request) (st : State) :
  exists queries,
    queryLog (snd (chat env req st)) = queryLog st ++ queries
    /\ Forall (fun q =>
                 (forall u, querySubject q = Some u -> u = user_id (user req))
                 /\ (forall r, queryRole q = Some r -> r = user_role (user req)))
         queries.
Proof.
  destruct (chat_queries env req st) as (queries & Eq & Lq & Fq).
  exists queries. split; [exact Eq|].
  eapply Forall_impl; [exact Fq|]. cbn. tauto.
Qed.

Lemma processRequest_keeps_clean env u text hist st o st' :
  (forall n q, wellShaped (database env n q) = true) ->
  cacheClean st ->
  processRequest env u text hist st = (o, st') ->
  cacheClean st'.
Proof.
  intros Hdb Hc0 P. unfold processRequest in P.
  apply bind_inv in P as [(reply & st1 & H1 & P)|(e & H1 & _)];
    [|apply fetch_grows in H1 as [? _]; discriminate].
  apply fetch_grows in H1 as (_ & _ & T1 & _).
  pose proof (cacheClean_same _ _ T1 Hc0) as Hc1.
  destruct reply as [| |content mdl]; try (inversion P; subst; exact Hc1).
  apply bind_inv in P as [(ai & st3 & H3 & P)|(e & H3 & _)].
  - apply (toolStep_keeps_clean _ _ _ _ _ _ _ _ Hdb Hc1) in H3.
    destruct (actionStep ai) as [cmd txt].
    apply bind_inv in P as [([] & st4 & H4 & P)|(e & H4 & _)]; [|discriminate].
    injection P as _ <-. unfold setCachedResponse in H4. injection H4 as <-.
    eapply cacheClean_same; [|exact H3]. reflexivity.
  - apply toolStep_grows in H3 as ([a Ha] & _). discriminate.
Qed.

Lemma step_keeps_clean env srv ev :
  (forall n q, wellShaped (database env n q) = true) ->
  cacheClean (store srv) ->
  cacheClean (store (step env srv ev)).
Proof.
  intros Hdb Hc. destruct ev as [caller req|key|d]; cbn [step].
  - destruct (admitRequest req (store srv)) as [a st0] eqn:A.
    apply admitRequest_grows in A as (_ & T0 & _).
    pose proof (cacheClean_same _ _ T0 Hc) as Hc0.
    destruct a as [r|k text]; [exact Hc0|].
    unfold attachOrStart. destruct (inFlight srv !! k) as [[owner waiters]|]; exact Hc0.
  - destruct (inFlight srv !! key) as [[owner waiters]|]; [|exact Hc].
    destruct (processRequest env (user owner) (textOf owner) (historyOf owner) (store srv))
      as [o st2] eqn:P.
    cbn [store]. eapply processRequest_keeps_clean; eauto.
  - cbn [store]. eapply cacheClean_same; [|exact Hc]. reflexivity.
Qed.

(** X6.  However requests arrive, settle and interleave with the
    passing of time, a server that starts with empty caches never holds
    an error-shaped result in its tool cache: every entry is the result
    of a data query that has no [error] field. *)
Theorem tool_cache_never_holds_an_error (env : Env) (events : list Event) :
  (forall n q, wellShaped (database env n q) = true) ->
  cacheClean (store (run env emptyServer events)).
Proof.
  intros Hdb. unfold run.
  assert (cacheClean (store emptyServer)) as Hc by exact cacheClean_empty.
  revert Hc. generalize emptyServer.
  induction events as [|ev events IH]; intros srv Hc; [exact Hc|].
  cbn [fold_left]. apply IH, step_keeps_clean; assumption.
Qed.

Lemma tool_cache_never_holds_an_error_witness :
  cacheClean
    (store (run flatWorld emptyServer
              [Arrive 0 tasksRequest; Settle tasksKey; Tick 400; Arrive 1 tasksRequest])).
Proof.
  apply (tool_cache_never_holds_an_error flatWorld
           [Arrive 0 tasksRequest; Settle tasksKey; Tick 400; Arrive 1 tasksRequest]).
  intros n q. reflexivity.
Defined.
Lemma processRequest_caches env u text hist st data st' :
  processRequest env u text hist st = (Returns data, st') ->
  clock st' = clock st
  /\ responses st' !! generateCacheKey (user_id u) text (roleContext u)
     = Some {| value := data; expiresAt := clock st + RESPONSE_TTL (config env) |}.
Proof.
  intros P.
  destruct (backend env (length (backendLog st)) (chatMessages env u text hist))
    as [| |content mdl] eqn:B.
  - rewrite (processRequest_unreachable _ _ _ _ _ B) in P. discriminate.
  - rewrite (processRequest_refused _ _ _ _ _ B) in P. discriminate.
  - rewrite (processRequest_completion _ _ _ _ _ _ _ B) in P.
    destruct (toolStep env u text hist (or_text content [])
                (snd (fetch env (chatMessages env u text hist) st))) as [o st3] eqn:T.
    apply toolStep_grows in T as (_ & calls & tools & queries & [_ _ _ Gc] & _).
    cbn [snd fetch clock] in Gc.
    destruct o as [ai|e]; [|discriminate].
    cbv zeta in P. injection P as <- <-.
    unfold setCachedResponse. cbn [snd clock responses]. rewrite Gc.
    split; [reflexivity|]. unfold store_put. apply lookup_insert_eq.
Qed.

(** X7.  An answer computed for a user is replayed to that user for
    [RESPONSE_TTL] ticks on the same message, whatever the history (and
    the display name) the later request carries: the history is not part
    of the key.  The replay is marked [cached: true], has no [action]
    field, and makes no call: the state of the server does not change. *)
Theorem answer_is_replayed_whatever_the_history
  (env env' : Env) (req req' : Request) (st st1 : State)
  (answer mdl : jsstring) (act : json) (d : nat) :
  chat env req st
  = (Status200 [(str "response", JString answer); (str "model", JString mdl);
                (str "cached", JBool false); (str "action", act)], st1) ->
  message req' = message req ->
  user_id (user req') = user_id (user req) ->
  user_role (user req') = user_role (user req) ->
  d <= RESPONSE_TTL (config env) ->
  chat env' req' (advance d st1)
  = (Status200 [(str "response", JString answer); (str "model", JString mdl);
                (str "cached", JBool true)], advance d st1).
Proof.
  intros H Hm Hu Hr Hd.
  destruct (admitRequest req st) as [a st0] eqn:A.
  pose proof (admitRequest_grows _ _ _ _ A) as ([_ _ _ Gc] & _ & Ha).
  destruct a as [r|key text].
  { unfold chat in H. rewrite A in H. injection H as -> _.
    destruct Ha as [_ Hc]. vm_compute in Hc. discriminate. }
  destruct Ha as (Hmsg & Hne & Hk & _).
  rewrite (chat_pending env req st key text st0 A) in H.
  destruct (processRequest env (user req) text (historyOf req) st0) as [o st2] eqn:P.
  cbn [fst snd] in H. destruct o as [data|e]; [|discriminate].
  cbn [respond] in H. injection H as Ha1 Ha2 _ <-.
  apply processRequest_caches in P as [Pc Pk].
  unfold chat, admitRequest. rewrite Hm, Hmsg.
  destruct text as [|c t]; [congruence|].
  unfold getCachedResponse, roleContext. rewrite Hu, Hr.
  fold (roleContext (user req)). cbn [advance responses clock].
  unfold store_get. rewrite Pk. cbn [expiresAt value].
  assert ((clock st2 + d <=? clock st0 + RESPONSE_TTL (config env)) = true) as ->.
  { apply Nat.leb_le. lia. }
  rewrite Ha1, Ha2. reflexivity.
Qed.

Lemma answer_is_replayed_whatever_the_history_witness :
  chat outageWorld weekRequestLater
    (advance 120 (snd (chat flatWorld weekRequest emptyState)))
  = (Status200 [(str "response", JString (str "You logged 3 entries this week."));
                (str "model", JString (str "llama"));
                (str "cached", JBool true)],
     advance 120 (snd (chat flatWorld weekRequest emptyState))).
Proof.
  apply (answer_is_replayed_whatever_the_history flatWorld outageWorld
           weekRequest weekRequestLater emptyState
           (snd (chat flatWorld weekRequest emptyState))
           (str "You logged 3 entries this week.") (str "llama") JNull 120).
  - rewrite (surjective_pairing (chat flatWorld weekRequest emptyState)) at 1.
    f_equal; vm_compute; reflexivity.
  - reflexivity.
  - reflexivity.
  - reflexivity.
  - vm_compute. lia.
Defined.

(** X8.  Inside the tool step only two things lead to the apology: the
    payload of the directive is not JSON, and then nothing ran; or the
    tool ran and returned, and the follow-up call could not be made or
    read.  A tool never makes the turn apologize, whatever it returns. *)
Theorem apology_has_two_causes
  (env : Env) (u : User) (text : jsstring) (hist : list json)
  (aiResponse : jsstring) (i : nat) (payload : jsstring) (st st' : State) (e : Exn) :
  first_directive TOOL_CALL aiResponse = Some (i, payload) ->
  toolTurn env u text hist aiResponse payload st = (Throws e, st') ->
  (JSON_parse payload = None /\ e = SyntaxError /\ st' = st)
  \/ (exists toolCall result st2,
        JSON_parse payload = Some toolCall
        /\ executeTool env (own_property toolCall (str "tool")) (user_id u) (user_role u)
             (js_or (own_property toolCall (str "params")) (JObject [])) st
           = (Returns result, st2)
        /\ backend env (length (backendLog st2))
             (followUpMessages env u text hist toolCall result) = Unreachable
        /\ e = BackendFailure).
Proof.
  intros F T.
  destruct (JSON_parse payload) as [toolCall|] eqn:Hp.
  - right.
    destruct (directive_parses_to_object _ _ _ _ _ F Hp) as [fs ->].
    destruct (directive_tool_returns env u _ _ _ _ st F Hp) as (result & st2 & X).
    rewrite (toolTurn_parsed _ _ _ _ _ _ _ _ Hp) in T.
    cbn [own_property] in X. rewrite X in T. cbv zeta in T.
    exists (JObject fs), result, st2. split; [reflexivity|]. split; [exact X|].
    destruct (backend env (length (backendLog st2))
                (followUpMessages env u text hist (JObject fs) result)) eqn:B;
      try discriminate.
    injection T as <- _. auto.
  - left. rewrite (toolTurn_unparsed _ _ _ _ _ _ _ Hp) in T.
    injection T as <- <-. auto.
Qed.

Lemma apology_has_two_causes_witness :
  (JSON_parse (jq "{'tool': 'getPendingTasks'}") = None
   /\ BackendFailure = SyntaxError
   /\ snd (toolTurn outageWorld alice (str "What tasks do I have?") [] tasksDirective
             (jq "{'tool': 'getPendingTasks'}")
             (snd (fetch outageWorld
                     (chatMessages outageWorld alice (str "What tasks do I have?") [])
                     emptyState)))
      = snd (fetch outageWorld
               (chatMessages outageWorld alice (str "What tasks do I have?") [])
               emptyState))
  \/ (exists toolCall result st2,
        JSON_parse (jq "{'tool': 'getPendingTasks'}") = Some toolCall
        /\ executeTool outageWorld (own_property toolCall (str "tool"))
             (user_id alice) (user_role alice)
             (js_or (own_property toolCall (str "params")) (JObject []))
             (snd (fetch outageWorld
                     (chatMessages outageWorld alice (str "What tasks do I have?") [])
                     emptyState))
           = (Returns result, st2)
        /\ backend outageWorld (length (backendLog st2))
             (followUpMessages outageWorld alice (str "What tasks do I have?") []
                toolCall result) = Unreachable
        /\ BackendFailure = BackendFailure).
Proof.
  apply (apology_has_two_causes outageWorld alice (str "What tasks do I have?") []
           tasksDirective 0 (jq "{'tool': 'getPendingTasks'}")).
  - vm_compute. reflexivity.
  - rewrite (surjective_pairing (toolTurn _ _ _ _ _ _ _)) at 1.
    f_equal; vm_compute; reflexivity.
Defined.

(** X9.  A completion that names neither a tool nor an action reaches
    the user exactly as the backend wrote it: not trimmed, and empty
    when the completion has no content.  The turn makes one call to the
    backend and none to a tool, and the answer is cached under the key
    of the request for [RESPONSE_TTL] ticks. *)
Theorem plain_completion_is_passed_through
  (env : Env) (req : Request) (st st0 : State) (key : CacheKey) (text : jsstring)
  (content mdl : option jsstring) :
  admitRequest req st = (Pending key text, st0) ->
  backend env (length (backendLog st))
    (chatMessages env (user req) text (historyOf req)) = Completion content mdl ->
  includes TOOL_CALL (or_text content []) = false ->
  includes ACTION_COMMAND (or_text content []) = false ->
  let data :=
    {| response := or_text content [];
       model := or_text mdl DEFAULT_MODEL;
       userId := user_id (user req);
       action := JNull |} in
  exists st',
    chat env req st
    = (Status200
         [(str "response", JString (or_text content []));
          (str "model", JString (or_text mdl DEFAULT_MODEL));
          (str "cached", JBool false);
          (str "action", JNull)],
       st')
    /\ backendLog st' = backendLog st ++ [chatMessages env (user req) text (historyOf req)]
    /\ toolLog st' = toolLog st
    /\ queryLog st' = queryLog st
    /\ responses st' !! key
       = Some {| value := data; expiresAt := clock st + RESPONSE_TTL (config env) |}.
Proof.
  intros A B Ht Ha data.
  pose proof (admitRequest_grows _ _ _ _ A) as ([Gb Gt Gq Gc] & _ & Hm & _ & Hk & _).
  rewrite app_nil_r in Gb, Gt, Gq.
  rewrite (chat_pending env req st key text st0 A).
  rewrite <- Gb in B. rewrite (processRequest_completion _ _ _ _ _ _ _ B).
  unfold toolStep. rewrite Ht. unfold ret. cbv zeta.
  unfold actionStep. rewrite Ha. cbn [fst snd respond response model action js_or truthy].
  eexists. split; [reflexivity|].
  unfold setCachedResponse. cbn [snd backendLog toolLog queryLog responses clock fetch].
  rewrite Gb, Gt, Gq, Gc, Hk.
  repeat split; auto. unfold store_put. apply lookup_insert_eq.
Qed.

Lemma plain_completion_is_passed_through_witness :
  exists st',
    chat plainWorld (ask "hi") emptyState
    = (Status200
         [(str "response",
           JString (or_text (Some (jq "You can submit timesheets from the Timesheets page.")) []));
          (str "model", JString (or_text (Some (str "llama")) DEFAULT_MODEL));
          (str "cached", JBool false);
          (str "action", JNull)],
       st')
    /\ backendLog st'
       = backendLog emptyState ++ [chatMessages plainWorld (user (ask "hi")) (str "hi") (historyOf (ask "hi"))]
    /\ toolLog st' = toolLog emptyState
    /\ queryLog st' = queryLog emptyState
    /\ responses st' !! generateCacheKey (str "u1") (str "hi") (roleContext alice)
       = Some {| value :=
                   {| response := or_text (Some (jq "You can submit timesheets from the Timesheets page.")) [];
                      model := or_text (Some (str "llama")) DEFAULT_MODEL;
                      userId := user_id (user (ask "hi"));
                      action := JNull |};
                 expiresAt := clock emptyState + RESPONSE_TTL (config plainWorld) |}.
Proof.
  apply (plain_completion_is_passed_through plainWorld (ask "hi") emptyState emptyState
           (generateCacheKey (str "u1") (str "hi") (roleContext alice)) (str "hi")
           (Some (jq "You can submit timesheets from the Timesheets page."))
           (Some (str "llama"))).
  - vm_compute. reflexivity.
  - reflexivity.
  - vm_compute. reflexivity.
  - vm_compute. reflexivity.
Defined.

(** ** The tool cache across calls *)

Lemma executeTool_hit env toolName userId userRole params st e :
  toolResults st !! toolCacheKey toolName userId params = Some e ->
  clock st <= expiresAt e ->
  truthy (value e) = true ->
  executeTool env toolName userId userRole params st
  = (Returns (value e), afterHit toolName params st).
Proof.
  intros Hl Hc Ht.
  unfold executeTool, bind, logToolCall, getCachedToolResult.
  cbn [toolResults clock responses backendLog toolLog queryLog].
  unfold store_get. rewrite Hl.
  assert ((clock st <=? expiresAt e) = true) as -> by (apply Nat.leb_le, Hc).
  rewrite Ht. reflexivity.
Qed.

Lemma runTool_caches env toolName userId userRole params st result st' :
  runTool env toolName userId userRole params st = (Returns result, st') ->
  cacheable result = true ->
  clock st' = clock st
  /\ toolResults st' !! toolCacheKey toolName userId params
     = Some {| value := result; expiresAt := clock st + TOOL_TTL (config env) |}.
Proof.
  unfold runTool. intros H Hc.
  apply bind_inv in H as [(res & st1 & H1 & H)|(e & H1 & [=])].
  assert (clock st1 = clock st) as Hc1.
  { destruct (toolQuery toolName userId userRole params) as [q|].
    - apply runQuery_grows in H1 as ([_ _ _ Gc] & _). exact Gc.
    - injection H1 as _ <-. reflexivity. }
  apply bind_inv in H as [([] & st2 & H2 & H)|(e & H2 & [=])].
  injection H as -> <-. rewrite Hc in H2.
  unfold setCachedToolResult in H2. injection H2 as <-.
  cbn [clock toolResults]. rewrite Hc1. split; [reflexivity|].
  unfold store_put. apply lookup_insert_eq.
Qed.

(** X10.  A result that [executeTool] computes and caches is replayed to
    the same user on the same tool and parameters for [TOOL_TTL] ticks,
    whatever the role the later call is made in: the role is not part
    of the key.  The replay runs no data query and leaves the cache as
    it is; so the refusal a manager-only tool gives an employee is what
    the user still gets right after becoming a manager. *)
Theorem tool_result_is_replayed_whatever_the_role
  (env env' : Env) (toolName : jsval) (userId userRole userRole' : jsstring)
  (params result : json) (st st' : State) (d : nat) :
  executeTool env toolName userId userRole params st = (Returns result, st') ->
  toolCacheMiss st (toolCacheKey toolName userId params) ->
  cacheable result = true ->
  d <= TOOL_TTL (config env) ->
  executeTool env' toolName userId userRole' params (advance d st')
  = (Returns result, afterHit toolName params (advance d st')).
Proof.
  intros H Hmiss Hc Hd. unfold executeTool in H.
  apply bind_inv in H as [([] & st1 & H1 & H)|(e & H1 & [=])].
  unfold logToolCall in H1. injection H1 as <-.
  apply bind_inv in H as [(c & st2 & H2 & H)|(e & H2 & [=])].
  unfold getCachedToolResult in H2. cbn [toolResults clock] in H2.
  unfold toolCacheMiss in Hmiss.
  destruct (store_get (clock st) (toolCacheKey toolName userId params) (toolResults st))
    as [r m] eqn:S.
  cbn [fst] in Hmiss. subst r. injection H2 as <- <-.
  apply runTool_caches in H as [Hk Hl]; [|exact Hc]. cbn [clock] in Hk, Hl.
  apply andb_prop in Hc as [Ht _].
  rewrite (executeTool_hit env' toolName userId userRole' params (advance d st')
             {| value := result; expiresAt := clock st + TOOL_TTL (config env) |});
    [reflexivity | exact Hl | cbn [advance clock expiresAt]; lia | exact Ht].
Qed.

Lemma tool_result_is_replayed_whatever_the_role_witness :
  executeTool gatedWorld (Some (JString (str "getPendingApprovals")))
    (str "u1") (str "manager") (JObject [])
    (advance 300
       (snd (executeTool gatedWorld (Some (JString (str "getPendingApprovals")))
               (str "u1") (str "employee") (JObject []) emptyState)))
  = (Returns ONLY_MANAGERS,
     afterHit (Some (JString (str "getPendingApprovals"))) (JObject [])
       (advance 300
          (snd (executeTool gatedWorld (Some (JString (str "getPendingApprovals")))
                  (str "u1") (str "employee") (JObject []) emptyState)))).
Proof.
  apply (tool_result_is_replayed_whatever_the_role gatedWorld gatedWorld
           (Some (JString (str "getPendingApprovals"))) (str "u1")
           (str "employee") (str "manager") (JObject []) ONLY_MANAGERS emptyState
           (snd (executeTool gatedWorld (Some (JString (str "getPendingApprovals")))
                   (str "u1") (str "employee") (JObject []) emptyState)) 300).
  - rewrite (surjective_pairing (executeTool _ _ _ _ _ _)) at 1.
    f_equal; vm_compute; reflexivity.
  - vm_compute. reflexivity.
  - vm_compute. reflexivity.
  - vm_compute. lia.
Defined.
Lemma toolQuery_known toolName userId userRole params :
  toolQuery toolName userId userRole params = None <-> ~ knownTool toolName.
Proof.
  unfold knownTool. split.
  - intros H (n & -> & Hn). unfold TOOL_NAMES in Hn.
    repeat (apply elem_of_cons in Hn as [->|Hn]; [discriminate H|]).
    apply elem_of_nil in Hn. exact Hn.
  - intros H. unfold toolQuery.
    destruct toolName as [[| | |n| |]|]; try reflexivity.
    assert (n ∉ TOOL_NAMES) as Hn.
    { intros Hn. apply H. eauto. }
    unfold TOOL_NAMES in Hn. rewrite !not_elem_of_cons in Hn.
    repeat (destruct (decide _) as [->|?]; [exfalso; tauto|]).
    reflexivity.
Qed.

(** X11.  A call of [executeTool] that names none of the twenty tools
    (a name in another case, a value that is not a string, no name at
    all) runs no data query and returns [{error: 'Unknown tool'}],
    which is not cached: the next such call finds nothing either. *)
Theorem unknown_tool_is_reported_not_run
  (env : Env) (toolName : jsval) (userId userRole : jsstring) (params : json)
  (st : State) :
  ~ knownTool toolName ->
  toolCacheMiss st (toolCacheKey toolName userId params) ->
  exists st',
    executeTool env toolName userId userRole params st = (Returns UNKNOWN_TOOL, st')
    /\ queryLog st' = queryLog st
    /\ toolResults st' !! toolCacheKey toolName userId params = None
    /\ toolCacheMiss st' (toolCacheKey toolName userId params)
    /\ JSON_stringify UNKNOWN_TOOL = jq "{'error':'Unknown tool'}".
Proof.
  intros Hk Hmiss.
  apply (toolQuery_known toolName userId userRole params) in Hk.
  unfold toolCacheMiss in Hmiss.
  destruct (store_get (clock st) (toolCacheKey toolName userId params) (toolResults st))
    as [r m] eqn:S.
  cbn [fst] in Hmiss. subst r.
  apply store_get_lookup in S as Hl. destruct Hl as [_ Hl].
  unfold executeTool, bind, logToolCall, getCachedToolResult.
  cbn [toolResults clock responses backendLog toolLog queryLog]. rewrite S.
  unfold runTool, bind. rewrite Hk. unfold ret.
  assert (cacheable UNKNOWN_TOOL = false) as -> by reflexivity.
  eexists. split; [reflexivity|]. cbn [queryLog toolResults clock].
  split; [reflexivity|]. split; [exact Hl|]. split; [|reflexivity].
  unfold toolCacheMiss, store_get. cbn [toolResults clock]. rewrite Hl. reflexivity.
Qed.

Lemma unknown_tool_is_reported_not_run_witness :
  exists st',
    executeTool flatWorld (Some (JString (str "getloggedhours"))) (str "u1")
      (str "employee") (JObject []) emptyState
    = (Returns UNKNOWN_TOOL, st')
    /\ queryLog st' = queryLog emptyState
    /\ toolResults st'
         !! toolCacheKey (Some (JString (str "getloggedhours"))) (str "u1") (JObject [])
       = None
    /\ toolCacheMiss st'
         (toolCacheKey (Some (JString (str "getloggedhours"))) (str "u1") (JObject []))
    /\ JSON_stringify UNKNOWN_TOOL = jq "{'error':'Unknown tool'}".
Proof.
  apply (unknown_tool_is_reported_not_run flatWorld
           (Some (JString (str "getloggedhours"))) (str "u1") (str "employee")
           (JObject []) emptyState).
  - intros (n & [= <-] & Hn). unfold TOOL_NAMES in Hn.
    repeat (apply elem_of_cons in Hn as [Hn|Hn]; [vm_compute in Hn; discriminate Hn|]).
    apply elem_of_nil in Hn. exact Hn.
  - reflexivity.
Defined.

(** *** What a turn leaves alone *)

Lemma store_get_frame {V} (now : nat) (k k' : CacheKey)
  (m : gmap CacheKey (CacheEntry V)) :
  k' <> k -> snd (store_get now k m) !! k' = m !! k'.
Proof.
  intros Hne. destruct (store_get now k m) as [r m'] eqn:S.
  apply store_get_lookup in S as [Ho _]. cbn [snd]. apply Ho, Hne.
Qed.

Lemma runTool_frame env tn u r p st o st' (k : CacheKey) :
  runTool env tn u r p st = (o, st') ->
  k <> toolCacheKey tn u p ->
  toolResults st' !! k = toolResults st !! k.
Proof.
  unfold runTool. intros H Hne.
  apply bind_inv in H as [(res & st1 & H1 & H)|(e & H1 & ->)].
  - assert (toolResults st1 = toolResults st) as T1.
    { destruct (toolQuery tn u r p) as [q|].
      - apply runQuery_grows in H1 as (_ & T & _). exact T.
      - injection H1 as _ <-. reflexivity. }
    apply bind_inv in H as [([] & st2 & H2 & H)|(e & H2 & ->)].
    + injection H as _ <-. destruct (cacheable res).
      * unfold setCachedToolResult in H2. injection H2 as <-. cbn [toolResults].
        unfold store_put. rewrite lookup_insert_ne by congruence. rewrite T1. reflexivity.
      * injection H2 as <-. rewrite T1. reflexivity.
    + destruct (cacheable res); discriminate.
  - destruct (toolQuery tn u r p) as [q|]; [|discriminate].
    apply runQuery_grows in H1 as (_ & T & _). rewrite T. reflexivity.
Qed.

Lemma executeTool_frame env tn u r p st o st' (k : CacheKey) :
  executeTool env tn u r p st = (o, st') ->
  k <> toolCacheKey tn u p ->
  toolResults st' !! k = toolResults st !! k.
Proof.
  unfold executeTool. intros H Hne.
  apply bind_inv in H as [([] & st1 & H1 & H)|(e & H1 & ->)]; [|discriminate H1].
  unfold logToolCall in H1. injection H1 as <-.
  apply bind_inv in H as [(c & st2 & H2 & H)|(e & H2 & ->)]; cycle 1.
  { unfold getCachedToolResult in H2. cbn in H2.
    destruct (store_get _ _ _); discriminate. }
  unfold getCachedToolResult in H2. cbn [toolResults clock] in H2.
  pose proof (store_get_frame (clock st) (toolCacheKey tn u p) k (toolResults st) Hne)
    as Hf.
  destruct (store_get (clock st) (toolCacheKey tn u p) (toolResults st)) as [c' m].
  cbn [snd] in Hf. injection H2 as <- <-.
  assert (forall o st', runTool env tn u r p
            {| toolResults := m; responses := responses st; clock := clock st;
               backendLog := backendLog st; toolLog := toolLog st ++ [(tn, p)];
               queryLog := queryLog st |} = (o, st') ->
          toolResults st' !! k = toolResults st !! k) as Hrun.
  { intros o1 st1 R. apply (runTool_frame _ _ _ _ _ _ _ _ k) in R; [|exact Hne].
    rewrite R. exact Hf. }
  destruct c' as [c|]; [|eapply Hrun, H].
  destruct (truthy c); [|eapply Hrun, H].
  injection H as _ <-. exact Hf.
Qed.

Lemma toolTurn_frame env u text hist ai payload st o st' :
  toolTurn env u text hist ai payload st = (o, st') ->
  exists tools,
    toolLog st' = toolLog st ++ tools
    /\ forall k,
         (forall toolName params,
            (toolName, params) ∈ tools -> k <> toolCacheKey toolName (user_id u) params) ->
         toolResults st' !! k = toolResults st !! k.
Proof.
  unfold toolTurn. intros H.
  assert (forall st0 : State, exists tools,
    toolLog st0 = toolLog st0 ++ tools
    /\ forall k,
         (forall toolName params,
            (toolName, params) ∈ tools -> k <> toolCacheKey toolName (user_id u) params) ->
         toolResults st0 !! k = toolResults st0 !! k) as Hnone.
  { intros st0. exists []. rewrite app_nil_r. auto. }
  apply bind_inv in H as [(toolCall & st1 & Ea & H)|(e & Ea & ->)]; cycle 1.
  { unfold lift in Ea. injection Ea as _ <-. apply Hnone. }
  unfold lift in Ea. destruct (JSON_parse payload) as [tc|] eqn:Hp; [|discriminate].
  injection Ea as <- <-.
  apply bind_inv in H as [(tool & st2 & Eb & H)|(e & Eb & ->)]; cycle 1.
  { unfold lift in Eb. injection Eb as _ <-. apply Hnone. }
  unfold lift in Eb. injection Eb as Eb <-.
  apply bind_inv in H as [(params & st3 & Ec & H)|(e & Ec & ->)]; cycle 1.
  { unfold lift in Ec. injection Ec as _ <-. apply Hnone. }
  unfold lift in Ec. injection Ec as Ec <-.
  assert (forall st4 o4,
            executeTool env tool (user_id u) (user_role u) (js_or params (JObject [])) st
            = (o4, st4) ->
            exists tools,
              toolLog st4 = toolLog st ++ tools
              /\ forall k,
                   (forall toolName params0,
                      (toolName, params0) ∈ tools ->
                      k <> toolCacheKey toolName (user_id u) params0) ->
                   toolResults st4 !! k = toolResults st !! k) as Hx.
  { intros st4 o4 X.
    pose proof (executeTool_grows _ _ _ _ _ _ _ _ X) as (qs & [_ Gt _ _] & _ & _).
    exists [(tool, js_or params (JObject []))]. split; [exact Gt|].
    intros k Hk. eapply executeTool_frame; [exact X|].
    apply Hk. apply elem_of_cons. auto. }
  apply bind_inv in H as [(toolResult & st4 & H4 & H)|(e & H4 & ->)].
  - apply Hx in H4 as (tools & Et & Hf).
    apply bind_inv in H as [(reply & st5 & H5 & H)|(e & H5 & ->)].
    + apply fetch_grows in H5 as (_ & [_ Ft _ _] & T5 & _).
      assert (st' = st5) as ->.
      { destruct reply; inversion H; reflexivity. }
      exists tools. rewrite Ft, app_nil_r, T5. auto.
    + apply fetch_grows in H5 as (Hf' & _). discriminate.
  - apply Hx in H4. exact H4.
Qed.

Lemma processRequest_frame env u text hist st o st' :
  processRequest env u text hist st = (o, st') ->
  exists tools,
    toolLog st' = toolLog st ++ tools
    /\ forall k,
         (forall toolName params,
            (toolName, params) ∈ tools -> k <> toolCacheKey toolName (user_id u) params) ->
         toolResults st' !! k = toolResults st !! k.
Proof.
  unfold processRequest. intros P.
  apply bind_inv in P as [(reply & st1 & H1 & P)|(e & H1 & ->)];
    [|apply fetch_grows in H1 as [? _]; discriminate].
  apply fetch_grows in H1 as (_ & [_ Gt _ _] & T1 & _). rewrite app_nil_r in Gt.
  destruct reply as [| |content mdl].
  - injection P as _ <-. exists []. rewrite app_nil_r, T1. auto.
  - injection P as _ <-. exists []. rewrite app_nil_r, T1. auto.
  - apply bind_inv in P as [(ai & st3 & H3 & P)|(e & H3 & ->)].
    + assert (exists tools,
                toolLog st3 = toolLog st1 ++ tools
                /\ forall k,
                     (forall toolName params,
                        (toolName, params) ∈ tools ->
                        k <> toolCacheKey toolName (user_id u) params) ->
                     toolResults st3 !! k = toolResults st1 !! k) as (tools & Et & Hf).
      { unfold toolStep in H3.
        destruct (includes TOOL_CALL (or_text content []));
          [|injection H3 as _ <-; exists []; rewrite app_nil_r; auto].
        destruct (first_directive TOOL_CALL (or_text content [])) as [[i payload]|];
          [|injection H3 as _ <-; exists []; rewrite app_nil_r; auto].
        unfold try_catch in H3.
        destruct (toolTurn env u text hist (or_text content []) payload st1)
          as [o1 st2] eqn:T.
        apply toolTurn_frame in T.
        assert (st3 = st2) as ->; [|exact T].
        destruct o1; inversion H3; reflexivity. }
      destruct (actionStep ai) as [cmd txt].
      apply bind_inv in P as [([] & st4 & H4 & P)|(e & H4 & ->)]; [|inversion H4].
      injection P as _ <-. unfold setCachedResponse in H4. injection H4 as <-.
      cbn [toolLog toolResults]. exists tools. rewrite Et, Gt.
      split; [reflexivity|]. intros k Hk. rewrite (Hf k Hk), T1. reflexivity.
    + apply toolStep_grows in H3 as ([a Ha] & _). discriminate.
Qed.

(** X12.  A turn writes to the caches only under its own keys: every
    entry of the response cache but the one of the request, and every
    entry of the tool cache but the one of the tool call the turn made
    for its user, is after the turn what it was before. *)
Theorem turn_leaves_other_entries_alone (env : Env) (req : Request) (st : State) :
  (forall k, requestKey req <> Some k ->
             responses (snd (chat env req st)) !! k = responses st !! k)
  /\ exists tools,
       toolLog (snd (chat env req st)) = toolLog st ++ tools
       /\ forall k,
            (forall toolName params,
               (toolName, params) ∈ tools ->
               k <> toolCacheKey toolName (user_id (user req)) params) ->
            toolResults (snd (chat env req st)) !! k = toolResults st !! k.
Proof.
  destruct (requestKey req) as [key|] eqn:K.
  - destruct (admitRequest_keyed req st key K)
      as [(r & A & _)|(st0 & A & _ & Hother & _)].
    + unfold chat. rewrite A. cbn [snd]. split; [reflexivity|].
      exists []. rewrite app_nil_r. auto.
    + pose proof (admitRequest_grows _ _ _ _ A) as ([_ Gt _ _] & T0 & _).
      rewrite app_nil_r in Gt.
      rewrite (chat_pending env req st key (textOf req) st0 A). cbn [snd].
      destruct (processRequest env (user req) (textOf req) (historyOf req) st0)
        as [o st2] eqn:P.
      cbn [snd]. split.
      * intros k Hk. destruct (requestKey_textOf req key K) as (_ & _ & Ek).
        rewrite (processRequest_responses _ _ _ _ _ _ _ P k) by congruence.
        apply Hother. congruence.
      * apply processRequest_frame in P as (tools & Et & Hf).
        exists tools. rewrite Et, Gt. split; [reflexivity|].
        intros k Hk. rewrite (Hf k Hk), T0. reflexivity.
  - destruct (admitRequest_invalid req st K) as (r & A).
    unfold chat. rewrite A. cbn [snd]. split; [reflexivity|].
    exists []. rewrite app_nil_r. auto.
Qed.

(** ** The action executor and the page it acts on *)

(** X13.  Whatever the command, when the action executor starts an
    effect: a click or a scroll is on an element the page has, the
    click on a selector of the registry or on the name of a property
    of [Object.prototype], the scroll on a section of the registry; a
    navigation goes to one of the paths of the registry, each beginning
    with a slash, unless the target is the name of a property of
    [Object.prototype], in which case [location.href] is set to the
    built-in of that name; and besides the modal functions of the
    registry the only functions it calls are the built-ins
    [constructor], [toString] and [isPrototypeOf]. *)
Theorem executor_effects_by_kind
  (dom : jsstring -> bool) (cmd : json) (e : UiEffect) :
  executeChatbotAction dom cmd = Executed e ->
  (forall selector, e = Click selector \/ e = ScrollTo selector -> dom selector = true)
  /\ (forall selector, e = Click selector ->
        selector ∈ map fst ACTION_REGISTRY_click \/ selector ∈ OBJECT_PROTOTYPE)
  /\ (forall selector, e = ScrollTo selector ->
        selector ∈ map snd ACTION_REGISTRY_scroll)
  /\ (forall url, e = Navigate url ->
        url ∈ map snd ACTION_REGISTRY_navigate /\ exists path, url = str "/" ++ path)
  /\ (forall name, e = NavigateBuiltin name ->
        name ∈ OBJECT_PROTOTYPE
        /\ own_property cmd (str "action") = Some (JString (str "navigate")))
  /\ (forall name, e = CallBuiltin name ->
        name ∈ [str "constructor"; str "toString"; str "isPrototypeOf"]
        /\ own_property cmd (str "action") = Some (JString (str "open_modal"))).
Proof.
  intros H. split; [|split; [|split; [|split; [|split]]]].
  - intros selector Hs. unfold executeChatbotAction in H.
    destruct (truthy cmd && truthy_val (own_property cmd (str "action")));
      [|discriminate].
    destruct (own_property cmd (str "action")) as [[| | |a| |]|]; try discriminate.
    repeat (destruct (decide _) in H); try discriminate.
    + unfold executeNavigate in H.
      destruct (own_property cmd (str "target")) as [t|]; [|discriminate].
      destruct (truthy t); [|discriminate].
      destruct (lookupRegistry _ _); try discriminate;
        injection H as <-; destruct Hs; discriminate.
    + unfold executeClick in H.
      destruct (own_property cmd (str "element")) as [t|]; [|discriminate].
      destruct (truthy t); [|discriminate].
      destruct (lookupRegistry _ _); try discriminate;
        (destruct (dom (to_text t)) eqn:D; [|discriminate]);
        injection H as <-; destruct Hs as [[= <-]|[=]]; exact D.
    + unfold executeScroll in H.
      destruct (own_property cmd (str "target")) as [t|]; [|discriminate].
      destruct (truthy t); [|discriminate].
      destruct (lookupRegistry _ _) as [sel| |]; try discriminate.
      destruct (dom sel) eqn:D; [|discriminate].
      injection H as <-. destruct Hs as [[=]|[= <-]]. exact D.
    + unfold executeOpenModal in H.
      destruct (own_property cmd (str "modal")) as [t|]; [|discriminate].
      destruct (truthy t); [|discriminate].
      destruct (lookupRegistry _ _); try discriminate.
      * injection H as <-. destruct Hs; discriminate.
      * destruct (bool_decide _); [|discriminate].
        injection H as <-. destruct Hs; discriminate.
  - intros selector ->. apply executor_effects_known in H. exact H.
  - intros selector ->. apply executor_effects_known in H as [H|[]]. exact H.
  - intros url ->. apply executor_effects_known in H as [H|[]].
    cbn [allowedEffect] in H. split; [exact H|].
    unfold ACTION_REGISTRY_navigate in H. cbn [map snd] in H.
    repeat (apply elem_of_cons in H as [->|H]; [eexists; reflexivity|]).
    apply elem_of_nil in H. destruct H.
  - intros name ->. split.
    + apply executor_effects_known in H as [[]|H]. exact H.
    + unfold executeChatbotAction in H.
      destruct (truthy cmd && truthy_val (own_property cmd (str "action")));
        [|discriminate].
      destruct (own_property cmd (str "action")) as [[| | |a| |]|]; try discriminate.
      destruct (decide (a = str "navigate")) as [->|]; [reflexivity|].
      exfalso. repeat (destruct (decide _) in H); try discriminate.
      * unfold executeClick in H.
        destruct (own_property cmd (str "element")) as [t|]; [|discriminate].
        destruct (truthy t); [|discriminate].
        destruct (lookupRegistry _ _); try discriminate;
          destruct (dom _); discriminate.
      * unfold executeScroll in H.
        destruct (own_property cmd (str "target")) as [t|]; [|discriminate].
        destruct (truthy t); [|discriminate].
        destruct (lookupRegistry _ _); try discriminate.
        destruct (dom _); discriminate.
      * unfold executeOpenModal in H.
        destruct (own_property cmd (str "modal")) as [t|]; [|discriminate].
        destruct (truthy t); [|discriminate].
        destruct (lookupRegistry _ _); try discriminate.
        destruct (bool_decide _); discriminate.
  - intros name ->. split.
    + apply executor_effects_known in H as [[]|H]. exact H.
    + unfold executeChatbotAction in H.
      destruct (truthy cmd && truthy_val (own_property cmd (str "action")));
        [|discriminate].
      destruct (own_property cmd (str "action")) as [[| | |a| |]|]; try discriminate.
      destruct (decide (a = str "navigate")) as [->|].
      { exfalso. unfold executeNavigate in H.
        destruct (own_property cmd (str "target")) as [t|]; [|discriminate].
        destruct (truthy t); [|discriminate].
        destruct (lookupRegistry _ _); discriminate. }
      destruct (decide (a = str "click")) as [->|].
      { exfalso. unfold executeClick in H.
        destruct (own_property cmd (str "element")) as [t|]; [|discriminate].
        destruct (truthy t); [|discriminate].
        destruct (lookupRegistry _ _); try discriminate;
          destruct (dom _); discriminate. }
      destruct (decide (a = str "scroll")) as [->|].
      { exfalso. unfold executeScroll in H.
        destruct (own_property cmd (str "target")) as [t|]; [|discriminate].
        destruct (truthy t); [|discriminate].
        destruct (lookupRegistry _ _); try discriminate.
        destruct (dom _); discriminate. }
      destruct (decide (a = str "open_modal")) as [->|]; [reflexivity|discriminate].
Qed.

(** The navigation that a built-in answers. *)
Lemma executor_effects_by_kind_witness :
  (forall selector,
     NavigateBuiltin (str "constructor") = Click selector
     \/ NavigateBuiltin (str "constructor") = ScrollTo selector ->
     (fun _ : jsstring => false) selector = true)
  /\ (forall selector, NavigateBuiltin (str "constructor") = Click selector ->
        selector ∈ map fst ACTION_REGISTRY_click \/ selector ∈ OBJECT_PROTOTYPE)
  /\ (forall selector, NavigateBuiltin (str "constructor") = ScrollTo selector ->
        selector ∈ map snd ACTION_REGISTRY_scroll)
  /\ (forall url, NavigateBuiltin (str "constructor") = Navigate url ->
        url ∈ map snd ACTION_REGISTRY_navigate /\ exists path, url = str "/" ++ path)
  /\ (forall name, NavigateBuiltin (str "constructor") = NavigateBuiltin name ->
        name ∈ OBJECT_PROTOTYPE
        /\ own_property constructorPage (str "action")
           = Some (JString (str "navigate")))
  /\ (forall name, NavigateBuiltin (str "constructor") = CallBuiltin name ->
        name ∈ [str "constructor"; str "toString"; str "isPrototypeOf"]
        /\ own_property constructorPage (str "action")
           = Some (JString (str "open_modal"))).
Proof.
  apply (executor_effects_by_kind (fun _ => false) constructorPage
           (NavigateBuiltin (str "constructor"))).
  vm_compute. reflexivity.
Defined.

(** The executor at work on each kind of command, for a key of the
    registry, for a string that is none, and for the name of a
    built-in, on a page that has every element asked for. *)
Lemma executor_examples :
  onFullPage "navigate" "target" "home" = Executed (Navigate (str "/home.html"))
  /\ onFullPage "navigate" "target" "https://example.org" = Refused
  /\ onFullPage "navigate" "target" "toString" = Executed (NavigateBuiltin (str "toString"))
  /\ onFullPage "navigate" "target" "__proto__" = Executed (NavigateBuiltin (str "__proto__"))
  /\ onFullPage "click" "element" "#checkInBtn" = Executed (Click (str "#checkInBtn"))
  /\ onFullPage "click" "element" "#deleteAllBtn" = Refused
  /\ onFullPage "click" "element" "constructor" = Executed (Click (str "constructor"))
  /\ onFullPage "scroll" "target" "tasks-section" = Executed (ScrollTo (str "#tasksSection"))
  /\ onFullPage "scroll" "target" "valueOf" = Refused
  /\ onFullPage "open_modal" "modal" "add-task" = Executed (OpenModal (str "#addTaskBtn"))
  /\ onFullPage "open_modal" "modal" "toString" = Executed (CallBuiltin (str "toString"))
  /\ onFullPage "open_modal" "modal" "valueOf" = Refused
  /\ onFullPage "open_modal" "modal" "__proto__" = Refused
  /\ onFullPage "open_modal" "modal" "delete-account" = Refused.
Proof. repeat split; vm_compute; reflexivity. Qed.

(** ** The chat page *)

Lemma spaced_snoc (since : Z) (l : list Outgoing) (o : Outgoing) :
  spaced since (l ++ [o])
  = spaced since l && (lastSent since l + DEBOUNCE_DELAY <=? sentAt o)%Z.
Proof.
  revert since. induction l as [|a l IH]; intros since.
  - cbn. rewrite andb_true_r. reflexivity.
  - cbn [app spaced]. rewrite IH, andb_assoc. f_equal. f_equal.
    unfold lastSent. destruct l as [|b l]; [reflexivity|].
    cbn [last]. destruct (last (b :: l)) eqn:E; [reflexivity|].
    apply last_None in E. discriminate.
Qed.

Lemma lastSent_snoc (since : Z) (l : list Outgoing) (o : Outgoing) :
  lastSent since (l ++ [o]) = sentAt o.
Proof. unfold lastSent. rewrite last_snoc. reflexivity. Qed.

Lemma stepPage_spaced (pg : Page) (ev : PageEvent) :
  spaced 0 (sent pg) = true ->
  lastSendTime pg = lastSent 0 (sent pg) ->
  Forall (fun o => body_message o <> [] /\ length (body_history o) <= 10) (sent pg) ->
  spaced 0 (sent (stepPage pg ev)) = true
  /\ lastSendTime (stepPage pg ev) = lastSent 0 (sent (stepPage pg ev))
  /\ Forall (fun o => body_message o <> [] /\ length (body_history o) <= 10)
       (sent (stepPage pg ev)).
Proof.
  intros Hs Hl Hf. destruct ev as [|text|now storage|token status|dom msg status data|];
    cbn [stepPage].
  - auto.
  - auto.
  - unfold sendMessage.
    destruct (trim (inputValue pg)) as [|c t] eqn:T; [cbn; auto|].
    cbn [length Nat.eqb orb]. destruct (isTyping pg); [auto|].
    destruct (now - lastSendTime pg <? DEBOUNCE_DELAY)%Z eqn:D; [auto|].
    cbn [sent lastSendTime]. rewrite spaced_snoc, lastSent_snoc, Hs, <- Hl. cbn [sentAt].
    split; [|split; [reflexivity|]].
    + cbn [andb]. apply Z.leb_le. apply Z.ltb_ge in D. lia.
    + apply Forall_app. split; [exact Hf|]. constructor; [|constructor].
      cbn [body_message body_history]. split; [discriminate | apply last_n_length].
  - unfold responseArrived.
    destruct token as [[|c t]|]; try (cbn; auto).
    destruct ((status =? 401)%N || (status =? 403)%N); cbn; auto.
  - unfold bodyArrived. destruct data; try (cbn; auto);
      destruct (is_ok status); cbn; auto.
  - cbn. auto.
Qed.

(** X14.  Whatever the user does and however the answers arrive, two
    requests of the page are at least [DEBOUNCE_DELAY] (300 ms) apart,
    each carries a message that is not empty and at most the last ten
    entries of the conversation. *)
Theorem sends_are_spaced (events : list PageEvent) :
  spaced 0 (sent (runPage events)) = true
  /\ Forall (fun o => body_message o <> [] /\ length (body_history o) <= 10)
       (sent (runPage events)).
Proof.
  unfold runPage.
  assert (spaced 0 (sent initialPage) = true
          /\ lastSendTime initialPage = lastSent 0 (sent initialPage)
          /\ Forall (fun o => body_message o <> [] /\ length (body_history o) <= 10)
               (sent initialPage)) as H.
  { cbn. auto. }
  revert H. generalize initialPage.
  induction events as [|ev events IH]; intros pg (Hs & Hl & Hf); [auto|].
  cbn [fold_left]. apply IH, stepPage_spaced; assumption.
Qed.

Lemma stepPage_history (pg : Page) (ev : PageEvent) :
  chatHistory (stepPage pg ev) = chatHistory pg ++ exchange ev.
Proof.
  destruct ev as [|text|now storage|token status|dom msg status data|];
    cbn [stepPage exchange]; rewrite ?app_nil_r; try reflexivity.
  - unfold sendMessage. destruct (_ || _); [reflexivity|].
    destruct (_ <? _)%Z; reflexivity.
  - unfold responseArrived. destruct token as [[|c t]|]; try reflexivity.
    destruct (_ || _); reflexivity.
  - unfold bodyArrived.
    destruct data; rewrite ?app_nil_r; try reflexivity;
      destruct (is_ok status); rewrite ?app_nil_r; reflexivity.
Qed.

Lemma runPage_history (events : list PageEvent) :
  chatHistory (runPage events) = flat_map exchange events.
Proof.
  unfold runPage.
  assert (forall pg, chatHistory (fold_left stepPage events pg)
                     = chatHistory pg ++ flat_map exchange events) as H.
  { induction events as [|ev events IH]; intros pg; cbn [fold_left flat_map].
    - rewrite app_nil_r. reflexivity.
    - rewrite IH, stepPage_history, <- app_assoc. reflexivity. }
  apply H.
Qed.

Lemma exchange_exchanges (ev : PageEvent) : exists ps, exchange ev = exchanges ps.
Proof.
  destruct ev as [| | | |dom msg status data|]; try (exists []; reflexivity).
  cbn [exchange].
  destruct data; try (exists []; reflexivity);
    (destruct (is_ok status); [|exists []; reflexivity]);
    eexists [(msg, _)]; reflexivity.
Qed.

Lemma flat_map_exchange (events : list PageEvent) :
  exists ps, flat_map exchange events = exchanges ps.
Proof.
  induction events as [|ev events [ps IH]]; [exists []; reflexivity|].
  destruct (exchange_exchanges ev) as [p1 E]. exists (p1 ++ ps).
  cbn [flat_map]. rewrite E, IH. unfold exchanges. rewrite flat_map_app. reflexivity.
Qed.

Lemma exchanges_roles (ps : list (jsstring * jsval)) (i : nat) (e : ChatEntry) :
  exchanges ps !! i = Some e -> entry_role e = roleAt i.
Proof.
  revert i. induction ps as [|p ps IH]; intros i H; [discriminate|].
  destruct i as [|[|i]].
  - injection H as <-. reflexivity.
  - injection H as <-. reflexivity.
  - apply IH in H. rewrite H. reflexivity.
Qed.

Lemma exchanges_length (ps : list (jsstring * jsval)) :
  length (exchanges ps) = 2 * length ps.
Proof.
  induction ps as [|p ps IH]; [reflexivity|].
  unfold exchanges in *. cbn [flat_map app length]. rewrite IH. lia.
Qed.

Lemma exchanges_drop (k : nat) (ps : list (jsstring * jsval)) :
  drop (2 * k) (exchanges ps) = exchanges (drop k ps).
Proof.
  revert ps. induction k as [|k IH]; intros ps; [reflexivity|].
  destruct ps as [|p ps]; [reflexivity|].
  replace (2 * S k) with (S (S (2 * k))) by lia. cbn [exchanges flat_map app drop].
  apply IH.
Qed.

Lemma exchanges_last_n (k : nat) (ps : list (jsstring * jsval)) :
  last_n (2 * k) (exchanges ps) = exchanges (last_n k ps).
Proof.
  unfold last_n. rewrite exchanges_length.
  replace (2 * length ps - 2 * k) with (2 * (length ps - k)) by lia.
  apply exchanges_drop.
Qed.

(** X15.  The conversation the page keeps is exactly the exchanges that
    completed, in the order their answers were read: the message of the
    user and the answer, for each body read from an [ok] response;
    nothing for a failed or refused request.  So it always alternates
    user, assistant, and never ends on a message of the user. *)
Theorem history_is_the_completed_exchanges (events : list PageEvent) :
  chatHistory (runPage events) = flat_map exchange events
  /\ (forall i e, chatHistory (runPage events) !! i = Some e -> entry_role e = roleAt i)
  /\ Nat.even (length (chatHistory (runPage events))) = true.
Proof.
  split; [apply runPage_history|].
  rewrite runPage_history. destruct (flat_map_exchange events) as [ps ->].
  split; [intros i e; apply exchanges_roles|].
  rewrite exchanges_length. rewrite Nat.even_mul. reflexivity.
Qed.

Lemma last_n_all {A} (n : nat) (l : list A) : length l <= n -> last_n n l = l.
Proof. intros H. unfold last_n. replace (length l - n) with 0 by lia. reflexivity. Qed.

Lemma stepPage_windows (pg : Page) (ev : PageEvent) :
  (exists ps, chatHistory pg = exchanges ps) ->
  Forall (fun o => body_message o <> []
                   /\ exists ps, body_history o = exchanges ps /\ length ps <= 5)
    (sent pg) ->
  (exists ps, chatHistory (stepPage pg ev) = exchanges ps)
  /\ Forall (fun o => body_message o <> []
                      /\ exists ps, body_history o = exchanges ps /\ length ps <= 5)
       (sent (stepPage pg ev)).
Proof.
  intros [ps Hh] Hf. split.
  - rewrite stepPage_history, Hh. destruct (exchange_exchanges ev) as [p1 ->].
    exists (ps ++ p1). unfold exchanges. rewrite flat_map_app. reflexivity.
  - destruct ev as [|text|now storage|token status|dom msg status data|];
      cbn [stepPage]; try exact Hf.
    + unfold sendMessage.
      destruct (trim (inputValue pg)) as [|c t] eqn:T; [exact Hf|].
      cbn [length Nat.eqb orb]. destruct (isTyping pg); [exact Hf|].
      destruct (now - lastSendTime pg <? DEBOUNCE_DELAY)%Z; [exact Hf|].
      cbn [sent]. apply Forall_app. split; [exact Hf|]. constructor; [|constructor].
      cbn [body_message body_history]. split; [discriminate|].
      exists (last_n 5 ps). rewrite Hh. split; [apply (exchanges_last_n 5)|].
      apply last_n_length.
    + unfold responseArrived. destruct token as [[|c t]|]; try exact Hf.
      destruct (_ || _); exact Hf.
    + unfold bodyArrived. destruct data; try exact Hf;
        destruct (is_ok status); exact Hf.
Qed.

(** X16.  Every request of the page passes the validation of the route,
    and the route hands its history to the backend whole: what the page
    sends is already the window of ten that the route would cut.  That
    window is made of whole exchanges, so the prompt alternates user and
    assistant after the system message and ends with the new message of
    the user. *)
Theorem page_requests_fit_the_route (events : list PageEvent) (env : Env) (u : User) :
  Forall (fun o =>
            nonEmptyText (message (requestOf u o))
            /\ chatMessages env u (body_message o) (historyOf (requestOf u o))
               = chatMessage (str "system") (contextPrompt env u)
                 :: map entryJson (body_history o)
                 ++ [chatMessage (str "user") (body_message o)]
            /\ (forall i e, body_history o !! i = Some e -> entry_role e = roleAt i)
            /\ Nat.even (length (body_history o)) = true)
    (sent (runPage events)).
Proof.
  assert (Forall (fun o => body_message o <> []
                   /\ exists ps, body_history o = exchanges ps /\ length ps <= 5)
            (sent (runPage events))) as H.
  { unfold runPage.
    assert ((exists ps, chatHistory initialPage = exchanges ps)
            /\ Forall (fun o => body_message o <> []
                        /\ exists ps, body_history o = exchanges ps /\ length ps <= 5)
                 (sent initialPage)) as H0.
    { split; [exists []; reflexivity | constructor]. }
    revert H0. generalize initialPage.
    induction events as [|ev events IH]; intros pg [Hh Hf]; [exact Hf|].
    cbn [fold_left]. apply IH, stepPage_windows; assumption. }
  eapply Forall_impl; [exact H|]. cbn beta.
  intros o (Hm & ps & Hb & Hl). split; [|split; [|split]].
  - unfold nonEmptyText, requestOf. cbn [message].
    destruct (body_message o) as [|c t]; [congruence|]. eauto.
  - unfold chatMessages, requestOf, historyOf. cbn [history].
    rewrite last_n_all; [reflexivity|].
    rewrite length_map, Hb, exchanges_length. lia.
  - intros i e. rewrite Hb. apply exchanges_roles.
  - rewrite Hb, exchanges_length, Nat.even_mul. reflexivity.
Qed.
(** The page at work: the second click and the send that comes 200 ms
    after the first are dropped; the refused request leaves the
    conversation as it was. *)
Lemma busy_day_on_the_page :
  map sentAt (sent (runPage busyDay)) = [1000%Z; 1350%Z]
  /\ map body_message (sent (runPage busyDay))
     = [str "What tasks do I have?"; str "Open my dashboard"]
  /\ map body_history (sent (runPage busyDay))
     = [[];
        [userEntry (str "What tasks do I have?");
         assistantEntry (Some (JString (str "You have 2 pending tasks.")))]]
  /\ chatHistory (runPage busyDay)
     = [userEntry (str "What tasks do I have?");
        assistantEntry (Some (JString (str "You have 2 pending tasks.")))]
  /\ shown (runPage busyDay)
     = [(str "What tasks do I have?", FromUser);
        (str "You have 2 pending tasks.", FromBot);
        (str "Open my dashboard", FromUser);
        (str "Sorry, I encountered an error. Failed to process your request", FromBot)]
  /\ isTyping (runPage busyDay) = false.
Proof. repeat split; vm_compute; reflexivity. Qed.

(** ** What the page shows *)

Lemma units_app (c : N) (a b : jsstring) : units c (a ++ b) = units c a + units c b.
Proof. unfold units. rewrite filter_app, length_app. reflexivity. Qed.

Lemma units_cons (c x : N) (s : jsstring) :
  units c (x :: s) = (if decide (x = c) then 1 else 0) + units c s.
Proof.
  unfold units. destruct (decide (x = c)) as [->|Hne].
  - rewrite filter_cons_True by reflexivity. reflexivity.
  - rewrite filter_cons_False by exact Hne. reflexivity.
Qed.

Lemma units_none (c : N) (s : jsstring) : c ∉ s -> units c s = 0.
Proof.
  induction s as [|x s IH]; [reflexivity|]. intros H.
  apply not_elem_of_cons in H as [Hne Hs]. rewrite units_cons, (IH Hs).
  destruct (decide (x = c)); [congruence | reflexivity].
Qed.

(** A replacement keeps the code units that each of its matches keeps. *)
Lemma replace_all_keeps (c : N) (matcher : jsstring -> option (jsstring * jsstring)) :
  (forall s replacement rest,
     matcher s = Some (replacement, rest) ->
     units c s <= units c replacement + units c rest) ->
  forall fuel s, units c s <= units c (replace_all fuel matcher s).
Proof.
  intros Hm. induction fuel as [|f IH]; intros s; [reflexivity|].
  destruct s as [|x r]; [reflexivity|]. cbn [replace_all].
  destruct (matcher (x :: r)) as [[replacement rest]|] eqn:M.
  - rewrite units_app. specialize (Hm _ _ _ M). specialize (IH rest). lia.
  - rewrite !units_cons. specialize (IH r). lia.
Qed.

(** A replacement whose pattern begins with a code unit that the text
    does not have leaves the text as it is. *)
Lemma replace_all_same (d : N) (matcher : jsstring -> option (jsstring * jsstring)) :
  (forall x r, x <> d -> matcher (x :: r) = None) ->
  forall fuel s, d ∉ s -> replace_all fuel matcher s = s.
Proof.
  intros Hm. induction fuel as [|f IH]; intros s Hs; [reflexivity|].
  destruct s as [|x r]; [reflexivity|]. cbn [replace_all].
  apply not_elem_of_cons in Hs as [Hne Hr].
  rewrite (Hm x r) by congruence. rewrite (IH r Hr). reflexivity.
Qed.

Lemma span_not_app (c : N) (s a b : jsstring) :
  span_not c s = (a, b) -> s = a ++ b.
Proof.
  revert a b. induction s as [|x s IH]; intros a b; cbn.
  - intros [= <- <-]. reflexivity.
  - destruct (x =? c)%N; [intros [= <- <-]; reflexivity|].
    destruct (span_not c s) as [a' b']. intros [= <- <-].
    rewrite (IH a' b' eq_refl). reflexivity.
Qed.

Lemma delimited_at_keeps (delimiter : jsstring) (c d : N) (s group rest : jsstring) :
  d ∉ delimiter ->
  delimited_at delimiter c s = Some (group, rest) ->
  units d s = units d group + units d rest.
Proof.
  intros Hd. unfold delimited_at.
  destruct (strip_prefix delimiter s) as [r1|] eqn:P1; [|discriminate].
  destruct (span_not c r1) as [[|b body] r2] eqn:S; [discriminate|].
  destruct (strip_prefix delimiter r2) as [r3|] eqn:P2; [|discriminate].
  intros [= <- <-].
  apply strip_prefix_app in P1, P2. apply span_not_app in S. subst s r1 r2.
  rewrite !units_app, (units_none d delimiter Hd). lia.
Qed.

Lemma skip_word_units (d : N) (s : jsstring) :
  is_word d = false -> units d s = units d (skip_word s).
Proof.
  intros Hd. induction s as [|x s IH]; [reflexivity|]. cbn [skip_word].
  destruct (is_word x) eqn:W; [|reflexivity].
  rewrite units_cons, IH. destruct (decide (x = d)); [congruence | reflexivity].
Qed.

Lemma until_fence_keeps (d : N) (s code rest : jsstring) :
  d <> 96%N ->
  until_fence s = Some (code, rest) ->
  units d s = units d code + units d rest.
Proof.
  intros Hd. revert code rest. induction s as [|x s IH]; intros code rest.
  - cbn. discriminate.
  - cbn [until_fence].
    destruct (strip_prefix FENCE (x :: s)) as [r|] eqn:P.
    + intros [= <- <-]. apply strip_prefix_app in P. rewrite P, units_app.
      rewrite (units_none d FENCE); [reflexivity|].
      unfold FENCE. rewrite !not_elem_of_cons. repeat split; auto.
      apply not_elem_of_nil.
    + destruct (until_fence s) as [[code' rest']|]; [|discriminate].
      intros [= <- <-]. rewrite !units_cons, (IH code' rest' eq_refl). lia.
Qed.

Lemma fenced_at_keeps (d : N) (s code rest : jsstring) :
  d <> 96%N -> d <> 10%N -> is_word d = false ->
  fenced_at s = Some (code, rest) ->
  units d s = units d code + units d rest.
Proof.
  intros H1 H2 Hw. unfold fenced_at.
  destruct (strip_prefix FENCE s) as [r1|] eqn:P; [|discriminate].
  destruct (skip_word r1) as [|x r2] eqn:K; [discriminate|].
  destruct (x =? 10)%N eqn:X; [|discriminate].
  apply N.eqb_eq in X. subst x. intros U.
  apply strip_prefix_app in P. subst s. rewrite units_app.
  rewrite (units_none d FENCE).
  2:{ unfold FENCE. rewrite !not_elem_of_cons. repeat split; auto.
      apply not_elem_of_nil. }
  rewrite (skip_word_units d r1 Hw), K, units_cons.
  destruct (decide (10%N = d)); [congruence|].
  apply (until_fence_keeps d _ _ _ H1 U).
Qed.

Lemma wrap_keeps (d : N) (opening closing : jsstring)
  (m : option (jsstring * jsstring)) (s replacement rest : jsstring) :
  (forall group r, m = Some (group, r) -> units d s = units d group + units d r) ->
  wrap opening closing m = Some (replacement, rest) ->
  units d s <= units d replacement + units d rest.
Proof.
  intros Hm. destruct m as [[group r]|]; [|discriminate].
  intros [= <- <-]. rewrite !units_app, (Hm group r eq_refl). lia.
Qed.

Lemma fenced_at_head (x : N) (r : jsstring) : x <> 96%N -> fenced_at (x :: r) = None.
Proof.
  intros Hx. unfold fenced_at, FENCE. cbn [strip_prefix].
  destruct (96 =? x)%N eqn:E; [|reflexivity].
  apply N.eqb_eq in E. congruence.
Qed.

Lemma delimited_at_head (delimiter : jsstring) (d c x : N) (r : jsstring) :
  x <> d -> delimited_at (d :: delimiter) c (x :: r) = None.
Proof.
  intros Hx. unfold delimited_at. cbn [strip_prefix].
  destruct (d =? x)%N eqn:E; [|reflexivity].
  apply N.eqb_eq in E. congruence.
Qed.

(** X17.  [addMessage] escapes nothing: a code unit that is neither a
    backtick, an asterisk, a line feed nor a word character, so every
    angle bracket, ampersand and quotation mark of the text, is in the
    HTML at least as often as in the text; and a text without backtick,
    asterisk and line feed becomes the HTML as it is. *)
Theorem markup_is_not_escaped (text : jsstring) :
  (forall c, c <> 96%N -> c <> 42%N -> c <> 10%N -> is_word c = false ->
             units c text <= units c (formattedText text))
  /\ (96%N ∉ text -> 42%N ∉ text -> 10%N ∉ text -> formattedText text = text).
Proof.
  split.
  - intros c H1 H2 H3 Hw. unfold formattedText, replace_each.
    etransitivity; [|apply replace_all_keeps].
    2:{ intros s rep rest M. unfold line_feed_at in M.
        destruct s as [|x r]; [discriminate|].
        destruct (x =? 10)%N eqn:X; [|discriminate]. injection M as <- <-.
        apply N.eqb_eq in X. subst x. rewrite units_cons.
        destruct (decide (10%N = c)); [congruence | lia]. }
    etransitivity; [|apply replace_all_keeps].
    2:{ intros s rep rest. apply wrap_keeps. intros group r.
        apply delimited_at_keeps. rewrite not_elem_of_cons.
        split; [exact H2 | apply not_elem_of_nil]. }
    etransitivity; [|apply replace_all_keeps].
    2:{ intros s rep rest. apply wrap_keeps. intros group r.
        apply delimited_at_keeps. rewrite !not_elem_of_cons.
        repeat split; auto. apply not_elem_of_nil. }
    etransitivity; [|apply replace_all_keeps].
    2:{ intros s rep rest. apply wrap_keeps. intros group r.
        apply delimited_at_keeps. rewrite not_elem_of_cons.
        split; [exact H1 | apply not_elem_of_nil]. }
    apply replace_all_keeps.
    intros s rep rest. apply wrap_keeps. intros group r.
    apply fenced_at_keeps; assumption.
  - intros H1 H2 H3. unfold formattedText, replace_each.
    rewrite (replace_all_same 96%N
               (fun s => wrap (str "<pre><code>") (str "</code></pre>") (fenced_at s))
               (fun x r Hx => f_equal _ (fenced_at_head x r Hx)) _ text H1).
    rewrite (replace_all_same 96%N
               (fun s => wrap (str "<code>") (str "</code>") (delimited_at [96%N] 96 s))
               (fun x r Hx => f_equal _ (delimited_at_head [] 96 96 x r Hx)) _ text H1).
    rewrite (replace_all_same 42%N
               (fun s => wrap (str "<strong>") (str "</strong>")
                           (delimited_at [42%N; 42%N] 42 s))
               (fun x r Hx => f_equal _ (delimited_at_head [42%N] 42 42 x r Hx)) _ text H2).
    rewrite (replace_all_same 42%N
               (fun s => wrap (str "<em>") (str "</em>") (delimited_at [42%N] 42 s))
               (fun x r Hx => f_equal _ (delimited_at_head [] 42 42 x r Hx)) _ text H2).
    apply (replace_all_same 10%N line_feed_at); [|exact H3].
    intros x r Hx. unfold line_feed_at.
    destruct (x =? 10)%N eqn:E; [|reflexivity].
    apply N.eqb_eq in E. congruence.
Qed.

(** The steps of a replacement consume the text: the length of the text
    is fuel enough, and more changes nothing. *)
Lemma replace_all_fuel (matcher : jsstring -> option (jsstring * jsstring)) :
  (forall s replacement rest,
     matcher s = Some (replacement, rest) -> length rest < length s) ->
  forall f g s, length s <= f -> length s <= g ->
                replace_all f matcher s = replace_all g matcher s.
Proof.
  intros Hm. induction f as [|f IH]; intros g s Hf Hg.
  - destruct s; [|cbn in Hf; lia]. destruct g; reflexivity.
  - destruct s as [|x r]; [destruct g; reflexivity|].
    destruct g as [|g]; [cbn in Hg; lia|]. cbn [length replace_all] in *.
    destruct (matcher (x :: r)) as [[replacement rest]|] eqn:M.
    + apply Hm in M. cbn [length] in M. rewrite (IH g rest) by lia. reflexivity.
    + rewrite (IH g r) by lia. reflexivity.
Qed.

Lemma delimited_at_consumes (d : N) (delimiter : jsstring) (c : N)
  (s group rest : jsstring) :
  delimited_at (d :: delimiter) c s = Some (group, rest) -> length rest < length s.
Proof.
  unfold delimited_at.
  destruct (strip_prefix (d :: delimiter) s) as [r1|] eqn:P1; [|discriminate].
  destruct (span_not c r1) as [[|b body] r2] eqn:S; [discriminate|].
  destruct (strip_prefix (d :: delimiter) r2) as [r3|] eqn:P2; [|discriminate].
  intros [= <- <-].
  apply strip_prefix_app in P1, P2. apply span_not_app in S. subst s r1 r2.
  rewrite !length_app. cbn [length]. lia.
Qed.

Lemma until_fence_consumes (s code rest : jsstring) :
  until_fence s = Some (code, rest) -> length rest < length s.
Proof.
  revert code rest. induction s as [|x s IH]; intros code rest.
  - cbn. discriminate.
  - cbn [until_fence]. destruct (strip_prefix FENCE (x :: s)) as [r|] eqn:P.
    + intros [= <- <-]. apply strip_prefix_app in P. rewrite P, length_app.
      cbn [length FENCE]. lia.
    + destruct (until_fence s) as [[code' rest']|]; [|discriminate].
      intros [= <- <-]. specialize (IH code' rest' eq_refl). cbn [length]. lia.
Qed.

Lemma skip_word_length (s : jsstring) : length (skip_word s) <= length s.
Proof.
  induction s as [|x s IH]; [reflexivity|]. cbn [skip_word].
  destruct (is_word x); cbn [length]; lia.
Qed.

Lemma fenced_at_consumes (s code rest : jsstring) :
  fenced_at s = Some (code, rest) -> length rest < length s.
Proof.
  unfold fenced_at.
  destruct (strip_prefix FENCE s) as [r1|] eqn:P; [|discriminate].
  destruct (skip_word r1) as [|x r2] eqn:K; [discriminate|].
  destruct (x =? 10)%N; [|discriminate]. intros U.
  apply until_fence_consumes in U. apply strip_prefix_app in P. subst s.
  pose proof (skip_word_length r1) as L. rewrite K in L. cbn [length] in L.
  rewrite length_app. lia.
Qed.

Lemma wrap_consumes (opening closing : jsstring) (m : option (jsstring * jsstring))
  (s replacement rest : jsstring) :
  (forall group r, m = Some (group, r) -> length r < length s) ->
  wrap opening closing m = Some (replacement, rest) -> length rest < length s.
Proof.
  intros Hm. destruct m as [[group r]|]; [|discriminate].
  intros [= <- <-]. apply (Hm group r eq_refl).
Qed.

(** Each of the five patterns consumes what it matches, so the length
    of the text is fuel enough for each replacement. *)
Lemma formattedText_fuel (fuel : nat) (s : jsstring) :
  length s <= fuel ->
  replace_all fuel (fun s => wrap (str "<pre><code>") (str "</code></pre>") (fenced_at s)) s
  = replace_each (fun s => wrap (str "<pre><code>") (str "</code></pre>") (fenced_at s)) s
  /\ replace_all fuel
       (fun s => wrap (str "<code>") (str "</code>") (delimited_at [96%N] 96 s)) s
     = replace_each
         (fun s => wrap (str "<code>") (str "</code>") (delimited_at [96%N] 96 s)) s
  /\ replace_all fuel
       (fun s => wrap (str "<strong>") (str "</strong>") (delimited_at [42%N; 42%N] 42 s)) s
     = replace_each
         (fun s => wrap (str "<strong>") (str "</strong>")
                     (delimited_at [42%N; 42%N] 42 s)) s
  /\ replace_all fuel
       (fun s => wrap (str "<em>") (str "</em>") (delimited_at [42%N] 42 s)) s
     = replace_each (fun s => wrap (str "<em>") (str "</em>") (delimited_at [42%N] 42 s)) s
  /\ replace_all fuel line_feed_at s = replace_each line_feed_at s.
Proof.
  intros Hf. unfold replace_each.
  repeat split; apply replace_all_fuel; try lia.
  - intros t rep rest. apply wrap_consumes. intros group r. apply fenced_at_consumes.
  - intros t rep rest. apply wrap_consumes. intros group r. apply delimited_at_consumes.
  - intros t rep rest. apply wrap_consumes. intros group r. apply delimited_at_consumes.
  - intros t rep rest. apply wrap_consumes. intros group r. apply delimited_at_consumes.
  - intros t rep rest M. unfold line_feed_at in M. destruct t as [|x r]; [discriminate|].
    destruct (x =? 10)%N; [|discriminate]. injection M as _ <-. cbn [length]. lia.
Qed.

(** The page shows the markup of an answer as markup. *)
Lemma marked_up_answer :
  formattedText markedUp
  = str "Done! <img src=x onerror=alert(1)> See <strong>Tasks</strong> and <code>npm test</code>."
  /\ formattedText (str "```js" ++ [10%N] ++ str "let a = 1;" ++ [10%N] ++ str "``` and *so* on")
     = str "<pre><code>let a = 1;<br></code></pre> and <em>so</em> on".
Proof. split; vm_compute; reflexivity. Qed.

(** ** The data tools that only compute *)

(** *** Tables and counts *)

Lemma has_key_assoc {A} (k : jsstring) (fs : list (jsstring * A)) :
  has_key k fs = match assoc k fs with Some _ => true | None => false end.
Proof.
  induction fs as [|[k' v] fs IH]; [reflexivity|]. cbn.
  destruct (decide (k = k')); [reflexivity | exact IH].
Qed.

Lemma assoc_replace_value {A} (k : jsstring) (v : A) (fs : list (jsstring * A))
  (k' : jsstring) :
  assoc k' (replace_value k v fs)
  = if decide (k' = k) then (if has_key k fs then Some v else None) else assoc k' fs.
Proof.
  induction fs as [|[k0 v0] fs IH]; cbn.
  - destruct (decide (k' = k)); reflexivity.
  - destruct (decide (k = k0)) as [->|Hne]; cbn.
    + destruct (decide (k' = k0)); reflexivity.
    + destruct (decide (k' = k0)) as [->|Hne'].
      * destruct (decide (k0 = k)); [congruence | reflexivity].
      * exact IH.
Qed.

Lemma assoc_insert_new {A} (k : jsstring) (v : A) (fs : list (jsstring * A))
  (k' : jsstring) :
  has_key k fs = false ->
  assoc k' (insert_new k v fs) = if decide (k' = k) then Some v else assoc k' fs.
Proof.
  induction fs as [|[k0 v0] fs IH]; cbn; intros Hk.
  - destruct (decide (k' = k)); reflexivity.
  - destruct (decide (k = k0)) as [->|Hne]; [discriminate|].
    assert (assoc k' ((k, v) :: (k0, v0) :: fs)
            = if decide (k' = k) then Some v else assoc k' ((k0, v0) :: fs)) as Hhead.
    { cbn. reflexivity. }
    assert (assoc k' ((k0, v0) :: insert_new k v fs)
            = if decide (k' = k) then Some v else assoc k' ((k0, v0) :: fs)) as Htail.
    { cbn. rewrite (IH Hk).
      destruct (decide (k' = k0)) as [->|]; [|reflexivity].
      destruct (decide (k0 = k)); [congruence | reflexivity]. }
    destruct (array_index k), (array_index k0); try exact Htail; try exact Hhead.
    destruct (_ <? _)%N; [exact Hhead | exact Htail].
Qed.

Lemma assoc_set_prop {A} (fs : list (jsstring * A)) (k : jsstring) (v : A)
  (k' : jsstring) :
  assoc k' (set_prop fs (k, v)) = if decide (k' = k) then Some v else assoc k' fs.
Proof.
  unfold set_prop. cbn [fst snd]. destruct (has_key k fs) eqn:H.
  - rewrite assoc_replace_value, H. reflexivity.
  - apply assoc_insert_new, H.
Qed.

Lemma keys_replace_value {A} (k : jsstring) (v : A) (fs : list (jsstring * A)) :
  map fst (replace_value k v fs) = map fst fs.
Proof.
  induction fs as [|[k0 v0] fs IH]; [reflexivity|]. cbn.
  destruct (decide (k = k0)); cbn; [reflexivity | rewrite IH; reflexivity].
Qed.

Lemma keys_insert_new {A} (k : jsstring) (v : A) (fs : list (jsstring * A)) :
  map fst (insert_new k v fs) ≡ₚ k :: map fst fs.
Proof.
  induction fs as [|[k0 v0] fs IH]; [reflexivity|]. cbn.
  assert (k0 :: map fst (insert_new k v fs) ≡ₚ k :: k0 :: map fst fs) as Htail.
  { rewrite IH. apply Permutation_swap. }
  destruct (array_index k), (array_index k0); try exact Htail; try reflexivity.
  destruct (_ <? _)%N; [reflexivity | exact Htail].
Qed.

Lemma assoc_None_keys {A} (k : jsstring) (fs : list (jsstring * A)) :
  assoc k fs = None <-> k ∉ map fst fs.
Proof.
  induction fs as [|[k0 v0] fs IH]; cbn.
  - split; [intros _; apply not_elem_of_nil | reflexivity].
  - rewrite not_elem_of_cons. destruct (decide (k = k0)) as [->|Hne].
    + split; [discriminate | intros [? _]; congruence].
    + rewrite IH. tauto.
Qed.

Lemma NoDup_set_prop {A} (fs : list (jsstring * A)) (k : jsstring) (v : A) :
  NoDup (map fst fs) -> NoDup (map fst (set_prop fs (k, v))).
Proof.
  intros H. unfold set_prop. cbn [fst snd]. destruct (has_key k fs) eqn:Hk.
  - rewrite keys_replace_value. exact H.
  - rewrite keys_insert_new. apply NoDup_cons. split; [|exact H].
    apply assoc_None_keys. rewrite has_key_assoc in Hk.
    destruct (assoc k fs); [discriminate | reflexivity].
Qed.

Lemma assoc_elem_of {A} (k : jsstring) (v : A) (fs : list (jsstring * A)) :
  NoDup (map fst fs) -> (k, v) ∈ fs -> assoc k fs = Some v.
Proof.
  induction fs as [|[k0 v0] fs IH]; intros Hn He; [inversion He|].
  cbn in Hn. apply NoDup_cons in Hn as [Hk0 Hn]. cbn.
  apply elem_of_cons in He as [[= -> ->]|He].
  - destruct (decide (k0 = k0)); [reflexivity | congruence].
  - destruct (decide (k = k0)) as [->|Hne]; [|apply IH; assumption].
    exfalso. apply Hk0. apply list_elem_of_fmap. exists (k0, v). auto.
Qed.

Lemma occurrences_cons (k x : jsstring) (keys : list jsstring) :
  Tools.occurrences k (x :: keys)
  = (if decide (x = k) then 1 else 0) + Tools.occurrences k keys.
Proof.
  unfold Tools.occurrences. destruct (decide (x = k)) as [->|Hne].
  - rewrite filter_cons_True by reflexivity. reflexivity.
  - rewrite filter_cons_False by exact Hne. reflexivity.
Qed.

Lemma occurrences_pos (k : jsstring) (keys : list jsstring) :
  k ∈ keys <-> 0 < Tools.occurrences k keys.
Proof.
  induction keys as [|x keys IH].
  - split; [intros H; inversion H | cbn; lia].
  - rewrite occurrences_cons, elem_of_cons. destruct (decide (x = k)) as [->|Hne].
    + split; [lia | auto].
    + rewrite IH. cbn. split; [intros [?|?]; [congruence | assumption] | auto].
Qed.

(** What [tally] computes: a table with one entry for each key that
    occurs, whose weight has grown by the number of its occurrences. *)
Lemma tally_spec {R V : Type} (key : R -> jsstring) (init : R -> V) (bump : V -> V)
  (weight : V -> nat) :
  (forall r, weight (init r) = 1) ->
  (forall v, weight (bump v) = S (weight v)) ->
  forall rows table table',
    Tools.tally key init bump rows table = Some table' ->
    NoDup (map fst table) ->
    NoDup (map fst table')
    /\ forall k,
         match assoc k table' with
         | Some v =>
             weight v
             = match assoc k table with
               | Some v0 => weight v0
               | None => 0
               end + Tools.occurrences k (map key rows)
             /\ (assoc k table = None -> k ∈ map key rows)
         | None => assoc k table = None /\ k ∉ map key rows
         end.
Proof.
  intros Hinit Hbump. induction rows as [|r rows IH]; intros table table' H Hn.
  - injection H as <-. split; [exact Hn|]. intros k. cbn.
    destruct (assoc k table); [split; [lia | discriminate]|].
    split; [reflexivity | apply not_elem_of_nil].
  - cbn [Tools.tally] in H.
    assert (forall v,
              (match assoc (key r) table with
               | Some v0 => weight v = S (weight v0)
               | None => weight v = 1
               end) ->
              Tools.tally key init bump rows (set_prop table (key r, v)) = Some table' ->
              NoDup (map fst table')
              /\ forall k,
                   match assoc k table' with
                   | Some v1 =>
                       weight v1
                       = match assoc k table with
                         | Some v0 => weight v0
                         | None => 0
                         end + Tools.occurrences k (map key (r :: rows))
                       /\ (assoc k table = None -> k ∈ map key (r :: rows))
                   | None => assoc k table = None /\ k ∉ map key (r :: rows)
                   end) as Hstep.
    { intros v Hv T. apply IH in T as [Hn' Hk]; [|apply NoDup_set_prop, Hn].
      split; [exact Hn'|]. intros k. specialize (Hk k).
      rewrite assoc_set_prop in Hk. cbn [map]. rewrite occurrences_cons.
      destruct (assoc k table') as [v1|].
      - destruct (decide (k = key r)) as [->|Hne].
        + destruct (decide (key r = key r)); [|congruence].
          destruct Hk as [Hk _]. split; [|intros _; apply elem_of_cons; auto].
          rewrite Hk. destruct (assoc (key r) table); lia.
        + destruct (decide (key r = k)); [congruence|].
          destruct Hk as [Hk1 Hk2]. split; [exact Hk1|].
          intros E. apply elem_of_cons. right. exact (Hk2 E).
      - destruct (decide (k = key r)) as [->|Hne]; [destruct Hk; discriminate|].
        destruct Hk as [Hk1 Hk2]. split; [exact Hk1|].
        apply not_elem_of_cons. split; [exact Hne | exact Hk2]. }
    destruct (assoc (key r) table) as [v0|] eqn:E.
    + apply (Hstep (bump v0)); [apply Hbump | exact H].
    + destruct (bool_decide (key r ∈ OBJECT_PROTOTYPE)); [discriminate|].
      apply (Hstep (init r)); [apply Hinit | exact H].
Qed.

Lemma assoc_Some_pair {A} (k : jsstring) (v : A) (fs : list (jsstring * A)) :
  assoc k fs = Some v -> (k, v) ∈ fs.
Proof.
  induction fs as [|[k0 v0] fs IH]; [discriminate|]. cbn.
  destruct (decide (k = k0)) as [->|Hne].
  - intros [= ->]. apply elem_of_cons. auto.
  - intros H. apply elem_of_cons. right. apply IH, H.
Qed.

(** *** Sorting *)

Lemma insert_desc_perm {A} (weight : A -> nat) (x : A) (l : list A) :
  Tools.insert_desc weight x l ≡ₚ x :: l.
Proof.
  induction l as [|y l IH]; [reflexivity|]. cbn [Tools.insert_desc].
  destruct (weight y <=? weight x); [reflexivity|].
  rewrite IH. apply Permutation_swap.
Qed.

Lemma sort_desc_perm {A} (weight : A -> nat) (l : list A) :
  Tools.sort_desc weight l ≡ₚ l.
Proof.
  induction l as [|x l IH]; [reflexivity|].
  unfold Tools.sort_desc in *. cbn [foldr]. rewrite insert_desc_perm, IH. reflexivity.
Qed.

Lemma elem_of_take_1 {A} (n : nat) (l : list A) (x : A) : x ∈ take n l -> x ∈ l.
Proof. intros H. rewrite <- (take_drop n l). apply elem_of_app. auto. Qed.

Lemma elem_of_drop_1 {A} (n : nat) (l : list A) (x : A) : x ∈ drop n l -> x ∈ l.
Proof. intros H. rewrite <- (take_drop n l). apply elem_of_app. auto. Qed.

Lemma insert_desc_sorted {A} (weight : A -> nat) (x : A) (l : list A) :
  Tools.descending weight l ->
  Tools.descending weight (Tools.insert_desc weight x l).
Proof.
  induction l as [|y l IH]; cbn [Tools.descending Tools.insert_desc].
  - intros _. split; [constructor | exact I].
  - intros [Hy Hs]. destruct (weight y <=? weight x) eqn:C.
    + apply Nat.leb_le in C. cbn [Tools.descending]. split; [|auto].
      constructor; [lia|]. eapply Forall_impl; [exact Hy|]. cbn. intros; lia.
    + apply Nat.leb_gt in C. cbn [Tools.descending]. split; [|apply IH, Hs].
      rewrite insert_desc_perm. constructor; [lia | assumption].
Qed.

(** The sort is stable: the elements of one weight are in the order
    they had in the array. *)
Lemma insert_desc_stable {A} (weight : A -> nat) (w : nat) (x : A) (l : list A) :
  filter (fun z => weight z = w) (Tools.insert_desc weight x l)
  = filter (fun z => weight z = w) (x :: l).
Proof.
  induction l as [|y l IH]; [reflexivity|]. cbn [Tools.insert_desc].
  destruct (weight y <=? weight x) eqn:C; [reflexivity|].
  apply Nat.leb_gt in C.
  destruct (decide (weight x = w)) as [Hx|Hx].
  - rewrite (filter_cons_False _ y) by lia. rewrite IH.
    rewrite !(filter_cons_True _ x) by exact Hx.
    rewrite (filter_cons_False _ y) by lia. reflexivity.
  - rewrite (filter_cons_False _ x (y :: l)) by exact Hx.
    destruct (decide (weight y = w)) as [Hy|Hy].
    + rewrite !(filter_cons_True _ y) by exact Hy. rewrite IH.
      rewrite (filter_cons_False _ x) by exact Hx. reflexivity.
    + rewrite !(filter_cons_False _ y) by exact Hy. rewrite IH.
      rewrite (filter_cons_False _ x) by exact Hx. reflexivity.
Qed.

Lemma sort_desc_stable {A} (weight : A -> nat) (w : nat) (l : list A) :
  filter (fun z => weight z = w) (Tools.sort_desc weight l)
  = filter (fun z => weight z = w) l.
Proof.
  induction l as [|x l IH]; [reflexivity|].
  unfold Tools.sort_desc in *. cbn [foldr]. rewrite insert_desc_stable.
  destruct (decide (weight x = w)) as [Hx|Hx].
  - rewrite !(filter_cons_True _ x) by exact Hx. rewrite IH. reflexivity.
  - rewrite !(filter_cons_False _ x) by exact Hx. exact IH.
Qed.

(** What is already in order is left as it is. *)
Lemma sort_desc_sorted_id {A} (weight : A -> nat) (l : list A) :
  Tools.descending weight l -> Tools.sort_desc weight l = l.
Proof.
  induction l as [|x l IH]; [reflexivity|]. intros [Hx Hs].
  unfold Tools.sort_desc in *. cbn [foldr]. rewrite (IH Hs).
  destruct l as [|y l]; [reflexivity|]. cbn [Tools.insert_desc].
  apply Forall_cons in Hx as [Hy _].
  apply Nat.leb_le in Hy. rewrite Hy. reflexivity.
Qed.

Lemma sort_desc_sorted {A} (weight : A -> nat) (l : list A) :
  Tools.descending weight (Tools.sort_desc weight l).
Proof.
  induction l as [|x l IH]; [exact I|].
  unfold Tools.sort_desc in *. cbn [foldr]. apply insert_desc_sorted, IH.
Qed.

Lemma descending_take {A} (weight : A -> nat) (n : nat) (l : list A) :
  Tools.descending weight l ->
  Tools.descending weight (take n l)
  /\ forall x y, x ∈ take n l -> y ∈ drop n l -> weight y <= weight x.
Proof.
  revert n. induction l as [|a l IH]; intros n H.
  - rewrite take_nil, drop_nil. split; [exact I|]. intros x y Hx. inversion Hx.
  - destruct H as [Ha Hs]. destruct n as [|n]; cbn [take drop].
    + split; [exact I|]. intros x y Hx. inversion Hx.
    + destruct (IH n Hs) as [IH1 IH2]. cbn [Tools.descending]. split.
      * split; [|exact IH1].
        apply Forall_forall. intros x Hx. rewrite Forall_forall in Ha.
        apply Ha. eapply elem_of_take_1, Hx.
      * intros x y Hx Hy. apply elem_of_cons in Hx as [->|Hx].
        -- rewrite Forall_forall in Ha. apply Ha. eapply elem_of_drop_1, Hy.
        -- apply IH2; assumption.
Qed.

(** The [size] heaviest entries of a tally, among those that weigh
    [threshold] or more: each weighs what its key occurs, none is
    outweighed by an entry left out. *)
Lemma tally_top {R V : Type} (key : R -> jsstring) (init : R -> V) (bump : V -> V)
  (weight : V -> nat) (rows : list R) (table : list (jsstring * V))
  (threshold size : nat) :
  (forall r, weight (init r) = 1) ->
  (forall v, weight (bump v) = S (weight v)) ->
  Tools.tally key init bump rows [] = Some table ->
  let top :=
    take size (Tools.sort_desc (fun kv => weight (snd kv))
                 (filter (fun kv => threshold <= weight (snd kv)) table)) in
  length top <= size
  /\ NoDup (map fst top)
  /\ Tools.descending (fun kv => weight (snd kv)) top
  /\ Forall (fun kv => threshold <= weight (snd kv)
                      /\ weight (snd kv) = Tools.occurrences (fst kv) (map key rows)
                      /\ fst kv ∈ map key rows) top
  /\ forall k,
       threshold <= Tools.occurrences k (map key rows) -> k ∈ map key rows ->
       k ∈ map fst top
       \/ length top = size
          /\ Forall (fun kv => Tools.occurrences k (map key rows) <= weight (snd kv)) top.
Proof.
  intros Hinit Hbump T top.
  destruct (tally_spec key init bump weight Hinit Hbump rows [] table T)
    as [Hn Hk]; [constructor|].
  set (kept := filter (fun kv => threshold <= weight (snd kv)) table) in *.
  set (sorted := Tools.sort_desc (fun kv => weight (snd kv)) kept) in *.
  assert (forall kv, kv ∈ sorted <-> kv ∈ table /\ threshold <= weight (snd kv)) as Hs.
  { intros kv. unfold sorted. rewrite sort_desc_perm. unfold kept.
    rewrite list_elem_of_filter. tauto. }
  assert (forall k v, (k, v) ∈ table ->
            weight v = Tools.occurrences k (map key rows) /\ k ∈ map key rows) as Hw.
  { intros k v He. specialize (Hk k). rewrite (assoc_elem_of k v table Hn He) in Hk.
    cbn in Hk. destruct Hk as [Hk1 Hk2]. split; [exact Hk1 | apply Hk2; reflexivity]. }
  pose proof (descending_take (fun kv : jsstring * V => weight (snd kv)) size sorted
                (sort_desc_sorted _ kept)) as [Hd1 Hd2].
  assert (NoDup (map fst sorted)) as Hns.
  { unfold sorted. rewrite (sort_desc_perm _ kept).
    eapply sublist_NoDup; [exact Hn|]. apply fmap_sublist, sublist_filter. }
  split; [apply firstn_le_length|]. split.
  { eapply sublist_NoDup; [exact Hns|]. apply fmap_sublist, sublist_take. }
  split; [exact Hd1|]. split.
  { apply Forall_forall. intros [k v] He. apply elem_of_take_1 in He.
    apply Hs in He as [He Ht]. destruct (Hw k v He) as [Hw1 Hw2]. cbn [fst snd] in *.
    auto. }
  intros k Ht Hin. specialize (Hk k).
  destruct (assoc k table) as [v|] eqn:E; [|destruct Hk as [_ Hk]; contradiction].
  cbn in Hk. destruct Hk as [Hk _].
  assert ((k, v) ∈ sorted) as He.
  { apply Hs. split; [apply assoc_Some_pair, E|]. cbn [snd]. lia. }
  rewrite <- (take_drop size sorted) in He. apply elem_of_app in He as [He|He].
  - left. apply list_elem_of_fmap. exists (k, v). auto.
  - right. split.
    + apply length_take_le. destruct (decide (size <= length sorted)) as [|Hlt]; [assumption|].
      rewrite drop_ge in He by lia. inversion He.
    + apply Forall_forall. intros x Hx. rewrite <- Hk.
      apply (Hd2 x (k, v) Hx He).
Qed.

Lemma filter_all {A} (P : A -> Prop) `{forall x, Decision (P x)} (l : list A) :
  (forall x, P x) -> filter P l = l.
Proof.
  intros HP. induction l as [|x l IH]; [reflexivity|].
  rewrite filter_cons_True by apply HP. rewrite IH. reflexivity.
Qed.

Lemma usable_length (d : option jsstring) (desc : jsstring) :
  Tools.usable d = Some desc -> 3 < length desc.
Proof.
  unfold Tools.usable. destruct d as [d|]; [|discriminate].
  destruct (3 <? length (trim d)) eqn:L; [|discriminate].
  intros [= <-]. apply Nat.ltb_lt, L.
Qed.

(** X18.  When [suggestTaskNames] returns its object, [frequentTasks]
    lists at most ten descriptions, all different, each longer than
    three characters once trimmed, most used first; [timesUsed] is the
    number of timesheets with that description; and a description that
    is left out is used no more often than any of the ten. *)
Theorem frequent_tasks_are_the_most_used
  (descriptions : list (option jsstring)) (recentTasks : list Tools.TaskRow)
  (result : json) :
  Tools.suggestTaskNames descriptions recentTasks = Some result ->
  let used := omap Tools.usable descriptions in
  exists top : list (jsstring * nat),
    own_property result (str "frequentTasks")
    = Some (JArray (map (fun p => JObject [(str "task", JString (fst p));
                                           (str "timesUsed", Tools.number (snd p))])
                      top))
    /\ length top <= 10
    /\ NoDup (map fst top)
    /\ Tools.descending snd top
    /\ Forall (fun p => 3 < length (fst p)
                        /\ 0 < snd p
                        /\ snd p = Tools.occurrences (fst p) used) top
    /\ forall d,
         d ∈ used ->
         d ∈ map fst top
         \/ length top = 10
            /\ Forall (fun p => Tools.occurrences d used <= snd p) top.
Proof.
  intros H used. unfold Tools.suggestTaskNames in H.
  destruct (Tools.topTasks descriptions) as [top|] eqn:T; [|discriminate].
  injection H as <-. exists top. split; [reflexivity|].
  unfold Tools.topTasks in T. fold used in T.
  destruct (Tools.tally _ _ _ used []) as [table|] eqn:Y; [|discriminate].
  injection T as <-.
  pose proof (tally_top (fun d : jsstring => d) (fun _ => 1) S (fun n => n)
                used table 0 10 (fun _ => eq_refl) (fun _ => eq_refl) Y)
    as (H1 & H2 & H3 & H4 & H5).
  rewrite filter_all in H1, H2, H3, H4, H5 by (intros; lia).
  rewrite list_fmap_id in H4, H5.
  split; [exact H1|]. split; [exact H2|]. split; [exact H3|]. split.
  - eapply Forall_impl; [exact H4|]. cbn beta. intros [k n] (_ & Hn & Hk).
    cbn [fst snd] in *. split; [|split; [|exact Hn]].
    + apply list_elem_of_omap in Hk as (d & _ & Hd). eapply usable_length, Hd.
    + rewrite Hn. apply occurrences_pos, Hk.
  - intros d Hd. apply H5; [lia | exact Hd].
Qed.

Lemma frequent_tasks_are_the_most_used_witness :
  let used := omap Tools.usable loggedDescriptions in
  exists top : list (jsstring * nat),
    own_property
      (default JNull (Tools.suggestTaskNames loggedDescriptions []))
      (str "frequentTasks")
    = Some (JArray (map (fun p => JObject [(str "task", JString (fst p));
                                           (str "timesUsed", Tools.number (snd p))])
                      top))
    /\ length top <= 10
    /\ NoDup (map fst top)
    /\ Tools.descending snd top
    /\ Forall (fun p => 3 < length (fst p)
                        /\ 0 < snd p
                        /\ snd p = Tools.occurrences (fst p) used) top
    /\ forall d,
         d ∈ used ->
         d ∈ map fst top
         \/ length top = 10
            /\ Forall (fun p => Tools.occurrences d used <= snd p) top.
Proof.
  apply (frequent_tasks_are_the_most_used loggedDescriptions []
           (default JNull (Tools.suggestTaskNames loggedDescriptions []))).
  vm_compute. reflexivity.
Defined.

(** The tally at work: the descriptions are trimmed before they are
    counted, short ones are skipped, and a description that names a
    property of [Object.prototype] takes the tool out of the model. *)
Lemma top_tasks_of_the_week :
  Tools.topTasks loggedDescriptions
  = Some [(str "Fix login bug", 3); (str "Standup", 2); (str "Code review", 1)]
  /\ Tools.topTasks [Some (str "Standup"); Some (str "constructor")] = None.
Proof. split; vm_compute; reflexivity. Qed.

(** Descriptions used equally often stay in the order in which they
    were first met: of eleven used once the first ten are kept, and one
    used twice goes before them all. *)
Lemma ties_keep_the_first_seen :
  Tools.topTasks elevenTasks
  = Some (map (fun n : string => (str "Task " ++ str n, 1))
            ["01"; "02"; "03"; "04"; "05"; "06"; "07"; "08"; "09"; "10"]%string)
  /\ Tools.topTasks (elevenTasks ++ [Some (str "Task 11")])
     = Some ((str "Task 11", 2)
             :: map (fun n : string => (str "Task " ++ str n, 1))
                  ["01"; "02"; "03"; "04"; "05"; "06"; "07"; "08"; "09"]%string)
  /\ Tools.sort_desc snd [(str "a", 1); (str "b", 2); (str "c", 1); (str "d", 2)]
     = [(str "b", 2); (str "d", 2); (str "a", 1); (str "c", 1)].
Proof. repeat split; vm_compute; reflexivity. Qed.

(** X19.  When [getRepeatedEntries] returns its object, [patterns] lists
    at most five combinations of project, task and hours, all different,
    each found in three timesheets or more, the most repeated first;
    [count] is the number of timesheets with that combination; and a
    combination that repeats three times or more and is left out repeats
    no more often than any of the five. *)
Theorem repeated_entries_are_the_most_repeated
  (timesheets : list Tools.TimesheetRow) (result : json) :
  Tools.getRepeatedEntries timesheets = Some result ->
  let keys := map Tools.patternKey (omap Tools.eligible timesheets) in
  exists top : list (jsstring * Tools.Pattern),
    own_property result (str "patterns")
    = Some (JArray (map (fun kp => Tools.patternJson (snd kp)) top))
    /\ length top <= 5
    /\ NoDup (map fst top)
    /\ Tools.descending (fun kp => Tools.count (snd kp)) top
    /\ Forall (fun kp => 3 <= Tools.count (snd kp)
                         /\ Tools.count (snd kp) = Tools.occurrences (fst kp) keys) top
    /\ forall k,
         3 <= Tools.occurrences k keys ->
         k ∈ map fst top
         \/ length top = 5
            /\ Forall (fun kp => Tools.occurrences k keys <= Tools.count (snd kp)) top.
Proof.
  intros H keys. unfold Tools.getRepeatedEntries in H.
  destruct (Tools.repeatedPatterns timesheets) as [top|] eqn:T; [|discriminate].
  injection H as <-. exists top. split; [reflexivity|].
  unfold Tools.repeatedPatterns in T.
  destruct (Tools.tally _ _ _ (omap Tools.eligible timesheets) []) as [table|] eqn:Y;
    [|discriminate].
  injection T as <-.
  assert (forall r, Tools.count (Tools.firstSeen r) = 1) as Hinit.
  { intros [[[p t] h] ts]. reflexivity. }
  pose proof (tally_top Tools.patternKey Tools.firstSeen Tools.seenAgain Tools.count
                (omap Tools.eligible timesheets) table 3 5 Hinit (fun _ => eq_refl) Y)
    as (H1 & H2 & H3 & H4 & H5).
  fold keys in H4, H5.
  split; [exact H1|]. split; [exact H2|]. split; [exact H3|]. split.
  - eapply Forall_impl; [exact H4|]. cbn beta. intros kp (Ht & Hn & _). auto.
  - intros k Hk. apply H5; [exact Hk|]. apply occurrences_pos. lia.
Qed.

Lemma repeated_entries_are_the_most_repeated_witness :
  let keys := map Tools.patternKey (omap Tools.eligible loggedTimesheets) in
  exists top : list (jsstring * Tools.Pattern),
    own_property (default JNull (Tools.getRepeatedEntries loggedTimesheets))
      (str "patterns")
    = Some (JArray (map (fun kp => Tools.patternJson (snd kp)) top))
    /\ length top <= 5
    /\ NoDup (map fst top)
    /\ Tools.descending (fun kp => Tools.count (snd kp)) top
    /\ Forall (fun kp => 3 <= Tools.count (snd kp)
                         /\ Tools.count (snd kp) = Tools.occurrences (fst kp) keys) top
    /\ forall k,
         3 <= Tools.occurrences k keys ->
         k ∈ map fst top
         \/ length top = 5
            /\ Forall (fun kp => Tools.occurrences k keys <= Tools.count (snd kp)) top.
Proof.
  apply (repeated_entries_are_the_most_repeated loggedTimesheets
           (default JNull (Tools.getRepeatedEntries loggedTimesheets))).
  vm_compute. reflexivity.
Defined.

(** The pattern of the two weeks: three hours on the login page, four
    times, with the times of the first row that shows it; the entry of
    zero hours is not counted. *)
Lemma repeated_entries_of_two_weeks :
  Tools.getRepeatedEntries loggedTimesheets
  = Some (JObject
            [(str "patterns",
              JArray [JObject [(str "project", JString (str "Apollo"));
                               (str "task", JString (str "Login page"));
                               (str "hours", JNumber (str "3"));
                               (str "startTime", JString (str "09:00"));
                               (str "count", JNumber (str "4"))]]);
             (str "message",
              JString (str "Found 1 repeated entry patterns you can reuse"))]).
Proof. vm_compute. reflexivity. Qed.

(** X20.  [suggestCorrections] counts as an issue only what a detector
    reports: a detector that failed counts as one that found nothing.
    [issueCount] is the number of detectors that report, the message is
    the one for clean timesheets exactly when none does (so also when
    all four failed), and the result never has an [error] field, so
    [executeTool] caches it. *)
Theorem failed_checks_pass_for_clean
  (incomplete overlaps : Tools.Detection N) (overtime : Tools.Detection Tools.Overtime)
  (missing : Tools.Detection N) :
  let result := Tools.suggestCorrections incomplete overlaps overtime missing in
  let issues := issuesReported incomplete overlaps overtime missing in
  own_property result (str "issueCount") = Some (Tools.number issues)
  /\ (issues = 0
      <-> own_property result (str "message") = Some (JString Tools.NO_ISSUES))
  /\ own_property result ERROR = None
  /\ cacheable result = true.
Proof.
  destruct incomplete as [|n1], overlaps as [|n2], overtime as [|[b o]], missing as [|n4];
    unfold issuesReported, Tools.suggestCorrections, Tools.suggestions, Tools.reports;
    cbn [Tools.exceedsLimit Tools.totalOvertime];
    try destruct (0 <? n1)%N; try destruct (0 <? n2)%N; try destruct b;
    try destruct (0 <? n4)%N;
    (split; [reflexivity|]);
    (split; [|split; reflexivity]);
    (split; [intros E; first [reflexivity | discriminate E]
            |intros E; first [reflexivity | vm_compute in E; discriminate E]]).
Qed.

(** With the database down every detector fails, and the tool answers
    that the timesheets look great. *)
Lemma all_checks_failed :
  Tools.suggestCorrections Tools.Failed Tools.Failed Tools.Failed Tools.Failed
  = JObject [(str "suggestions", JArray []);
             (str "issueCount", JNumber (str "0"));
             (str "message", JString Tools.NO_ISSUES)].
Proof. reflexivity. Qed.
(** X21.  The guides of [getOnboardingHelp] are out of reach of the
    chat: whenever a turn calls the tool, the topic is undefined, and
    for an undefined topic the tool returns the list of the available
    topics, never a guide. *)
Theorem guides_are_out_of_reach
  (toLowerCase : jsstring -> jsstring) (env : Env) (req : Request) (st : State) :
  exists queries,
    queryLog (snd (chat env req st)) = queryLog st ++ queries
    /\ Forall (fun q =>
                 forall topic,
                   q = getOnboardingHelp topic ->
                   topic = None
                   /\ Tools.getOnboardingHelp toLowerCase topic
                      = Returns Tools.AVAILABLE_TOPICS) queries.
Proof.
  destruct (chat_queries env req st) as (queries & Eq & Lq & Fq).
  exists queries. split; [exact Eq|].
  eapply Forall_impl; [exact Fq|]. cbn beta.
  intros q (Hp & _) topic ->. cbn in Hp. subst topic. split; reflexivity.
Qed.

(** The object that [getOnboardingHelp] builds, by what the lookup finds. *)
Lemma help_shape (key : jsstring) (message : json) :
  exists result,
    match lookupRegistry Tools.guides key with
    | Own found =>
        Returns (JObject [(str "guide", found); (str "topic", JString key);
                          (str "message", message)])
    | Inherited =>
        Returns (Tools.object [(str "guide", Tools.builtinJson key);
                               (str "topic", Some (JString key));
                               (str "message", Some message)])
    | Absent => Returns Tools.AVAILABLE_TOPICS
    end = Returns result
    /\ cacheable result = true
    /\ own_property result ERROR = None
    /\ match assoc key Tools.guides with
       | Some found =>
           own_property result (str "guide") = Some found
           /\ own_property result (str "topic") = Some (JString key)
       | None =>
           if bool_decide (key ∈ OBJECT_PROTOTYPE) then
             own_property result (str "guide")
             = (if decide (key = str "__proto__") then Some (JObject []) else None)
             /\ own_property result (str "topic") = Some (JString key)
           else result = Tools.AVAILABLE_TOPICS
       end.
Proof.
  unfold lookupRegistry.
  destruct (assoc key Tools.guides) as [found|].
  - eexists. split; [reflexivity|]. repeat split; reflexivity.
  - destruct (bool_decide (key ∈ OBJECT_PROTOTYPE)).
    + eexists. split; [reflexivity|]. unfold Tools.builtinJson.
      destruct (decide (key = str "__proto__")); repeat split; reflexivity.
    + eexists. split; [reflexivity|]. repeat split; reflexivity.
Qed.

(** X22.  [getOnboardingHelp] throws only for a topic that is a
    boolean, a number, an array or an object.  What it returns is never
    shaped as an error, so [executeTool] caches it, the list of topics
    included.  It returns the list of topics when the topic, put in
    lower case with each run of white space turned into one underscore,
    is neither the key of a guide nor the name of a property of
    [Object.prototype]; for the key of a guide the result has that
    guide; for the name of a property of [Object.prototype] the result
    has that built-in for a guide, which is printed as [{}] for
    [__proto__] and not at all for the others. *)
Theorem onboarding_help_is_never_an_error
  (toLowerCase : jsstring -> jsstring) (topic : jsval) :
  let key := Tools.topicKey toLowerCase topic in
  match Tools.getOnboardingHelp toLowerCase topic with
  | Throws e =>
      e = TypeError
      /\ exists v, topic = Some v /\ v <> JNull /\ forall t, v <> JString t
  | Returns result =>
      cacheable result = true
      /\ own_property result ERROR = None
      /\ match assoc key Tools.guides with
         | Some found =>
             own_property result (str "guide") = Some found
             /\ own_property result (str "topic") = Some (JString key)
         | None =>
             if bool_decide (key ∈ OBJECT_PROTOTYPE) then
               own_property result (str "guide")
               = (if decide (key = str "__proto__") then Some (JObject []) else None)
               /\ own_property result (str "topic") = Some (JString key)
             else result = Tools.AVAILABLE_TOPICS
         end
  end.
Proof.
  intros key.
  destruct (help_shape key
              (JString (str "Here's how to "
                        ++ to_text (js_or topic (JString (str "get started")))
                        ++ str ":"))) as (result & E & H).
  unfold Tools.getOnboardingHelp. fold key. cbv zeta.
  destruct topic as [[| |n|t| |]|];
    first [ rewrite E; exact H
          | split; [reflexivity|]; eexists; (split; [reflexivity|]);
            split; intros; discriminate ].
Qed.

(** The tool at work on a page of the guide, on a topic it does not
    have, on no topic at all, on a topic that is no text, and on topics
    that name a built-in. *)
Lemma onboarding_help_examples :
  Tools.topicKey (map to_lower) (Some (JString (str "Check   In"))) = str "check_in"
  /\ (exists found,
        Tools.getOnboardingHelp (map to_lower) (Some (JString (str "Check   In")))
        = Returns
            (JObject [(str "guide", found);
                      (str "topic", JString (str "check_in"));
                      (str "message", JString (str "Here's how to Check   In:"))])
        /\ own_property found (str "title") = Some (JString (str "How to Check In/Out")))
  /\ Tools.getOnboardingHelp (map to_lower) (Some (JString (str "payroll")))
     = Returns Tools.AVAILABLE_TOPICS
  /\ Tools.getOnboardingHelp (map to_lower) None = Returns Tools.AVAILABLE_TOPICS
  /\ own_property Tools.AVAILABLE_TOPICS (str "availableTopics")
     = Some (JArray [JString (str "submit timesheet"); JString (str "apply leave");
                     JString (str "check in"); JString (str "complete task");
                     JString (str "view reports")])
  /\ Tools.getOnboardingHelp (map to_lower) (Some (JNumber (str "7")))
     = Throws TypeError
  /\ Tools.getOnboardingHelp (map to_lower) (Some (JString (str "Constructor")))
     = Returns
         (JObject [(str "topic", JString (str "constructor"));
                   (str "message", JString (str "Here's how to Constructor:"))])
  /\ Tools.getOnboardingHelp (map to_lower) (Some (JString (str "__proto__")))
     = Returns
         (JObject [(str "guide", JObject []);
                   (str "topic", JString (str "__proto__"));
                   (str "message", JString (str "Here's how to __proto__:"))]).
Proof.
  split; [vm_compute; reflexivity|]. split.
  { eexists. split; vm_compute; reflexivity. }
  repeat split; vm_compute; reflexivity.
Qed.
